(** * Device-execution runtime and lowering layer of the tensor compiler

    A shallow embedding of
      - pmlc/rt/level_zero/level_zero_invocation.cc   (module [LevelZero])
      - pmlc/conversion/comp_to_llvm/comp_to_ocl.cc   (module [CompToOcl])
      - pmlc/conversion/comp_to_llvm/comp_to_vulkan.cc (module [CompToVulkan])
      - plaidml/bridge/openvino/ops/reduce_mean.cpp   (module [ReduceMean])
    together with the properties the design document states about them. *)

From Stdlib Require Import ZArith Lia.
From stdpp Require Import gmap strings list fin_maps.

Local Open Scope string_scope.
Local Open Scope list_scope.

(* ===================================================================== *)
(** * The accelerator-driver invocation runtime                           *)
(* ===================================================================== *)

Module LevelZero.

(** Native driver handles ([ze_event_handle_t], [ze_kernel_handle_t],
    [ze_module_handle_t]) and device pointers are opaque numbers. *)
Definition handle := N.
(** Host-side object pointers: [LevelZeroMemory *] and [LevelZeroKernel *]
    are addresses of objects made by [new]; a [LevelZeroEvent *] points at an
    element owned by the invocation's [events] vector and is its position. *)
Definition MemoryPtr := N.
Definition KernelPtr := N.
Definition EventPtr := nat.

(** The null object pointer.  [new] never returns it. *)
Definition nullptr : MemoryPtr := 0%N.

Record ze_group_count_t := GroupCount
  { groupCountX : N; groupCountY : N; groupCountZ : N }.

Inductive LevelZeroActionKind := Read | Write | Kernel | Barrier.

Record LevelZeroMemory := MkMemory
  { buffer : handle; bytes : N }.

Record LevelZeroKernel := MkKernel
  { module : handle;
    name : string;
    kernel : handle;
    dependencies : list handle }.

Record LevelZeroEvent := MkEvent
  { event : handle; kind : LevelZeroActionKind; ename : string }.

(** Every effect of the file goes through the driver wrapper ([lzu::...],
    [zeEventHostSynchronize]), the event pool, or [new]/[delete].  The
    state keeps the calls in the order they were issued. *)
Inductive DriverCall :=
| allocate_shared_memory (nbytes : N) (result : handle)
| create_module (nbytes : N) (result : handle)
| create_function (m : handle) (nm : string) (result : handle)
| set_argument_value (k : handle) (idx : N) (buf : handle)
| set_group_size (k : handle) (x y z : N)
| create_event (result : handle)
| destroy_event (e : handle)
| append_memory_copy (dst src : handle) (nbytes : N)
                     (resultE : handle) (deps : list handle)
| append_launch_function (k : handle) (gws : ze_group_count_t)
                         (resultE : handle) (deps : list handle)
| append_barrier (resultE : handle) (deps : list handle)
| close_command_list
| execute_command_lists
| reset_command_list
| synchronize
| zeEventHostSynchronize (e : handle)
| delete_memory (p : MemoryPtr).

(** The invocation object and the part of the heap it points into. *)
Record LevelZeroInvocation := MkInvocation
  { memories : list MemoryPtr;           (* std::vector<LevelZeroMemory *> *)
    events : list LevelZeroEvent;        (* std::vector<unique_ptr<LevelZeroEvent>> *)
    memoryObjects : gmap N LevelZeroMemory;   (* live LevelZeroMemory objects *)
    kernelObjects : gmap N LevelZeroKernel;   (* live LevelZeroKernel objects *)
    fresh : N;                           (* next handle / address handed out *)
    calls : list DriverCall }.

(** Host pointers passed to read and write ([void *dst], [void *src]). *)
Definition HostPtr := handle.

Definition issue (c : DriverCall) (s : LevelZeroInvocation) : LevelZeroInvocation :=
  MkInvocation (memories s) (events s) (memoryObjects s) (kernelObjects s)
               (fresh s) (calls s ++ [c]).

Definition bump (s : LevelZeroInvocation) : LevelZeroInvocation :=
  MkInvocation (memories s) (events s) (memoryObjects s) (kernelObjects s)
               (N.succ (fresh s)) (calls s).

Definition set_memories (l : list MemoryPtr) (s : LevelZeroInvocation) :=
  MkInvocation l (events s) (memoryObjects s) (kernelObjects s)
               (fresh s) (calls s).

Definition set_events (l : list LevelZeroEvent) (s : LevelZeroInvocation) :=
  MkInvocation (memories s) l (memoryObjects s) (kernelObjects s)
               (fresh s) (calls s).

Definition set_memoryObjects (h : gmap N LevelZeroMemory) (s : LevelZeroInvocation) :=
  MkInvocation (memories s) (events s) h (kernelObjects s)
               (fresh s) (calls s).

Definition set_kernelObjects (h : gmap N LevelZeroKernel) (s : LevelZeroInvocation) :=
  MkInvocation (memories s) (events s) (memoryObjects s) h
               (fresh s) (calls s).

(** [LevelZeroInvocation::LevelZeroInvocation]: empty vectors; the event
    pool initialisation is a driver matter. *)
Definition create : LevelZeroInvocation :=
  MkInvocation [] [] ∅ ∅ 0%N [].

(** [eventPool.create_event(event)]: the pool hands out a new handle. *)
Definition eventPool_create_event (s : LevelZeroInvocation)
  : handle * LevelZeroInvocation :=
  let h := fresh s in (h, issue (create_event h) (bump s)).

(** [LevelZeroInvocation::wrapEvent] *)
Definition wrapEvent (e : handle) (k : LevelZeroActionKind) (nm : string)
           (s : LevelZeroInvocation) : EventPtr * LevelZeroInvocation :=
  let s' := set_events (events s ++ [MkEvent e k nm]) s in
  (length (events s), s').

(** The [std::transform(deps..., event->getEvent())] prologue of the
    enqueue functions: dereferences every dependency pointer. *)
Definition getEvents (s : LevelZeroInvocation) (deps : list EventPtr)
  : option (list handle) :=
  mapM (fun p => event <$> events s !! p) deps.

(** [LevelZeroInvocation::allocateMemory] *)
Definition allocateMemory (nbytes : N) (s : LevelZeroInvocation)
  : MemoryPtr * LevelZeroInvocation :=
  let buf := fresh s in
  let s1 := issue (allocate_shared_memory nbytes buf) (bump s) in
  let p := fresh s1 in
  (p, set_memoryObjects (<[p := MkMemory buf nbytes]> (memoryObjects s1)) (bump s1)).

(** [LevelZeroInvocation::deallocateMemory]: [memories.push_back(memory)]
    and nothing else (the [delete memory] is commented out). *)
Definition deallocateMemory (memory : MemoryPtr) (s : LevelZeroInvocation)
  : LevelZeroInvocation :=
  set_memories (memories s ++ [memory]) s.

(** [LevelZeroInvocation::enqueueRead] with [LevelZeroMemory::enqueueRead] *)
Definition enqueueRead (src : MemoryPtr) (dst : HostPtr) (deps : list EventPtr)
           (s : LevelZeroInvocation) : option (EventPtr * LevelZeroInvocation) :=
  ds ← getEvents s deps;
  let '(e, s1) := eventPool_create_event s in
  m ← memoryObjects s1 !! src;
  let s2 := issue (append_memory_copy dst (buffer m) (bytes m) e ds) s1 in
  Some (wrapEvent e Read "read" s2).

(** [LevelZeroInvocation::enqueueWrite] with [LevelZeroMemory::enqueueWrite] *)
Definition enqueueWrite (dst : MemoryPtr) (src : HostPtr) (deps : list EventPtr)
           (s : LevelZeroInvocation) : option (EventPtr * LevelZeroInvocation) :=
  ds ← getEvents s deps;
  let '(e, s1) := eventPool_create_event s in
  m ← memoryObjects s1 !! dst;
  let s2 := issue (append_memory_copy (buffer m) src (bytes m) e ds) s1 in
  Some (wrapEvent e Write "write" s2).

(** [LevelZeroInvocation::createKernelFromIL] with the [LevelZeroKernel]
    constructor. *)
Definition createKernelFromIL (nbytes : N) (nm : string) (s : LevelZeroInvocation)
  : KernelPtr * LevelZeroInvocation :=
  let m := fresh s in
  let s1 := issue (create_module nbytes m) (bump s) in
  let f := fresh s1 in
  let s2 := issue (create_function m nm f) (bump s1) in
  let p := fresh s2 in
  (p, set_kernelObjects (<[p := MkKernel m nm f []]> (kernelObjects s2)) (bump s2)).

(** [LevelZeroKernel::addDependency] *)
Definition addDependency (k : KernelPtr) (ev : EventPtr) (s : LevelZeroInvocation)
  : option LevelZeroInvocation :=
  kr ← kernelObjects s !! k;
  e ← events s !! ev;
  Some (set_kernelObjects
          (<[k := MkKernel (module kr) (name kr) (kernel kr)
                           (dependencies kr ++ [event e])]> (kernelObjects s)) s).

(** [LevelZeroKernel::setArg].  The parameter [idx] is an [unsigned]:
    what arrives in the function is the caller's number modulo 2^32. *)
Definition setArg (k : KernelPtr) (idx : N) (memory : MemoryPtr)
           (s : LevelZeroInvocation) : option LevelZeroInvocation :=
  kr ← kernelObjects s !! k;
  m ← memoryObjects s !! memory;
  let idx := (idx mod 2 ^ 32)%N in
  Some (issue (set_argument_value (kernel kr) idx (buffer m)) s).

(** [LevelZeroKernel::enqueue]: launch with the accumulated dependencies,
    then [dependencies.clear()]. *)
Definition LevelZeroKernel_enqueue (k : KernelPtr) (gws lws : ze_group_count_t)
           (resultE : handle) (s : LevelZeroInvocation) : option LevelZeroInvocation :=
  kr ← kernelObjects s !! k;
  let s1 := issue (append_launch_function (kernel kr) gws resultE (dependencies kr)) s in
  Some (set_kernelObjects
          (<[k := MkKernel (module kr) (name kr) (kernel kr) []]> (kernelObjects s1)) s1).

(** [LevelZeroInvocation::enqueueKernel] *)
Definition enqueueKernel (k : KernelPtr) (gws lws : ze_group_count_t)
           (s : LevelZeroInvocation) : option (EventPtr * LevelZeroInvocation) :=
  kr ← kernelObjects s !! k;
  let s1 := issue (set_group_size (kernel kr) (groupCountX lws)
                                  (groupCountY lws) (groupCountZ lws)) s in
  let '(e, s2) := eventPool_create_event s1 in
  s3 ← LevelZeroKernel_enqueue k gws lws e s2;
  Some (wrapEvent e Kernel (name kr) s3).

(** [LevelZeroInvocation::enqueueBarrier] *)
Definition enqueueBarrier (deps : list EventPtr) (s : LevelZeroInvocation)
  : option (EventPtr * LevelZeroInvocation) :=
  let '(e, s1) := eventPool_create_event s in
  ds ← getEvents s1 deps;
  let s2 := issue (append_barrier e ds) s1 in
  Some (wrapEvent e Barrier "barrier" s2).

(** [LevelZeroInvocation::flush] *)
Definition flush (s : LevelZeroInvocation) : LevelZeroInvocation :=
  issue reset_command_list
    (issue synchronize
       (issue execute_command_lists
          (issue close_command_list s))).

(** [LevelZeroInvocation::finish] *)
Definition finish (s : LevelZeroInvocation) : LevelZeroInvocation :=
  issue synchronize s.

(** [LevelZeroEvent::wait] *)
Definition wait (evs : list EventPtr) (s : LevelZeroInvocation)
  : option LevelZeroInvocation :=
  hs ← getEvents s evs;
  Some (foldl (fun acc h => issue (zeEventHostSynchronize h) acc) s hs).

(** [delete memories[i]].  Deleting the null pointer does nothing to the
    heap; any other pointer must be a live object, which is taken off the
    heap.  The log keeps the [delete] with its operand in both cases. *)
Definition delete_LevelZeroMemory (p : MemoryPtr) (s : LevelZeroInvocation)
  : option LevelZeroInvocation :=
  if decide (p = nullptr) then Some (issue (delete_memory p) s) else
  _ ← memoryObjects s !! p;
  Some (issue (delete_memory p)
          (set_memoryObjects (delete p (memoryObjects s)) s)).

Fixpoint delete_all (ps : list MemoryPtr) (s : LevelZeroInvocation)
  : option LevelZeroInvocation :=
  match ps with
  | [] => Some s
  | p :: ps' => s' ← delete_LevelZeroMemory p s; delete_all ps' s'
  end.

(** [LevelZeroInvocation::~LevelZeroInvocation]: [finish()], then the
    loop over [memories], then the loop over [events].  The loop over
    kernels is commented out. *)
Definition destroy (s : LevelZeroInvocation) : option LevelZeroInvocation :=
  let s1 := finish s in
  s2 ← delete_all (memories s1) s1;
  Some (foldl (fun acc e => issue (destroy_event (event e)) acc) s2 (events s2)).

(** ** Clients of the runtime

    Generated code drives an invocation through its public interface, one
    call after the other.  A call on a dangling pointer has no defined
    behaviour ([None]). *)
Inductive Call :=
| CallAllocateMemory (nbytes : N)
| CallDeallocateMemory (memory : MemoryPtr)
| CallEnqueueRead (src : MemoryPtr) (dst : HostPtr) (deps : list EventPtr)
| CallEnqueueWrite (dst : MemoryPtr) (src : HostPtr) (deps : list EventPtr)
| CallCreateKernelFromIL (nbytes : N) (nm : string)
| CallAddDependency (k : KernelPtr) (ev : EventPtr)
| CallSetArg (k : KernelPtr) (idx : N) (memory : MemoryPtr)
| CallEnqueueKernel (k : KernelPtr) (gws lws : ze_group_count_t)
| CallEnqueueBarrier (deps : list EventPtr)
| CallFlush
| CallFinish
| CallWait (evs : list EventPtr).

Inductive Returned :=
| RetVoid
| RetMemory (p : MemoryPtr)
| RetKernel (k : KernelPtr)
| RetEvent (e : EventPtr).

Definition step (c : Call) (s : LevelZeroInvocation)
  : option (Returned * LevelZeroInvocation) :=
  match c with
  | CallAllocateMemory n =>
      let '(p, s') := allocateMemory n s in Some (RetMemory p, s')
  | CallDeallocateMemory p => Some (RetVoid, deallocateMemory p s)
  | CallEnqueueRead src dst deps =>
      '(e, s') ← enqueueRead src dst deps s; Some (RetEvent e, s')
  | CallEnqueueWrite dst src deps =>
      '(e, s') ← enqueueWrite dst src deps s; Some (RetEvent e, s')
  | CallCreateKernelFromIL n nm =>
      let '(k, s') := createKernelFromIL n nm s in Some (RetKernel k, s')
  | CallAddDependency k ev => s' ← addDependency k ev s; Some (RetVoid, s')
  | CallSetArg k idx m => s' ← setArg k idx m s; Some (RetVoid, s')
  | CallEnqueueKernel k gws lws =>
      '(e, s') ← enqueueKernel k gws lws s; Some (RetEvent e, s')
  | CallEnqueueBarrier deps =>
      '(e, s') ← enqueueBarrier deps s; Some (RetEvent e, s')
  | CallFlush => Some (RetVoid, flush s)
  | CallFinish => Some (RetVoid, finish s)
  | CallWait evs => s' ← wait evs s; Some (RetVoid, s')
  end.

Fixpoint run (cs : list Call) (s : LevelZeroInvocation)
  : option (list Returned * LevelZeroInvocation) :=
  match cs with
  | [] => Some ([], s)
  | c :: cs' =>
      '(r, s1) ← step c s;
      '(rs, s2) ← run cs' s1;
      Some (r :: rs, s2)
  end.

(** Where a run ends and what it returned (for a run that goes through). *)
Definition finalState (cs : list Call) (s : LevelZeroInvocation)
  : LevelZeroInvocation :=
  match run cs s with Some (_, s') => s' | None => s end.

Definition returned (cs : list Call) (s : LevelZeroInvocation) : list Returned :=
  match run cs s with Some (rs, _) => rs | None => [] end.

(** The objects a client handed to [deallocateMemory], in call order. *)
Definition deallocated (cs : list Call) : list MemoryPtr :=
  omap (fun c => match c with CallDeallocateMemory p => Some p | _ => None end) cs.

(** The events a client attached to kernel [k], in call order. *)
Definition addedTo (k : KernelPtr) (cs : list Call) : list EventPtr :=
  omap (fun c => match c with
                 | CallAddDependency k' ev => if decide (k' = k) then Some ev else None
                 | _ => None
                 end) cs.

(** No launch of kernel [k] among the calls. *)
Definition launches (k : KernelPtr) (c : Call) : bool :=
  match c with
  | CallEnqueueKernel k' _ _ => bool_decide (k' = k)
  | _ => false
  end.

(** The two ways a kernel's dependency list starts out empty: the kernel
    has just been made, or it has just been launched. *)
Definition resets (k : KernelPtr) (c : Call) (r : Returned) : Prop :=
  (exists gws lws, c = CallEnqueueKernel k gws lws) \/
  (exists n nm, c = CallCreateKernelFromIL n nm /\ r = RetKernel k).

(** The pointers the driver log says were deleted. *)
Definition released (l : list DriverCall) : list MemoryPtr :=
  omap (fun c => match c with delete_memory p => Some p | _ => None end) l.

(** Addresses and handles are handed out in increasing order; a live
    object sits below the next one to be handed out. *)
Definition below_fresh (s : LevelZeroInvocation) : Prop :=
  (forall p, is_Some (memoryObjects s !! p) -> (p < fresh s)%N) /\
  (forall p, is_Some (kernelObjects s !! p) -> (p < fresh s)%N).

End LevelZero.

(* ===================================================================== *)
(** * The compiler framework as the lowering patterns see it              *)
(* ===================================================================== *)

Module MLIR.

(** SSA values are numbered; a value made by the rewriter is the number of
    the operation that defines it. *)
Abbreviation Value := N.

Inductive ExecEnvRuntime := OpenCL | Vulkan.

Global Instance ExecEnvRuntime_eq_dec : EqDecision ExecEnvRuntime.
Proof. solve_decision. Defined.

Inductive ElementType := F32 | F16 | I32 | I8 | UnknownElement.

Inductive Ty :=
| ExecEnvType (r : ExecEnvRuntime)
| EventType (r : ExecEnvRuntime)
| MemRefType (shape : list Z) (elem : ElementType) (memorySpace : N)
| IndexType
| TensorType.

Inductive LLVMType :=
| LLVMInt8Ptr
| LLVMVoid
| LLVMInt32
| LLVMInt64
| LLVMIndex
| LLVMFloat
| LLVMHalf
| LLVMInt8
| LLVMMemRefDescriptor.

(** [LLVM::LLVMType::getFunctionTy(result, params, isVarArg)] *)
Record LLVMFunctionType := getFunctionTy
  { fnResult : LLVMType; fnParams : list LLVMType; isVarArg : bool }.

(** The conversions [mlir::LLVMTypeConverter] starts with, for the types
    that occur here. *)
Definition convertElementType (e : ElementType) : option LLVMType :=
  match e with
  | F32 => Some LLVMFloat
  | F16 => Some LLVMHalf
  | I32 => Some LLVMInt32
  | I8 => Some LLVMInt8
  | UnknownElement => None
  end.

Definition convertStandardType (t : Ty) : option LLVMType :=
  match t with
  | IndexType => Some LLVMIndex
  | MemRefType _ e _ => _ ← convertElementType e; Some LLVMMemRefDescriptor
  | _ => None
  end.

(** Two's-complement reinterpretation of an integer in [w] bits; what the
    conversion of a [size_t] or [uint32_t] to [int32_t]/[int64_t] does. *)
Definition wrap_signed (w : Z) (z : Z) : Z :=
  let m := Z.pow 2 w in
  let r := Z.modulo z m in
  if Z.ltb r (Z.pow 2 (w - 1)) then r else (r - m)%Z.

(** [uint32_t] arithmetic. *)
Definition wrap32 (z : Z) : Z := Z.modulo z (Z.pow 2 32).

Inductive Attribute :=
| IntegerAttr (width : Z) (value : Z)
| StringAttr (s : string)
| UnitAttr.

Definition getI32IntegerAttr (z : Z) : Attribute := IntegerAttr 32 (wrap_signed 32 z).
Definition getI64IntegerAttr (z : Z) : Attribute := IntegerAttr 64 (wrap_signed 64 z).

(** An operation of the incoming module that defines an SSA value; only
    its name and attribute dictionary are consulted. *)
Record Operation := MkOperation
  { opName : string; attrs : list (string * Attribute) }.

(** [op->getAttrOfType<IntegerAttr>(name)]: the attribute if present and
    an integer attribute, a null attribute otherwise. *)
Fixpoint getAttr (nm : string) (l : list (string * Attribute)) : option Attribute :=
  match l with
  | [] => None
  | (k, a) :: l' => if decide (k = nm) then Some a else getAttr nm l'
  end.

Definition getAttrOfType_IntegerAttr (o : Operation) (nm : string) : option Attribute :=
  match getAttr nm (attrs o) with
  | Some (IntegerAttr w v) => Some (IntegerAttr w v)
  | _ => None
  end.

(** What a pattern can ask about the surrounding module: the defining
    operation of a value (none for a block argument) and the conversion
    mapping behind [rewriter.getRemappedValue]. *)
Record IR := MkIR
  { definingOps : gmap N Operation;
    mapping : gmap N Value }.

Definition getDefiningOp (ir : IR) (v : Value) : option Operation :=
  definingOps ir !! v.

Definition getRemappedValue (ir : IR) (v : Value) : Value :=
  default v (mapping ir !! v).

(** Operations a lowering pattern creates.  The last group stands for the
    helpers of [utils.h] and of the LLVM-lowering base class, whose bodies
    are outside these files: each use is kept as one step on its inputs. *)
Inductive NewOp :=
| LLVM_CallOp (resultTypes : list (option LLVMType)) (callee : string)
              (operands : list Value)
| LLVM_ConstantOp (ty : LLVMType) (value : option Attribute)
| LLVM_BitcastOp (ty : LLVMType) (v : Value)
| MulIOp (lhs rhs : Value)
| hostMemrefToMem (v : Value)
| deviceMemrefToMem (v : Value)
| indexToInt (v : Value)
| PtrToBinaryModule (binary : string)
| BinaryModuleBytes (binary : string)
| getPtrToGlobalString (s : string)
| getCumulativeSizeInBytes (shape : list Z) (elem : ElementType)
| alignedPtr (v : Value).

(** The rewriter: operations created so far at the insertion point, in
    order, each with the value it defines, and what the matched operation
    was replaced by (if it has been replaced). *)
Record Rewriter := MkRewriter
  { nextValue : N;
    created : list (Value * NewOp);
    replacedBy : option (list Value) }.

Inductive LogicalResult := success | failure.

(** Running a piece of a pattern: it goes on with a value, or the pattern
    returns [failure()], or the C++ has no defined behaviour (a null
    pointer is dereferenced, an array is read past its end). *)
Inductive Outcome (A : Type) :=
| Continue (a : A) (r : Rewriter)
| Failure (r : Rewriter)
| Undefined.
Arguments Continue {A} a r.
Arguments Failure {A} r.
Arguments Undefined {A}.

Definition M (A : Type) : Type := Rewriter -> Outcome A.

Global Instance M_ret : MRet M := fun A a r => Continue a r.
Global Instance M_bind : MBind M := fun A B f m r =>
  match m r with
  | Continue a r' => f a r'
  | Failure r' => Failure r'
  | Undefined => Undefined
  end.

Definition fail {A} : M A := fun r => Failure r.
Definition undefined {A} : M A := fun _ => Undefined.

(** [rewriter.create<Op>(...)] *)
Definition create (o : NewOp) : M Value := fun r =>
  let v := nextValue r in
  Continue v (MkRewriter (N.succ v) (created r ++ [(v, o)]) (replacedBy r)).

(** [rewriter.replaceOpWithNewOp<Op>(op, ...)] *)
Definition replaceOpWithNewOp (o : NewOp) : M unit := fun r =>
  let v := nextValue r in
  Continue tt (MkRewriter (N.succ v) (created r ++ [(v, o)]) (Some [v])).

(** [operands[i]] on an [ArrayRef]: reading past the end is undefined. *)
Definition operand (operands : list Value) (i : nat) : M Value :=
  match operands !! i with
  | Some v => mret v
  | None => undefined
  end.

(** A [for] loop over a container, body run for its effects. *)
Fixpoint forM_ {A} (l : list A) (body : A -> M unit) : M unit :=
  match l with
  | [] => mret tt
  | a :: l' => _ ← body a; forM_ l' body
  end.

(** The result of a whole [matchAndRewrite]. *)
Definition matchResult (o : Outcome unit) : option (LogicalResult * Rewriter) :=
  match o with
  | Continue _ r => Some (success, r)
  | Failure r => Some (failure, r)
  | Undefined => None
  end.

Definition emptyRewriter (next : N) : Rewriter := MkRewriter next [] None.

(** [createIndexConstant] of the LLVM-lowering base class. *)
Definition createIndexConstant (z : Z) : M Value :=
  create (LLVM_ConstantOp LLVMIndex (Some (getI64IntegerAttr z))).

(** [getPtrToBinaryModule] yields the pointer and the byte count. *)
Definition getPtrToBinaryModule (binary : string) : M (Value * Value) :=
  p ← create (PtrToBinaryModule binary);
  n ← create (BinaryModuleBytes binary);
  mret (p, n).

(** Kernel binaries as the lowering receives them: per binary identifier
    the serialized bytes and the table from entry name to global name. *)
Record BinaryModule := MkBinaryModule
  { serialized : list N;
    kernelsNameMap : gmap string string }.

(** [gpu::LaunchFuncOp] *)
Record KernelDim3 := MkDim3 { x : Value; y : Value; z : Value }.

Record LaunchFuncOp := MkLaunchFuncOp
  { getKernelModuleName : string;
    getKernelName : string;
    getGridSizeOperandValues : KernelDim3;
    getBlockSizeOperandValues : KernelDim3;
    kernelOperands : list (Value * Ty);      (* each with its type *)
    subgroupSizeTag : option Z }.

(** [comp::ScheduleFunc]: result type and the launch in its body. *)
Record ScheduleFunc := MkScheduleFunc
  { getType : Ty;
    getOperands : list Value;      (* execution environment, then events *)
    body : LaunchFuncOp }.

(** The other abstract device operations, as far as [ConvertToFuncCallPattern]
    and [ConvertScheduleReadWrite] look at them. *)
Record CompOp := MkCompOp
  { execEnvRuntime : ExecEnvRuntime;      (* runtime of its execution environment *)
    getResultTypes : list Ty }.

(** A module body: symbol operations in order, before the terminator. *)
Inductive ModuleBodyOp :=
| LLVMFuncOp (sym : string) (ty : LLVMFunctionType)
| FuncOp (sym : string) (ops : list (option ScheduleFunc)).
  (* a function body: [Some op] for a ScheduleFunc, [None] for any other op *)

Abbreviation ModuleOp := (list ModuleBodyOp).

Definition symbolName (o : ModuleBodyOp) : string :=
  match o with LLVMFuncOp s _ => s | FuncOp s _ => s end.

(** [module.lookupSymbol(name)] *)
Definition lookupSymbol (m : ModuleOp) (nm : string) : option ModuleBodyOp :=
  List.find (fun o => bool_decide (symbolName o = nm)) m.

(** [builder.create<LLVM::LLVMFuncOp>(loc, name, type)] with the builder
    placed at the module terminator. *)
Definition createFuncOp (nm : string) (ty : LLVMFunctionType) (m : ModuleOp)
  : ModuleOp :=
  (m ++ [LLVMFuncOp nm ty])%list.

End MLIR.

(* ===================================================================== *)
(** * Driver-A lowering: comp_to_ocl.cc                                   *)
(* ===================================================================== *)

Module CompToOcl.
Import MLIR.

Definition kOclCreate := "oclCreate".
Definition kOclDestroy := "oclDestroy".
Definition kOclAlloc := "oclAlloc".
Definition kOclDealloc := "oclDealloc".
Definition kOclRead := "oclRead".
Definition kOclWrite := "oclWrite".
Definition kOclCreateKernel := "oclCreateKernel".
Definition kOclSetKernelArg := "oclSetKernelArg".
Definition kOclAddKernelDep := "oclAddKernelDep".
Definition kOclScheduleFunc := "oclScheduleFunc".
Definition kOclBarrier := "oclBarrier".
Definition kOclSubmit := "oclSubmit".
Definition kOclWait := "oclWait".

(** The type converter after [populateCompToOclPatterns] added its two
    conversions in front of the standard ones. *)
Definition convertType (t : Ty) : option LLVMType :=
  match t with
  | ExecEnvType r => if decide (r = OpenCL) then Some LLVMInt8Ptr else None
  | EventType r => if decide (r = OpenCL) then Some LLVMInt8Ptr else None
  | _ => convertStandardType t
  end.

(** One [if (!module.lookupSymbol(name)) builder.create<LLVMFuncOp>(...)]. *)
Definition declareIfMissing (nm : string) (ty : LLVMFunctionType) (m : ModuleOp)
  : ModuleOp :=
  match lookupSymbol m nm with
  | Some _ => m
  | None => createFuncOp nm ty m
  end.

(** The declarations in the order the function goes through them. *)
Definition oclDeclarations : list (string * LLVMFunctionType) :=
  [ (kOclCreate, getFunctionTy LLVMInt8Ptr [LLVMInt8Ptr] false);
    (kOclDestroy, getFunctionTy LLVMVoid [LLVMInt8Ptr] false);
    (kOclAlloc, getFunctionTy LLVMInt8Ptr [LLVMInt8Ptr; LLVMIndex] false);
    (kOclDealloc, getFunctionTy LLVMVoid [LLVMInt8Ptr; LLVMInt8Ptr] false);
    (kOclRead, getFunctionTy LLVMInt8Ptr
                 [LLVMInt8Ptr; LLVMInt8Ptr; LLVMInt8Ptr; LLVMIndex] true);
    (kOclWrite, getFunctionTy LLVMInt8Ptr
                  [LLVMInt8Ptr; LLVMInt8Ptr; LLVMInt8Ptr; LLVMIndex] true);
    (kOclCreateKernel, getFunctionTy LLVMInt8Ptr
                         [LLVMInt8Ptr; LLVMInt8Ptr; LLVMInt32; LLVMInt8Ptr] false);
    (kOclSetKernelArg, getFunctionTy LLVMVoid
                         [LLVMInt8Ptr; LLVMIndex; LLVMInt8Ptr] false);
    (kOclAddKernelDep, getFunctionTy LLVMVoid [LLVMInt8Ptr; LLVMInt8Ptr] false);
    (kOclScheduleFunc, getFunctionTy LLVMInt8Ptr
                         [LLVMInt8Ptr; LLVMInt8Ptr; LLVMIndex; LLVMIndex;
                          LLVMIndex; LLVMIndex; LLVMIndex; LLVMIndex] false);
    (kOclBarrier, getFunctionTy LLVMInt8Ptr [LLVMInt8Ptr; LLVMInt32] true);
    (kOclSubmit, getFunctionTy LLVMVoid [LLVMInt8Ptr] false);
    (kOclWait, getFunctionTy LLVMVoid [LLVMInt32] true) ].

(** [addOclFunctionDeclarations] *)
Definition addOclFunctionDeclarations (m : ModuleOp) : ModuleOp :=
  foldl (fun acc d => declareIfMissing d.1 d.2 acc) m oclDeclarations.

(** [ConvertToFuncCallPattern<Op>] and the instances registered by
    [populateCompToOclPatterns]. *)
Module ConvertToFuncCallPattern.

Record t := Make
  { funcName : string; varArg : bool; nonVarArgs : nat }.

(** [isMatchingRuntime] of the base pattern, built with
    [comp::ExecEnvRuntime::OpenCL]. *)
Definition isMatchingRuntime (op : CompOp) : bool :=
  bool_decide (execEnvRuntime op = OpenCL).

Definition matchAndRewrite (p : t) (op : CompOp) (operands : list Value) : M unit :=
  if negb (isMatchingRuntime op) then fail else
  let convertedTypes := convertType <$> getResultTypes op in
  if negb (varArg p) then
    replaceOpWithNewOp (LLVM_CallOp convertedTypes (funcName p) operands)
  else
    (* [operands.begin() + nonVarArgs] must stay inside the array *)
    if decide (nonVarArgs p <= length operands)%nat then
      let newOperands := take (nonVarArgs p) operands in
      varArgsCnt ← create (LLVM_ConstantOp LLVMInt32
                     (Some (getI32IntegerAttr
                              (Z.of_nat (length operands) - Z.of_nat (nonVarArgs p)))));
      let newOperands := (newOperands ++ [varArgsCnt])%list in
      let newOperands := (newOperands ++ drop (nonVarArgs p) operands)%list in
      replaceOpWithNewOp (LLVM_CallOp convertedTypes (funcName p) newOperands)
    else undefined.

Definition ConvertCreateExecEnv := Make kOclCreate false 0.
Definition ConvertDestroyExecEnv := Make kOclDestroy false 0.
Definition ConvertScheduleBarrier := Make kOclBarrier true 1.
Definition ConvertSubmit := Make kOclSubmit false 0.
Definition ConvertWait := Make kOclWait true 0.

End ConvertToFuncCallPattern.

(** [ConvertScheduleReadWrite<Op>], for [comp::ScheduleRead] and
    [comp::ScheduleWrite]. *)
Module ConvertScheduleReadWrite.

Inductive Op := ScheduleRead | ScheduleWrite.

Definition funcName (o : Op) : string :=
  match o with ScheduleRead => kOclRead | ScheduleWrite => kOclWrite end.

Definition nonVarArgs : nat := 3.

Definition matchAndRewrite (o : Op) (resultType : Ty) (operands : list Value)
  : M unit :=
  if decide (nonVarArgs <= length operands)%nat then
    let callOperands := take nonVarArgs operands in
    (* Extract the host memref memory pointer. *)
    op0 ← operand operands 0;
    host ← create (hostMemrefToMem op0);
    let callOperands := <[0%nat := host]> callOperands in
    (* Extract the device memref memory pointer. *)
    op1 ← operand operands 1;
    dev ← create (deviceMemrefToMem op1);
    let callOperands := <[1%nat := dev]> callOperands in
    (* Add event dependencies as variadic operands. *)
    eventsCnt ← createIndexConstant
                  (Z.of_nat (length operands) - Z.of_nat nonVarArgs);
    let callOperands := (callOperands ++ [eventsCnt])%list in
    let callOperands := (callOperands ++ drop nonVarArgs operands)%list in
    let llvmEventType := convertType resultType in
    replaceOpWithNewOp (LLVM_CallOp [llvmEventType] (funcName o) callOperands)
  else undefined.

End ConvertScheduleReadWrite.

(** [ConvertScheduleFunc] of the OpenCL lowering. *)
Module ConvertScheduleFunc.

Definition matchAndRewrite (modulesMap : gmap string BinaryModule) (ir : IR)
           (op : ScheduleFunc) (operands : list Value) : M unit :=
  let launchOp := body op in
  let binaryName := getKernelModuleName launchOp in
  let kernelName := getKernelName launchOp in
  match convertType (getType op) with
  | None => fail
  | Some llvmEventType =>
  let llvmKernelType := LLVMInt8Ptr in
  (* Create kernel from serialized binary. *)
  match modulesMap !! binaryName with
  | None => fail
  | Some binaryModule =>
  match kernelsNameMap binaryModule !! kernelName with
  | None => fail
  | Some globalName =>
  '(binaryPtr, binaryBytes) ← getPtrToBinaryModule binaryName;
  namePtr ← create (getPtrToGlobalString globalName);
  env ← operand operands 0;
  kernel ← create (LLVM_CallOp [Some llvmKernelType] kOclCreateKernel
                               [env; binaryPtr; binaryBytes; namePtr]);
  (* Set kernel arguments. *)
  _ ← forM_ (imap (fun argI a => (argI, a.1)) (kernelOperands launchOp))
        (fun '(argI, kernelOperand) =>
           argIndex ← createIndexConstant (Z.of_nat argI);
           let remappedArg := getRemappedValue ir kernelOperand in
           buffer ← create (deviceMemrefToMem remappedArg);
           _ ← create (LLVM_CallOp [] kOclSetKernelArg [kernel; argIndex; buffer]);
           mret tt);
  (* Set event dependencies. *)
  _ ← forM_ (drop 1 operands)
        (fun event =>
           _ ← create (LLVM_CallOp [] kOclAddKernelDep [kernel; event]);
           mret tt);
  let gridSize := getGridSizeOperandValues launchOp in
  let blockSize := getBlockSizeOperandValues launchOp in
  (* OpenCL takes as global work size number of blocks times block size,
     so multiplications are needed. *)
  globalX ← create (MulIOp (x gridSize) (x blockSize));
  globalY ← create (MulIOp (y gridSize) (y blockSize));
  globalZ ← create (MulIOp (z gridSize) (z blockSize));
  env' ← operand operands 0;
  a2 ← create (indexToInt globalX);
  a3 ← create (indexToInt globalY);
  a4 ← create (indexToInt globalZ);
  a5 ← create (indexToInt (x blockSize));
  a6 ← create (indexToInt (y blockSize));
  a7 ← create (indexToInt (z blockSize));
  replaceOpWithNewOp (LLVM_CallOp [Some llvmEventType] kOclScheduleFunc
                                  [env'; kernel; a2; a3; a4; a5; a6; a7])
  end end end.

End ConvertScheduleFunc.

End CompToOcl.

(* ===================================================================== *)
(** * Driver-B lowering: comp_to_vulkan.cc                                *)
(* ===================================================================== *)

Module CompToVulkan.
Import MLIR.

Definition kVkInit := "vkInit".
Definition kVkDeinit := "vkDeinit".
Definition kVkRun := "vkRun".
Definition kVkCreateLaunchKernelAction := "vkCreateLaunchKernelAction".
Definition kVkSetLaunchKernelAction := "vkSetLaunchKernelAction".
Definition kVkCreateMemoryTransferAction := "vkCreateMemoryTransferAction".
Definition kVkWait := "vkWait".
Definition kVkScheduleFunc := "vkScheduleFunc".
Definition kVkBindBuffer := "vkBindBuffer".

(** The type converter after [populateCompToVkPatterns]: both conversions
    answer for every runtime. *)
Definition convertType (t : Ty) : option LLVMType :=
  match t with
  | ExecEnvType _ => Some LLVMInt8Ptr
  | EventType _ => Some LLVMInt8Ptr
  | _ => convertStandardType t
  end.

(** The declarations in the order the function creates them. *)
Definition vkDeclarations : list (string * LLVMFunctionType) :=
  [ (kVkInit, getFunctionTy LLVMInt8Ptr [LLVMInt8Ptr] false);
    (kVkCreateLaunchKernelAction,
       getFunctionTy LLVMVoid [LLVMInt8Ptr; LLVMInt8Ptr; LLVMInt32; LLVMInt8Ptr;
                               LLVMInt32; LLVMInt32; LLVMInt32] false);
    (kVkSetLaunchKernelAction, getFunctionTy LLVMVoid [LLVMInt8Ptr; LLVMInt32] false);
    (kVkRun, getFunctionTy LLVMVoid [LLVMInt8Ptr] false);
    (kVkScheduleFunc, getFunctionTy LLVMInt8Ptr [LLVMInt8Ptr] false);
    (kVkDeinit, getFunctionTy LLVMVoid [LLVMInt8Ptr] false);
    (kVkWait, getFunctionTy LLVMVoid [LLVMInt32] true);
    (kVkCreateMemoryTransferAction,
       getFunctionTy LLVMVoid [LLVMInt8Ptr; LLVMInt64; LLVMInt64;
                               LLVMInt64; LLVMInt64] false);
    (kVkBindBuffer,
       getFunctionTy LLVMVoid [LLVMInt8Ptr; LLVMInt32; LLVMInt32;
                               LLVMIndex; LLVMInt8Ptr] false) ].

(** [addVkFunctionDeclarations]: every [builder.create<LLVMFuncOp>] is
    unconditional. *)
Definition addVkFunctionDeclarations (m : ModuleOp) : ModuleOp :=
  foldl (fun acc d => createFuncOp d.1 d.2 acc) m vkDeclarations.

(** [ConvertToFuncCallPattern<Op>] and the instances registered by
    [populateCompToVkPatterns]. *)
Module ConvertToFuncCallPattern.

Record t := Make
  { funcName : string; varArg : bool; nonVarArgs : nat }.

(** [isMatchingRuntime] of the base pattern, built with
    [comp::ExecEnvRuntime::Vulkan]. *)
Definition isMatchingRuntime (op : CompOp) : bool :=
  bool_decide (execEnvRuntime op = Vulkan).

Definition matchAndRewrite (p : t) (op : CompOp) (operands : list Value) : M unit :=
  if negb (isMatchingRuntime op) then fail else
  let convertedTypes := convertType <$> getResultTypes op in
  if negb (varArg p) then
    replaceOpWithNewOp (LLVM_CallOp convertedTypes (funcName p) operands)
  else
    (* [operands.begin() + nonVarArgs] must stay inside the array *)
    if decide (nonVarArgs p <= length operands)%nat then
      let newOperands := take (nonVarArgs p) operands in
      varArgsCnt ← create (LLVM_ConstantOp LLVMInt32
                     (Some (getI32IntegerAttr
                              (Z.of_nat (length operands) - Z.of_nat (nonVarArgs p)))));
      let newOperands := (newOperands ++ [varArgsCnt])%list in
      let newOperands := (newOperands ++ drop (nonVarArgs p) operands)%list in
      replaceOpWithNewOp (LLVM_CallOp convertedTypes (funcName p) newOperands)
    else undefined.

Definition ConvertToInitVulkan := Make kVkInit false 0.
Definition ConvertToDeinitVulkan := Make kVkDeinit false 0.
Definition ConvertWait := Make kVkWait true 0.

End ConvertToFuncCallPattern.

(** [ConvertScheduleFunc] of the Vulkan lowering. *)
Module ConvertScheduleFunc.

(** The two objects the constructor allocates and every call of
    [matchAndRewrite] mutates through [pScheduleFuncIndex] and
    [pBufferMap].  A map entry is the two-element vector
    [{step index, binding index}]. *)
Record PatternState := MkPatternState
  { scheduleFuncIndex : Z;                  (* uint32_t *)
    bufferMap : gmap N (Z * Z) }.

Definition initialState : PatternState := MkPatternState 0 ∅.

(** [gSize.x.getDefiningOp()->getAttrOfType<IntegerAttr>("value")] *)
Definition gridConstant (ir : IR) (v : Value) : M (option Attribute) :=
  match getDefiningOp ir v with
  | None => undefined                       (* null [Operation *] dereferenced *)
  | Some o => mret (getAttrOfType_IntegerAttr o "value")
  end.

(** Body of the loop "Bind all buffers to Vulkan LaunchKernelAction". *)
Definition bindBuffer (env descriptorSet : Value)
           (arg : nat * (Value * Ty)) : M unit :=
  let '(bindIndex, (buffer, bufferType)) := arg in
  descriptorBinding ← create (LLVM_ConstantOp LLVMInt32
                                (Some (getI32IntegerAttr (Z.of_nat bindIndex))));
  match bufferType with
  | MemRefType shape elem _ =>
      bufferByteSize ← create (getCumulativeSizeInBytes shape elem);
      bufferPtr ← create (alignedPtr buffer);
      bufferRaw ← create (LLVM_BitcastOp LLVMInt8Ptr bufferPtr);
      _ ← create (LLVM_CallOp [Some LLVMVoid] kVkBindBuffer
                    [env; descriptorSet; descriptorBinding; bufferByteSize; bufferRaw]);
      mret tt
  | _ => fail
  end.

(** Body of [for (auto pair : bufferMap)] for the argument at position [i]. *)
Definition transferFrom (env : Value) (index : Z) (i : nat) (buffer : Value)
           (pair : N * (Z * Z)) : M unit :=
  if decide (pair.1 = buffer) then
    dst_index ← create (LLVM_ConstantOp LLVMInt64 (Some (getI64IntegerAttr index)));
    dst_binding ← create (LLVM_ConstantOp LLVMInt64
                            (Some (getI64IntegerAttr (Z.of_nat i))));
    src_index ← create (LLVM_ConstantOp LLVMInt64
                          (Some (getI64IntegerAttr pair.2.1)));
    src_binding ← create (LLVM_ConstantOp LLVMInt64
                            (Some (getI64IntegerAttr pair.2.2)));
    _ ← create (LLVM_CallOp [Some LLVMVoid] kVkCreateMemoryTransferAction
                  [env; src_index; src_binding; dst_index; dst_binding]);
    mret tt
  else mret tt.

(** The loop "Create Vulkan MemoryTransferAction" from position [i] on. *)
Fixpoint memoryTransfers (env : Value) (index : Z) (i : nat)
         (bufferOperands : list Value) (bufferMap : gmap N (Z * Z))
  : M (gmap N (Z * Z)) :=
  match bufferOperands with
  | [] => mret bufferMap
  | buffer :: rest =>
      _ ← forM_ (map_to_list bufferMap) (transferFrom env index i buffer);
      let second := (index, Z.of_nat i) in
      memoryTransfers env index (S i) rest (<[buffer := second]> bufferMap)
  end.

Definition matchAndRewrite (modulesMap : gmap string BinaryModule)
           (scheduleFuncNum : Z) (ir : IR) (st : PatternState)
           (op : ScheduleFunc) (operands : list Value) : M PatternState :=
  let launchOp := body op in
  let binaryName := getKernelModuleName launchOp in
  let kernelName := getKernelName launchOp in
  (* Create kernel from serialized binary. *)
  match modulesMap !! binaryName with
  | None => fail
  | Some binaryModule =>
  match kernelsNameMap binaryModule !! kernelName with
  | None => fail
  | Some globalName =>
  env ← operand operands 0;
  '(binaryPtr, binaryBytes) ← getPtrToBinaryModule binaryName;
  namePtr ← create (getPtrToGlobalString globalName);
  let gSize := getGridSizeOperandValues launchOp in
  ax ← gridConstant ir (x gSize);
  ay ← gridConstant ir (y gSize);
  az ← gridConstant ir (z gSize);
  gx ← create (LLVM_ConstantOp LLVMInt32 ax);
  gy ← create (LLVM_ConstantOp LLVMInt32 ay);
  gz ← create (LLVM_ConstantOp LLVMInt32 az);
  let createActionOperands := [env; binaryPtr; binaryBytes; namePtr; gx; gy; gz] in
  (* transform mapped vulkan buffer to launch kernel. *)
  let buffers := (fun a : Value * Ty => (getRemappedValue ir a.1, a.2))
                   <$> kernelOperands launchOp in
  let bufferOperands := buffers.*1 in
  descriptorSet ← create (LLVM_ConstantOp LLVMInt32 (Some (getI32IntegerAttr 0)));
  (* Bind all buffers to Vulkan LaunchKernelAction. *)
  _ ← forM_ (imap (fun bindIndex b => (bindIndex, b)) buffers)
        (bindBuffer env descriptorSet);
  _ ← create (LLVM_CallOp [Some LLVMVoid] kVkCreateLaunchKernelAction
                createActionOperands);
  (* Get subgroup size *)
  let subgroupSize := default 1%Z (subgroupSizeTag launchOp) in
  subgroupSizeVal ← create (LLVM_ConstantOp LLVMInt32
                              (Some (getI32IntegerAttr subgroupSize)));
  _ ← create (LLVM_CallOp [Some LLVMVoid] kVkSetLaunchKernelAction
                [env; subgroupSizeVal]);
  (* Create Vulkan MemoryTransferAction *)
  bufferMap' ← memoryTransfers env (scheduleFuncIndex st) 0 bufferOperands
                 (bufferMap st);
  let llvmEventType := convertType (getType op) in
  _ ← replaceOpWithNewOp (LLVM_CallOp [llvmEventType] kVkScheduleFunc [env]);
  _ ← (if decide (scheduleFuncIndex st = wrap32 (scheduleFuncNum - 1))
       then _ ← create (LLVM_CallOp [Some LLVMVoid] kVkRun [env]); mret tt
       else mret tt);
  mret (MkPatternState (wrap32 (scheduleFuncIndex st + 1)) bufferMap')
  end end.

(** What the pattern leaves behind when it is run on a fresh rewriter:
    the [LogicalResult], the rewriter, and the pattern's own state, which
    a failed match has not touched. *)
Definition apply (modulesMap : gmap string BinaryModule) (scheduleFuncNum : Z)
           (ir : IR) (st : PatternState) (op : ScheduleFunc) (next : N)
  : option (LogicalResult * Rewriter * PatternState) :=
  match matchAndRewrite modulesMap scheduleFuncNum ir st op
          (getRemappedValue ir <$> getOperands op) (emptyRewriter next) with
  | Continue st' r => Some (success, r, st')
  | Failure r => Some (failure, r, st)
  | Undefined => None
  end.

End ConvertScheduleFunc.

(** [ConvertCompToVulkanCall::runOnOperation]: the pre-pass
    [module.walk([&](comp::ScheduleFunc op) { scheduleFuncNum++; })]. *)
Definition walkScheduleFuncs (m : ModuleOp) : list ScheduleFunc :=
  m ≫= (fun o => match o with
                 | FuncOp _ ops => omap id ops
                 | LLVMFuncOp _ _ => []
                 end).

Definition countScheduleFuncs (m : ModuleOp) : Z :=
  foldl (fun scheduleFuncNum _ => wrap32 (scheduleFuncNum + 1)) 0%Z
        (walkScheduleFuncs m).

(** The conversion itself, as far as kernel launches go: the pattern
    object is built once and applied to the launches one after the other
    in module order; the first failed match stops the conversion.  The
    result lists, per lowered launch, the operations created for it. *)
Fixpoint convertScheduleFuncs (modulesMap : gmap string BinaryModule)
         (scheduleFuncNum : Z) (ir : IR)
         (st : ConvertScheduleFunc.PatternState) (next : N)
         (ops : list ScheduleFunc)
  : option (LogicalResult * list (list (Value * NewOp))) :=
  match ops with
  | [] => Some (success, [])
  | op :: rest =>
      match ConvertScheduleFunc.apply modulesMap scheduleFuncNum ir st op next with
      | None => None
      | Some (failure, _, _) => Some (failure, [])
      | Some (success, r, st') =>
          match convertScheduleFuncs modulesMap scheduleFuncNum ir st'
                                     (nextValue r) rest with
          | None => None
          | Some (res, outs) => Some (res, created r :: outs)
          end
      end
  end.

Definition runOnOperation (modulesMap : gmap string BinaryModule) (ir : IR)
           (m : ModuleOp) : option (LogicalResult * list (list (Value * NewOp))) :=
  let scheduleFuncNum := countScheduleFuncs m in
  convertScheduleFuncs modulesMap scheduleFuncNum ir
    ConvertScheduleFunc.initialState 0 (walkScheduleFuncs m).

End CompToVulkan.

(* ===================================================================== *)
(** * Front-end registration: reduce_mean.cpp                             *)
(* ===================================================================== *)

Module ReduceMean.

(** Tensors of the front end are named; [op::mean] and the tuples of the
    embedded DSL are kept as the expressions they build. *)
Inductive Tensor := TensorRef (id : N).

Inductive Expr :=
| mean (input : Tensor) (axes : list N) (keep_dims : bool).

(** The layer behind [ctx.layer]; [ngraph::as_type<ReduceMean>] answers
    with the node only for a reduce-mean layer. *)
Inductive Node :=
| ReduceMeanNode (get_keep_dims : bool)
| OtherNode.

Record Context := MkContext
  { operands : list Tensor; layer : Node }.

Inductive Result :=
| Returned (tuple : list Expr)
| AssertionFailed                (* IE_ASSERT throws *)
| NullDereference.               (* [layer->...] on a null [as_type] result *)

(** The function registered under the name "reducemean". *)
Definition reducemean (ctx : Context) : Result :=
  if negb (bool_decide (length (operands ctx) = 2%nat)) then AssertionFailed else
  match operands ctx !! 0%nat with
  | None => AssertionFailed        (* [at(0)] throws; not reached *)
  | Some input =>
      let axes := [1%N; 2%N] in
      match layer ctx with
      | ReduceMeanNode keep_dims => Returned [mean input axes keep_dims]
      | OtherNode => NullDereference
      end
  end.

End ReduceMean.

(* ===================================================================== *)
(** * Reading lowered code                                                *)
(* ===================================================================== *)

Module Observe.
Import MLIR.

(** How many operations of a module carry the symbol name [nm]. *)
Definition symbolCount (m : ModuleOp) (nm : string) : nat :=
  length (filter (fun o => symbolName o = nm) m).

(** The native functions called by a run of created operations, in order. *)
Definition calleeOf (p : Value * NewOp) : option string :=
  match p.2 with
  | LLVM_CallOp _ callee _ => Some callee
  | _ => None
  end.

Definition callees (l : list (Value * NewOp)) : list string := omap calleeOf l.

(** The operation that defines value [v] among the created ones. *)
Fixpoint definition (l : list (Value * NewOp)) (v : Value) : option NewOp :=
  match l with
  | [] => None
  | (v', o) :: l' => if decide (v' = v) then Some o else definition l' v
  end.

(** The integer a value is a constant for. *)
Definition constantOf (l : list (Value * NewOp)) (v : Value) : option Z :=
  match definition l v with
  | Some (LLVM_ConstantOp _ (Some (IntegerAttr _ n))) => Some n
  | _ => None
  end.

(** A memory transfer wires (source step, source binding) to
    (destination step, destination binding). *)
Definition Wiring : Type := (Z * Z) * (Z * Z).

(** The wiring a call of [vkCreateMemoryTransferAction] asks for: its
    arguments are (environment, source step, source binding, destination
    step, destination binding), each a constant. *)
Definition wiringOf (callee : string) (l : list (Value * NewOp))
           (p : Value * NewOp) : option Wiring :=
  match p.2 with
  | LLVM_CallOp _ c [_; si; sb; di; db] =>
      if decide (c = callee) then
        a ← constantOf l si; b ← constantOf l sb;
        c ← constantOf l di; d ← constantOf l db;
        Some ((a, b), (c, d))
      else None
  | _ => None
  end.

Definition transferWirings (l : list (Value * NewOp)) : list Wiring :=
  omap (wiringOf "vkCreateMemoryTransferAction" l) l.

(** ** The buffer-producer bookkeeping as the design document words it

    Before the step: one transfer for every argument buffer that is in the
    map, from the recorded producer to (this step, argument position). *)
Definition transfers_as_stated (bufferMap : gmap N (Z * Z)) (step : Z)
           (buffers : list Value) : list Wiring :=
  omap (fun '(i, b) => (fun src => (src, (step, Z.of_nat i))) <$> bufferMap !! b)
       (imap (fun i b => (i, b)) buffers).

(** After the step: every buffer it touches is recorded with (this step,
    argument position). *)
Definition producers_as_stated (bufferMap : gmap N (Z * Z)) (step : Z)
           (buffers : list Value) : gmap N (Z * Z) :=
  foldl (fun m '(i, b) => <[b := (step, Z.of_nat i)]> m) bufferMap
        (imap (fun i b => (i, b)) buffers).

(** The same record-keeping for the arguments from position [i] on. *)
Definition producers_from (bufferMap : gmap N (Z * Z)) (step : Z) (i : nat)
           (buffers : list Value) : gmap N (Z * Z) :=
  foldl (fun m '(j, b) => <[b := (step, Z.of_nat j)]> m) bufferMap
        (imap (fun j b => ((i + j)%nat, b)) buffers).

(** What the loop does instead: lookup and update alternate, argument by
    argument, so a later argument sees what an earlier one recorded. *)
Fixpoint transfers_interleaved (bufferMap : gmap N (Z * Z)) (step : Z) (i : nat)
         (buffers : list Value) : list Wiring :=
  match buffers with
  | [] => []
  | b :: rest =>
      match bufferMap !! b with
      | Some src => [(src, (step, Z.of_nat i))]
      | None => []
      end ++ transfers_interleaved (<[b := (step, Z.of_nat i)]> bufferMap)
                                   step (S i) rest
  end.

(** The constants a wiring becomes: 64-bit integer attributes. *)
Definition asI64 (w : Wiring) : Wiring :=
  ((wrap_signed 64 w.1.1, wrap_signed 64 w.1.2),
   (wrap_signed 64 w.2.1, wrap_signed 64 w.2.2)).

(** The operations that ask for one transfer, numbered from [v]: the four
    constants and the call. *)
Definition transferGroup (env : Value) (w : Wiring) (v : Value)
  : list (Value * NewOp) :=
  let v1 := N.succ v in
  let v2 := N.succ v1 in
  let v3 := N.succ v2 in
  let v4 := N.succ v3 in
  [ (v, LLVM_ConstantOp LLVMInt64 (Some (getI64IntegerAttr w.2.1)));
    (v1, LLVM_ConstantOp LLVMInt64 (Some (getI64IntegerAttr w.2.2)));
    (v2, LLVM_ConstantOp LLVMInt64 (Some (getI64IntegerAttr w.1.1)));
    (v3, LLVM_ConstantOp LLVMInt64 (Some (getI64IntegerAttr w.1.2)));
    (v4, LLVM_CallOp [Some LLVMVoid] "vkCreateMemoryTransferAction"
           [env; v2; v3; v; v1]) ].

Fixpoint emitTransfers (env : Value) (ws : list Wiring) (v : Value)
  : list (Value * NewOp) :=
  match ws with
  | [] => []
  | w :: ws' =>
      transferGroup env w v
      ++ emitTransfers env ws' (N.succ (N.succ (N.succ (N.succ (N.succ v)))))
  end.

(** The buffers a launch binds, after remapping, in argument order. *)
Definition bufferOperands (ir : IR) (op : ScheduleFunc) : list Value :=
  ((fun a : Value * Ty => (getRemappedValue ir a.1, a.2))
     <$> kernelOperands (body op)).*1.

(** Every created operation is numbered below the rewriter's next number. *)
Definition ids_below (v : Value) (l : list (Value * NewOp)) : Prop :=
  Forall (fun p => (p.1 < v)%N) l.

(** [r'] continues [r] with the operations [new], numbered from the next
    number of [r] up to that of [r'], and what the matched operation was
    replaced by stays. *)
Definition continues (r r' : Rewriter) (new : list (Value * NewOp)) : Prop :=
  created r' = created r ++ new /\
  replacedBy r' = replacedBy r /\
  (nextValue r <= nextValue r')%N /\
  ids_below (nextValue r') new.

(** Every transfer call comes before the call that creates the
    launch-kernel action. *)
Definition transfers_precede_launch (cs : list string) : Prop :=
  forall i j,
    cs !! i = Some "vkCreateMemoryTransferAction" ->
    cs !! j = Some "vkCreateLaunchKernelAction" ->
    (i < j)%nat.

(** What a run of the pattern or of the pass produced, for runs that go
    through. *)
Definition createdBy (o : option (LogicalResult * Rewriter *
                                  CompToVulkan.ConvertScheduleFunc.PatternState))
  : list (Value * NewOp) :=
  match o with Some (_, r, _) => created r | None => [] end.

Definition rewriterOf (o : option (LogicalResult * Rewriter *
                                   CompToVulkan.ConvertScheduleFunc.PatternState))
  : Rewriter :=
  match o with Some (_, r, _) => r | None => emptyRewriter 0 end.

Definition stateAfter (o : option (LogicalResult * Rewriter *
                                   CompToVulkan.ConvertScheduleFunc.PatternState))
  : CompToVulkan.ConvertScheduleFunc.PatternState :=
  match o with
  | Some (_, _, st) => st
  | None => CompToVulkan.ConvertScheduleFunc.initialState
  end.

(** The kernel launches of a module, read off its structure: the launch
    operations of each function body in order, function after function. *)
Fixpoint launchesIn (ops : list (option ScheduleFunc)) : list ScheduleFunc :=
  match ops with
  | [] => []
  | Some op :: rest => op :: launchesIn rest
  | None :: rest => launchesIn rest
  end.

Fixpoint launchOps (m : ModuleOp) : list ScheduleFunc :=
  match m with
  | [] => []
  | FuncOp _ ops :: rest => launchesIn ops ++ launchOps rest
  | LLVMFuncOp _ _ :: rest => launchOps rest
  end.

(** Whether the operations created for a launch call [vkRun]. *)
Definition callsRun (out : list (Value * NewOp)) : bool :=
  bool_decide (CompToVulkan.kVkRun ∈ callees out).

Definition outputsOf (o : option (LogicalResult * list (list (Value * NewOp))))
  : list (list (Value * NewOp)) :=
  match o with Some (_, outs) => outs | None => [] end.

Definition resultOf (o : option (LogicalResult * Rewriter *
                                 CompToVulkan.ConvertScheduleFunc.PatternState))
  : option LogicalResult :=
  match o with Some (res, _, _) => Some res | None => None end.

(** The buffer bookkeeping of one lowered launch as the design document
    words it: the transfers are those of the buffers the map held before
    the step, they are created before the launch-kernel action, and the
    map then records this step for every buffer. *)
Definition bookkeeping_as_stated
           (st : CompToVulkan.ConvertScheduleFunc.PatternState)
           (buffers : list Value)
           (out : option (LogicalResult * Rewriter *
                          CompToVulkan.ConvertScheduleFunc.PatternState)) : Prop :=
  forall r st', out = Some (success, r, st') ->
    transferWirings (created r)
    = transfers_as_stated (CompToVulkan.ConvertScheduleFunc.bufferMap st)
        (CompToVulkan.ConvertScheduleFunc.scheduleFuncIndex st) buffers /\
    transfers_precede_launch (callees (created r)) /\
    CompToVulkan.ConvertScheduleFunc.bufferMap st'
    = producers_as_stated (CompToVulkan.ConvertScheduleFunc.bufferMap st)
        (CompToVulkan.ConvertScheduleFunc.scheduleFuncIndex st) buffers.

(** Position of the first occurrence of a name in a list of callees. *)
Fixpoint firstIndex (nm : string) (l : list string) : option nat :=
  match l with
  | [] => None
  | c :: l' => if decide (c = nm) then Some 0%nat else S <$> firstIndex nm l'
  end.

End Observe.

(* ===================================================================== *)
(** * A small compilation unit to run the lowering on                     *)
(* ===================================================================== *)

Module Scenario.
Import MLIR CompToVulkan.ConvertScheduleFunc.

(** One kernel binary with one entry point. *)
Definition modulesMap : gmap string BinaryModule :=
  {[ "kernels" := MkBinaryModule [7%N] {[ "main" := "main_kernel" ]} ]}.

(** Value 50 is defined by a constant, value 60 by an addition; value 70
    has no defining operation (a block argument). *)
Definition ir : IR :=
  MkIR {[ 50%N := MkOperation "std.constant" [("value", IntegerAttr 64 8)];
          60%N := MkOperation "std.addi" [] ]} ∅.

Definition constantGrid : KernelDim3 := MkDim3 50 50 50.
Definition memref : Ty := MemRefType [16%Z] F32 0.

Definition launch (grid : KernelDim3) (args : list (Value * Ty)) : ScheduleFunc :=
  MkScheduleFunc (EventType Vulkan) [1%N]
                 (MkLaunchFuncOp "kernels" "main" grid constantGrid args None).

(** Three launches: the second reads buffer 21, which the first wrote. *)
Definition launch1 : ScheduleFunc := launch constantGrid [(20%N, memref); (21%N, memref)].
Definition launch2 : ScheduleFunc := launch constantGrid [(21%N, memref); (22%N, memref)].
Definition launch3 : ScheduleFunc := launch constantGrid [(23%N, memref)].

(** A launch that binds the same buffer at two argument positions. *)
Definition launchTwice : ScheduleFunc :=
  launch constantGrid [(20%N, memref); (20%N, memref)].

(** Launches whose first grid size is not a constant. *)
Definition launchComputedGrid : ScheduleFunc :=
  launch (MkDim3 60 50 50) [(20%N, memref)].
Definition launchArgumentGrid : ScheduleFunc :=
  launch (MkDim3 70 50 50) [(20%N, memref)].

End Scenario.

(* ===================================================================== *)
(** * Reading the driver log                                              *)
(* ===================================================================== *)

Module LevelZeroLog.
Import LevelZero.

(** The handles the event pool handed out, in order. *)
Definition createdEvents (l : list DriverCall) : list handle :=
  omap (fun c => match c with create_event h => Some h | _ => None end) l.

(** The handles given back to the event pool, in order. *)
Definition destroyedEvents (l : list DriverCall) : list handle :=
  omap (fun c => match c with destroy_event h => Some h | _ => None end) l.

(** The kind of event an interface call returns, if it returns one. *)
Definition eventKind (c : Call) : option LevelZeroActionKind :=
  match c with
  | CallEnqueueRead _ _ _ => Some Read
  | CallEnqueueWrite _ _ _ => Some Write
  | CallEnqueueKernel _ _ _ => Some Kernel
  | CallEnqueueBarrier _ => Some Barrier
  | _ => None
  end.

(** The driver calls that the [i]-th call of a client issued: what the
    log holds after that call beyond what it held before it. *)
Definition issuedBy (cs : list Call) (i : nat) : list DriverCall :=
  drop (length (calls (finalState (take i cs) create)))
       (calls (finalState (take (S i) cs) create)).

(** How many times the driver log executes the command list. *)
Definition submissions (l : list DriverCall) : nat :=
  length (omap (fun c => match c with
                         | execute_command_lists => Some tt
                         | _ => None
                         end) l).

(** How many times a client calls [flush]. *)
Definition flushes (cs : list Call) : nat :=
  length (omap (fun c => match c with CallFlush => Some tt | _ => None end) cs).

End LevelZeroLog.

(* ===================================================================== *)
(** * What a launch must satisfy to be lowered by driver B                *)
(* ===================================================================== *)

Module LaunchChecks.
Import MLIR Observe.

Definition isMemRefType (t : Ty) : bool :=
  match t with MemRefType _ _ _ => true | _ => false end.

(** Every kernel operand of the launch has a memref type. *)
Definition allMemRefs (op : ScheduleFunc) : bool :=
  forallb (fun a : Value * Ty => isMemRefType a.2) (kernelOperands (body op)).

(** Each of the three grid sizes is the result of some operation. *)
Definition gridDefined (ir : IR) (op : ScheduleFunc) : bool :=
  let g := getGridSizeOperandValues (body op) in
  bool_decide (is_Some (getDefiningOp ir (x g))) &&
  bool_decide (is_Some (getDefiningOp ir (y g))) &&
  bool_decide (is_Some (getDefiningOp ir (z g))).

(** The global name of the kernel the launch refers to, if the modules
    map has the binary and the binary has the entry. *)
Definition kernelEntry (modulesMap : gmap string BinaryModule) (op : ScheduleFunc)
  : option string :=
  binaryModule ← modulesMap !! getKernelModuleName (body op);
  kernelsNameMap binaryModule !! getKernelName (body op).

(** The (descriptor set, binding) pairs of the [vkBindBuffer] calls, in
    order: the second and third arguments, each a constant. *)
Definition bindingOf (l : list (Value * NewOp)) (p : Value * NewOp)
  : option (Z * Z) :=
  match p.2 with
  | LLVM_CallOp _ c [_; set; binding; _; _] =>
      if decide (c = "vkBindBuffer") then
        a ← constantOf l set; b ← constantOf l binding; Some (a, b)
      else None
  | _ => None
  end.

Definition bindings (l : list (Value * NewOp)) : list (Z * Z) :=
  omap (bindingOf l) l.

(** The operations that bind one buffer, numbered from [v]. *)
Definition bindGroup (env descriptorSet : Value) (arg : nat * (Value * Ty))
           (v : Value) : list (Value * NewOp) :=
  match arg.2.2 with
  | MemRefType shape elem _ =>
      let v1 := N.succ v in
      let v2 := N.succ v1 in
      let v3 := N.succ v2 in
      let v4 := N.succ v3 in
      [ (v, LLVM_ConstantOp LLVMInt32
              (Some (getI32IntegerAttr (Z.of_nat arg.1))));
        (v1, getCumulativeSizeInBytes shape elem);
        (v2, alignedPtr arg.2.1);
        (v3, LLVM_BitcastOp LLVMInt8Ptr v2);
        (v4, LLVM_CallOp [Some LLVMVoid] "vkBindBuffer"
               [env; descriptorSet; v; v1; v3]) ]
  | _ => []
  end.

Fixpoint bindGroups (env descriptorSet : Value) (l : list (nat * (Value * Ty)))
         (v : Value) : list (Value * NewOp) :=
  match l with
  | [] => []
  | arg :: l' =>
      bindGroup env descriptorSet arg v
      ++ bindGroups env descriptorSet l'
           (N.succ (N.succ (N.succ (N.succ (N.succ v)))))
  end.

(** The position of the last occurrence of [b] in [l]. *)
Fixpoint lastPosition (b : Value) (i : nat) (l : list Value) : option nat :=
  match l with
  | [] => None
  | c :: l' =>
      match lastPosition b (S i) l' with
      | Some j => Some j
      | None => if decide (c = b) then Some i else None
      end
  end.

End LaunchChecks.

(* ===================================================================== *)
(** * Properties of the invocation runtime                                *)
(* ===================================================================== *)

Section LevelZeroFacts.
Import LevelZero.

Lemma released_app l1 l2 : released (l1 ++ l2) = released l1 ++ released l2.
Proof. unfold released. apply omap_app. Qed.

Lemma foldl_issue_calls {A} (f : A -> DriverCall) (l : list A) s :
  calls (foldl (fun acc a => issue (f a) acc) s l) = calls s ++ (f <$> l).
Proof.
  revert s. induction l as [|a l IH]; intros s; simpl.
  - by rewrite app_nil_r.
  - rewrite IH. simpl. by rewrite <- app_assoc.
Qed.

Lemma foldl_issue_frame {A} (f : A -> DriverCall) (l : list A) s :
  let s' := foldl (fun acc a => issue (f a) acc) s l in
  memories s' = memories s /\ events s' = events s /\
  memoryObjects s' = memoryObjects s /\ kernelObjects s' = kernelObjects s /\
  fresh s' = fresh s.
Proof.
  revert s. induction l as [|a l IH]; intros s; simpl; [done|].
  destruct (IH (issue (f a) s)) as (?&?&?&?&?). simpl in *. done.
Qed.

(** ** What each interface function does, field by field *)

Lemma enqueueRead_inv src dst deps s e s' :
  enqueueRead src dst deps s = Some (e, s') ->
  exists ds m, getEvents s deps = Some ds /\ memoryObjects s !! src = Some m /\
    e = length (events s) /\
    s' = MkInvocation (memories s) (events s ++ [MkEvent (fresh s) Read "read"])
           (memoryObjects s) (kernelObjects s) (N.succ (fresh s))
           (calls s ++ [create_event (fresh s);
                        append_memory_copy dst (buffer m) (bytes m) (fresh s) ds]).
Proof.
  unfold enqueueRead. destruct (getEvents s deps) as [ds|]; [simpl|done].
  destruct (memoryObjects s !! src) as [m|]; [simpl|done].
  intros [= <- <-]. exists ds, m. repeat split; try done.
  unfold wrapEvent, set_events, issue; simpl. by rewrite <- app_assoc.
Qed.

Lemma enqueueWrite_inv dst src deps s e s' :
  enqueueWrite dst src deps s = Some (e, s') ->
  exists ds m, getEvents s deps = Some ds /\ memoryObjects s !! dst = Some m /\
    e = length (events s) /\
    s' = MkInvocation (memories s) (events s ++ [MkEvent (fresh s) Write "write"])
           (memoryObjects s) (kernelObjects s) (N.succ (fresh s))
           (calls s ++ [create_event (fresh s);
                        append_memory_copy (buffer m) src (bytes m) (fresh s) ds]).
Proof.
  unfold enqueueWrite. destruct (getEvents s deps) as [ds|]; [simpl|done].
  destruct (memoryObjects s !! dst) as [m|]; [simpl|done].
  intros [= <- <-]. exists ds, m. repeat split; try done.
  unfold wrapEvent, set_events, issue; simpl. by rewrite <- app_assoc.
Qed.

Lemma enqueueBarrier_inv deps s e s' :
  enqueueBarrier deps s = Some (e, s') ->
  exists ds, getEvents s deps = Some ds /\ e = length (events s) /\
    s' = MkInvocation (memories s) (events s ++ [MkEvent (fresh s) Barrier "barrier"])
           (memoryObjects s) (kernelObjects s) (N.succ (fresh s))
           (calls s ++ [create_event (fresh s); append_barrier (fresh s) ds]).
Proof.
  unfold enqueueBarrier; simpl.
  change (getEvents (issue (create_event (fresh s)) (bump s)) deps)
    with (getEvents s deps).
  destruct (getEvents s deps) as [ds|]; [simpl|done].
  intros [= <- <-]. exists ds. repeat split; try done.
  unfold wrapEvent, set_events, issue; simpl. by rewrite <- app_assoc.
Qed.

Lemma enqueueKernel_inv k gws lws s e s' :
  enqueueKernel k gws lws s = Some (e, s') ->
  exists kr, kernelObjects s !! k = Some kr /\ e = length (events s) /\
    s' = MkInvocation (memories s)
           (events s ++ [MkEvent (fresh s) Kernel (name kr)])
           (memoryObjects s)
           (<[k := MkKernel (module kr) (name kr) (kernel kr) []]> (kernelObjects s))
           (N.succ (fresh s))
           (calls s ++ [set_group_size (kernel kr) (groupCountX lws)
                          (groupCountY lws) (groupCountZ lws);
                        create_event (fresh s);
                        append_launch_function (kernel kr) gws (fresh s)
                          (dependencies kr)]).
Proof.
  unfold enqueueKernel, LevelZeroKernel_enqueue; simpl.
  destruct (kernelObjects s !! k) as [kr|] eqn:Hk; [simpl|done].
  rewrite ?Hk; simpl.
  intros [= <- <-]. exists kr. repeat split; try done.
  unfold wrapEvent, set_events, set_kernelObjects, issue; simpl.
  by rewrite <- !app_assoc.
Qed.

Lemma addDependency_inv k ev s s' :
  addDependency k ev s = Some s' ->
  exists kr e, kernelObjects s !! k = Some kr /\ events s !! ev = Some e /\
    s' = set_kernelObjects
           (<[k := MkKernel (module kr) (name kr) (kernel kr)
                            (dependencies kr ++ [event e])]> (kernelObjects s)) s.
Proof.
  unfold addDependency.
  destruct (kernelObjects s !! k) as [kr|]; [simpl|done].
  destruct (events s !! ev) as [e|]; [simpl|done].
  intros [= <-]. by exists kr, e.
Qed.

Lemma setArg_inv k idx memory s s' :
  setArg k idx memory s = Some s' ->
  exists kr m,
    s' = issue (set_argument_value (kernel kr) (idx mod 2 ^ 32)%N (buffer m)) s.
Proof.
  unfold setArg.
  destruct (kernelObjects s !! k) as [kr|]; [simpl|done].
  destruct (memoryObjects s !! memory) as [m|]; [simpl|done].
  intros [= <-]. by exists kr, m.
Qed.

Lemma wait_inv evs s s' :
  wait evs s = Some s' ->
  exists hs, s' = foldl (fun acc h => issue (zeEventHostSynchronize h) acc) s hs.
Proof.
  unfold wait. destruct (getEvents s evs) as [hs|]; [simpl|done].
  intros [= <-]. by exists hs.
Qed.

(** Opens one [step] into the facts above. *)
Ltac open_step H :=
  match type of H with
  | step ?c ?s = Some _ =>
      destruct c; simpl in H;
      repeat match type of H with
        | context [enqueueRead ?a ?b ?d ?s] =>
            let E := fresh "E" in
            destruct (enqueueRead a b d s) as [[? ?]|] eqn:E; simpl in H; [|done];
            apply enqueueRead_inv in E; destruct E as (?&?&?&?&?&?)
        | context [enqueueWrite ?a ?b ?d ?s] =>
            let E := fresh "E" in
            destruct (enqueueWrite a b d s) as [[? ?]|] eqn:E; simpl in H; [|done];
            apply enqueueWrite_inv in E; destruct E as (?&?&?&?&?&?)
        | context [enqueueKernel ?a ?b ?d ?s] =>
            let E := fresh "E" in
            destruct (enqueueKernel a b d s) as [[? ?]|] eqn:E; simpl in H; [|done];
            apply enqueueKernel_inv in E; destruct E as (?&?&?&?)
        | context [enqueueBarrier ?d ?s] =>
            let E := fresh "E" in
            destruct (enqueueBarrier d s) as [[? ?]|] eqn:E; simpl in H; [|done];
            apply enqueueBarrier_inv in E; destruct E as (?&?&?&?)
        | context [addDependency ?a ?b ?s] =>
            let E := fresh "E" in
            destruct (addDependency a b s) as [?|] eqn:E; simpl in H; [|done];
            apply addDependency_inv in E; destruct E as (?&?&?&?&?)
        | context [setArg ?a ?b ?d ?s] =>
            let E := fresh "E" in
            destruct (setArg a b d s) as [?|] eqn:E; simpl in H; [|done];
            apply setArg_inv in E; destruct E as (?&?&?)
        | context [wait ?d ?s] =>
            let E := fresh "E" in
            destruct (wait d s) as [?|] eqn:E; simpl in H; [|done];
            apply wait_inv in E; destruct E as (?&?)
        end;
      injection H as ? ?; subst
  end.

(** What a single call does to the driver log: it only adds calls, and
    none of them releases a memory object. *)
Lemma step_calls c s r s' :
  step c s = Some (r, s') ->
  exists new, calls s' = calls s ++ new /\ released new = [].
Proof.
  intros Hstep. open_step Hstep; simpl.
  all: try (eexists; split; [by rewrite <- ?app_assoc | done]).
  - exists []. by rewrite app_nil_r.
  - exists []. by rewrite app_nil_r.
  - rewrite foldl_issue_calls. eexists; split; [done|].
    unfold released.
    match goal with |- omap _ (_ <$> ?l) = [] => induction l; simpl; auto end.
Qed.

Lemma step_memories c s r s' :
  step c s = Some (r, s') -> memories s' = memories s ++ deallocated [c].
Proof.
  intros Hstep. open_step Hstep; simpl; rewrite ?app_nil_r; try done.
  by destruct (foldl_issue_frame zeEventHostSynchronize x s) as (?&?&?&?&?).
Qed.

Lemma step_events c s r s' :
  step c s = Some (r, s') -> exists new, events s' = events s ++ new.
Proof.
  intros Hstep. open_step Hstep; simpl; try (by eexists);
    try (exists []; by rewrite app_nil_r).
  exists []. rewrite app_nil_r.
  by destruct (foldl_issue_frame zeEventHostSynchronize x s) as (?&?&?&?&?).
Qed.

Lemma step_below_fresh c s r s' :
  below_fresh s -> step c s = Some (r, s') -> below_fresh s'.
Proof.
  intros [Hm Hk] Hstep. open_step Hstep.
  all: try match goal with
       | |- context [foldl _ ?s ?x] =>
           destruct (foldl_issue_frame zeEventHostSynchronize x s)
             as (_&_&E3&E4&E5);
           unfold below_fresh; rewrite E3, E4, E5
       end.
  all: split; simpl; intros p Hp; try (by auto);
    try (specialize (Hm p Hp); lia); try (specialize (Hk p Hp); lia).
  - apply lookup_insert_is_Some in Hp as [<-|[_ Hp]]; [lia|].
    specialize (Hm p Hp); lia.
  - apply lookup_insert_is_Some in Hp as [<-|[_ Hp]]; [lia|].
    specialize (Hk p Hp); lia.
  - apply lookup_insert_is_Some in Hp as [<-|[_ Hp]]; [|by auto].
    apply Hk. by eexists.
  - apply lookup_insert_is_Some in Hp as [<-|[_ Hp]].
    + assert (k < fresh s)%N by (apply Hk; by eexists). lia.
    + specialize (Hk p Hp); lia.
Qed.

(** No interface call takes a memory object off the heap. *)
Lemma step_memoryObjects c s r s' p m :
  below_fresh s -> step c s = Some (r, s') ->
  memoryObjects s !! p = Some m -> memoryObjects s' !! p = Some m.
Proof.
  intros [Hm _] Hstep Hp. open_step Hstep; simpl; try done.
  - rewrite lookup_insert_ne; [done|].
    intros <-. assert (N.succ (fresh s) < fresh s)%N by (apply Hm; by eexists). lia.
  - by destruct (foldl_issue_frame zeEventHostSynchronize x s) as (?&?&->&?&?).
Qed.

(** [allocateMemory] returns a live object. *)
Lemma step_allocate n s r s' :
  step (CallAllocateMemory n) s = Some (r, s') ->
  exists p, r = RetMemory p /\ is_Some (memoryObjects s' !! p).
Proof.
  simpl. intros [= <- <-]. eexists; split; [done|]. simpl.
  rewrite lookup_insert_eq. by eexists.
Qed.

(** ** Whole runs *)

Lemma run_cons_inv c cs s rs s' :
  run (c :: cs) s = Some (rs, s') ->
  exists r s1 rs', step c s = Some (r, s1) /\ run cs s1 = Some (rs', s') /\
                   rs = r :: rs'.
Proof.
  simpl. destruct (step c s) as [[r s1]|]; [simpl|done].
  destruct (run cs s1) as [[rs' s2]|] eqn:Hr; [simpl|done].
  intros [= <- <-]. exists r, s1, rs'. by repeat split.
Qed.

Lemma run_app_inv cs1 cs2 s rs s' :
  run (cs1 ++ cs2) s = Some (rs, s') ->
  exists rs1 s1 rs2, run cs1 s = Some (rs1, s1) /\ run cs2 s1 = Some (rs2, s') /\
                     rs = rs1 ++ rs2.
Proof.
  revert s rs. induction cs1 as [|c cs1 IH]; intros s rs H.
  - exists [], s, rs. by simpl.
  - apply run_cons_inv in H as (r & s1 & rs' & Hs & Hr & ->).
    apply IH in Hr as (rs1 & s2 & rs2 & H1 & H2 & ->).
    exists (r :: rs1), s2, rs2. simpl. rewrite Hs; simpl. rewrite H1; simpl. done.
Qed.

Lemma run_length cs s rs s' : run cs s = Some (rs, s') -> length rs = length cs.
Proof.
  revert s rs. induction cs as [|c cs IH]; intros s rs H.
  - by injection H as <- _.
  - apply run_cons_inv in H as (r & s1 & rs' & _ & Hr & ->). simpl. eauto.
Qed.

Lemma run_below_fresh cs s rs s' :
  below_fresh s -> run cs s = Some (rs, s') -> below_fresh s'.
Proof.
  revert s rs. induction cs as [|c cs IH]; intros s rs Hb H.
  - by injection H as _ <-.
  - apply run_cons_inv in H as (r & s1 & rs' & Hs & Hr & ->).
    eapply IH; [|done]. by eapply step_below_fresh.
Qed.

Lemma run_calls cs s rs s' :
  run cs s = Some (rs, s') ->
  exists new, calls s' = calls s ++ new /\ released new = [].
Proof.
  revert s rs. induction cs as [|c cs IH]; intros s rs H.
  - injection H as _ <-. exists []. by rewrite app_nil_r.
  - apply run_cons_inv in H as (r & s1 & rs' & Hs & Hr & ->).
    apply step_calls in Hs as (n1 & E1 & Hn1).
    apply IH in Hr as (n2 & E2 & Hn2).
    exists (n1 ++ n2). rewrite E2, E1, app_assoc. split; [done|].
    by rewrite released_app, Hn1, Hn2.
Qed.

Lemma run_memories cs s rs s' :
  run cs s = Some (rs, s') -> memories s' = memories s ++ deallocated cs.
Proof.
  revert s rs. induction cs as [|c cs IH]; intros s rs H.
  - injection H as _ <-. by rewrite app_nil_r.
  - apply run_cons_inv in H as (r & s1 & rs' & Hs & Hr & ->).
    apply step_memories in Hs. apply IH in Hr. rewrite Hr, Hs.
    rewrite <- app_assoc. f_equal.
    change (c :: cs) with ([c] ++ cs). unfold deallocated. by rewrite omap_app.
Qed.

Lemma run_memoryObjects cs s rs s' p m :
  below_fresh s -> run cs s = Some (rs, s') ->
  memoryObjects s !! p = Some m -> memoryObjects s' !! p = Some m.
Proof.
  revert s rs. induction cs as [|c cs IH]; intros s rs Hb H Hp.
  - by injection H as _ <-.
  - apply run_cons_inv in H as (r & s1 & rs' & Hs & Hr & ->).
    eapply IH; [by eapply step_below_fresh|done|].
    by eapply step_memoryObjects.
Qed.

Lemma below_fresh_create : below_fresh create.
Proof. split; intros p [? Hp]; simpl in Hp; by rewrite lookup_empty in Hp. Qed.

(** ** Teardown *)

Lemma delete_all_inv ps s s' :
  delete_all ps s = Some s' ->
  calls s' = calls s ++ (delete_memory <$> ps) /\
  events s' = events s /\ memories s' = memories s /\
  (forall p : MemoryPtr, p ∈ ps -> p <> nullptr -> memoryObjects s' !! p = None) /\
  (forall p, p ∉ ps -> memoryObjects s' !! p = memoryObjects s !! p).
Proof.
  revert s. induction ps as [|q ps IH]; intros s; simpl.
  - intros [= <-]. rewrite app_nil_r. repeat split; try done.
    intros p Hp. by apply elem_of_nil in Hp.
  - unfold delete_LevelZeroMemory. case_decide as Hq.
    + simpl. intros H. apply IH in H as (Hc & He & Hm & Hin & Hout). simpl in *.
      rewrite Hc, He, Hm, <- app_assoc. repeat split; try done.
      * intros p Hp Hnull. apply elem_of_cons in Hp as [->|Hp]; [done|].
        by apply Hin.
      * intros p Hp. apply not_elem_of_cons in Hp as [_ Hp]. by apply Hout.
    + destruct (memoryObjects s !! q) as [m|]; [simpl|done].
      intros H. apply IH in H as (Hc & He & Hm & Hin & Hout). simpl in *.
      rewrite Hc, He, Hm, <- app_assoc. repeat split; try done.
      * intros p Hp Hnull. destruct (decide (p ∈ ps)) as [|Hn]; [by auto|].
        apply elem_of_cons in Hp as [E|]; [subst p|done].
        rewrite (Hout q Hn). apply lookup_delete_eq.
      * intros p Hp. apply not_elem_of_cons in Hp as [Hne Hp].
        rewrite (Hout p Hp). by apply lookup_delete_ne.
Qed.

(** The loop over [memories] goes through when every pointer in it is
    null or a live object, and no live object occurs twice. *)
Lemma delete_all_defined ps s :
  NoDup (filter (fun p : MemoryPtr => p <> nullptr) ps) ->
  (forall p : MemoryPtr, p ∈ ps -> p <> nullptr -> is_Some (memoryObjects s !! p)) ->
  is_Some (delete_all ps s).
Proof.
  revert s. induction ps as [|q ps IH]; intros s Hnd Hlive; simpl; [by eexists|].
  unfold delete_LevelZeroMemory. case_decide as Hq.
  - simpl. rewrite filter_cons_False in Hnd by (intros H; by apply H).
    apply IH; [done|]. intros p Hp. simpl. apply Hlive. by right.
  - rewrite filter_cons_True in Hnd by done.
    apply NoDup_cons in Hnd as [Hnotin Hnd].
    destruct (Hlive q) as [m ->]; [by left|done|]. simpl.
    apply IH; [done|]. intros p Hp Hnull. simpl.
    rewrite lookup_delete_ne; [apply Hlive; [by right|done]|].
    intros ->. apply Hnotin. apply list_elem_of_filter. done.
Qed.

Lemma delete_all_Some_inv ps s s' :
  delete_all ps s = Some s' ->
  NoDup (filter (fun p : MemoryPtr => p <> nullptr) ps) /\
  (forall p : MemoryPtr, p ∈ ps -> p <> nullptr -> is_Some (memoryObjects s !! p)).
Proof.
  revert s. induction ps as [|q ps IH]; intros s H.
  - split; [constructor|]. intros p Hp. by apply elem_of_nil in Hp.
  - simpl in H. unfold delete_LevelZeroMemory in H. case_decide as Hq.
    + simpl in H. apply IH in H as [Hnd Hlive]. simpl in Hlive.
      rewrite filter_cons_False by (intros H; by apply H).
      split; [done|].
      intros p Hp Hnull. apply elem_of_cons in Hp as [->|Hp]; [done|].
      by apply Hlive.
    + destruct (memoryObjects s !! q) as [m|] eqn:Hm; [simpl in H|done].
      apply IH in H as [Hnd Hlive]. simpl in Hlive.
      rewrite filter_cons_True by done.
      assert (q ∉ filter (fun p : MemoryPtr => p <> nullptr) ps) as Hnotin.
      { intros Hin. apply list_elem_of_filter in Hin as [_ Hin].
        destruct (Hlive q Hin Hq) as [x Hx].
        by rewrite lookup_delete_eq in Hx. }
      split; [by constructor|].
      intros p Hp Hnull. apply elem_of_cons in Hp as [->|Hp]; [by eexists|].
      destruct (Hlive p Hp Hnull) as [x Hx].
      apply lookup_delete_Some in Hx as [_ Hx]. by eexists.
Qed.

Lemma destroy_inv s s' :
  destroy s = Some s' ->
  calls s' = calls s ++ synchronize :: (delete_memory <$> memories s)
               ++ ((fun e => destroy_event (event e)) <$> events s) /\
  (forall p : MemoryPtr, p ∈ memories s -> p <> nullptr -> memoryObjects s' !! p = None) /\
  (forall p, p ∉ memories s -> memoryObjects s' !! p = memoryObjects s !! p).
Proof.
  unfold destroy. simpl.
  destruct (delete_all (memories s) (finish s)) as [s2|] eqn:Hd; [simpl|done].
  intros [= <-]. apply delete_all_inv in Hd as (Hc & He & _ & Hin & Hout).
  rewrite foldl_issue_calls, Hc, He. simpl.
  destruct (foldl_issue_frame (fun e => destroy_event (event e)) (events s) s2)
    as (_ & _ & -> & _ & _).
  rewrite <- !app_assoc. by repeat split.
Qed.

(** The destructor is defined exactly when every retired pointer is null
    or live and no live object was retired twice. *)
Lemma destroy_defined_iff s :
  is_Some (destroy s) <->
  NoDup (filter (fun p : MemoryPtr => p <> nullptr) (memories s)) /\
  (forall p : MemoryPtr, p ∈ memories s -> p <> nullptr -> is_Some (memoryObjects s !! p)).
Proof.
  split.
  - intros [s' Hs']. unfold destroy in Hs'. simpl in Hs'.
    destruct (delete_all (memories s) (finish s)) as [s2|] eqn:Hd; [|done].
    by apply delete_all_Some_inv in Hd.
  - intros [Hnd Hlive]. unfold destroy. simpl.
    destruct (delete_all_defined (memories s) (finish s) Hnd Hlive) as [s2 ->].
    by eexists.
Qed.

(** No object lives at the null pointer. *)
Lemma step_null_free c s r s' :
  memoryObjects s !! nullptr = None -> step c s = Some (r, s') ->
  memoryObjects s' !! nullptr = None.
Proof.
  intros Hn Hstep. open_step Hstep; simpl; try done.
  - rewrite lookup_insert_ne; [done|]. unfold nullptr. lia.
  - by destruct (foldl_issue_frame zeEventHostSynchronize x s) as (?&?&->&?&?).
Qed.

Lemma run_null_free cs s rs s' :
  memoryObjects s !! nullptr = None -> run cs s = Some (rs, s') ->
  memoryObjects s' !! nullptr = None.
Proof.
  revert s rs. induction cs as [|c cs IH]; intros s rs Hn H.
  - by injection H as _ <-.
  - apply run_cons_inv in H as (r & s1 & rs' & Hs & Hr & ->).
    eapply IH; [|done]. by eapply step_null_free.
Qed.

Lemma released_teardown (ps : list MemoryPtr) (es : list LevelZeroEvent) :
  released (synchronize :: (delete_memory <$> ps)
              ++ ((fun e => destroy_event (event e)) <$> es)) = ps.
Proof.
  simpl. rewrite released_app.
  replace (released ((fun e => destroy_event (event e)) <$> es)) with (@nil MemoryPtr)
    by (induction es; simpl; auto).
  rewrite app_nil_r. induction ps; simpl; [done|]. by f_equal.
Qed.

Lemma run_allocated cs s rs s' i n p :
  below_fresh s -> run cs s = Some (rs, s') ->
  cs !! i = Some (CallAllocateMemory n) -> rs !! i = Some (RetMemory p) ->
  is_Some (memoryObjects s' !! p).
Proof.
  revert s rs i. induction cs as [|c cs IH]; intros s rs i Hb H Hc Hr; [done|].
  apply run_cons_inv in H as (r & s1 & rs' & Hs & Hrun & ->).
  assert (below_fresh s1) by by eapply step_below_fresh.
  destruct i as [|i]; simpl in *.
  - injection Hc as ->. injection Hr as ->.
    apply step_allocate in Hs as (q & [= <-] & [m Hm]).
    exists m. by eapply run_memoryObjects.
  - by eapply IH.
Qed.

(** C7. [deallocateMemory] only appends the object to the invocation's
    retired list: no driver call is issued and no object leaves the heap.
    The object stays live through every later interface call, no call of
    the interface releases memory, and the release happens in the
    destructor, after the queue has been synchronised.  The destructor
    runs whenever the client retired no live object twice and every
    retired pointer is null or live; it then deletes the retired
    pointers, this object among them, and the object is off the heap. *)
Theorem deallocateMemory_defers_release
  (pre post : list Call) (memory : MemoryPtr) (m : LevelZeroMemory)
  (rs0 rs1 : list Returned) (s s1 : LevelZeroInvocation) :
  run pre create = Some (rs0, s) ->
  memoryObjects s !! memory = Some m ->
  run post (deallocateMemory memory s) = Some (rs1, s1) ->
  let retired := deallocated pre ++ memory :: deallocated post in
  (* the call itself *)
  ( memories (deallocateMemory memory s) = memories s ++ [memory] /\
    calls (deallocateMemory memory s) = calls s /\
    memoryObjects (deallocateMemory memory s) = memoryObjects s /\
    kernelObjects (deallocateMemory memory s) = kernelObjects s /\
    events (deallocateMemory memory s) = events s ) /\
  (* until teardown *)
  memoryObjects s1 !! memory = Some m /\
  released (calls s1) = [] /\
  memory ∈ memories s1 /\
  memories s1 = retired /\
  (* teardown *)
  (is_Some (destroy s1) <->
   NoDup (filter (fun p : MemoryPtr => p <> nullptr) retired) /\
   forall p : MemoryPtr, p ∈ retired -> p <> nullptr -> is_Some (memoryObjects s1 !! p)) /\
  forall s2, destroy s1 = Some s2 ->
    calls s2 = calls s1 ++ synchronize :: (delete_memory <$> memories s1)
                 ++ ((fun e => destroy_event (event e)) <$> events s1) /\
    released (calls s2) = retired /\
    memoryObjects s2 !! memory = None.
Proof.
  intros Hpre Hm Hpost retired.
  assert (below_fresh s) as Hb by (eapply run_below_fresh; [apply below_fresh_create|done]).
  assert (memory <> nullptr) as Hnull.
  { intros ->.
    pose proof (run_null_free pre create rs0 s (lookup_empty _) Hpre) as Hn.
    rewrite Hn in Hm. done. }
  split; [repeat split; reflexivity|].
  split; [exact (run_memoryObjects post (deallocateMemory memory s) rs1 s1
                  memory m Hb Hpost Hm)|].
  assert (memories s1 = retired) as Hret.
  { pose proof (run_memories _ _ _ _ Hpre) as E0.
    pose proof (run_memories _ _ _ _ Hpost) as E1. simpl in E0, E1.
    rewrite E1, E0. unfold retired. by rewrite <- app_assoc. }
  assert (memory ∈ memories s1) as Hin.
  { rewrite Hret. unfold retired. set_solver. }
  assert (released (calls s1) = []) as Hrel.
  { apply run_calls in Hpre as (n0 & E0 & R0).
    apply run_calls in Hpost as (n1 & E1 & R1). simpl in *.
    by rewrite E1, E0, !released_app, R0, R1. }
  split; [done|]. split; [done|]. split; [done|].
  split; [rewrite <- Hret; apply destroy_defined_iff|].
  intros s2 Hd. apply destroy_inv in Hd as (Hc & Hgone & _).
  split; [done|]. split; [|by apply Hgone].
  rewrite Hc, released_app, released_teardown, Hrel, Hret. done.
Qed.

Lemma deallocateMemory_defers_release_witness :
  let pre := [CallAllocateMemory 1024] in
  let post := [CallEnqueueWrite 1%N 6%N []; CallFlush] in
  let s := finalState pre create in
  let s1 := finalState post (deallocateMemory 1%N s) in
  let s2 := default s1 (destroy s1) in
  run pre create = Some (returned pre create, s) /\
  memoryObjects s !! 1%N = Some (MkMemory 0%N 1024%N) /\
  run post (deallocateMemory 1%N s)
  = Some (returned post (deallocateMemory 1%N s), s1) /\
  memoryObjects s1 !! 1%N = Some (MkMemory 0%N 1024%N) /\
  released (calls s1) = [] /\
  destroy s1 = Some s2 /\
  released (calls s2) = [1%N] /\
  memoryObjects s2 !! 1%N = None /\
  drop (length (calls s1)) (calls s2)
  = [synchronize; delete_memory 1%N; destroy_event 2%N].
Proof.
  intros pre post s s1 s2.
  assert (run pre create = Some (returned pre create, s)) as H1
    by (vm_compute; reflexivity).
  assert (memoryObjects s !! 1%N = Some (MkMemory 0%N 1024%N)) as H2
    by (vm_compute; reflexivity).
  assert (run post (deallocateMemory 1%N s)
          = Some (returned post (deallocateMemory 1%N s), s1)) as H3
    by (vm_compute; reflexivity).
  assert (destroy s1 = Some s2) as H4 by (vm_compute; reflexivity).
  destruct (deallocateMemory_defers_release pre post 1%N _ _ _ s s1 H1 H2 H3)
    as (_ & A & B & _ & _ & _ & C).
  destruct (C s2 H4) as (C1 & C2 & C3).
  split; [exact H1|]. split; [exact H2|]. split; [exact H3|].
  split; [exact A|]. split; [exact B|]. split; [exact H4|].
  split; [exact C2|]. split; [exact C3|].
  rewrite C1, drop_app_length. vm_compute; reflexivity.
Defined.

(** C9. Teardown releases exactly the objects that were handed to
    [deallocateMemory]; an object returned by [allocateMemory] and never
    handed back is still on the heap when the destructor has run. *)
Theorem undeallocated_memory_outlives_invocation
  (cs : list Call) (rs : list Returned) (s s' : LevelZeroInvocation) :
  run cs create = Some (rs, s) ->
  destroy s = Some s' ->
  released (calls s') = deallocated cs /\
  forall i n p,
    cs !! i = Some (CallAllocateMemory n) ->
    rs !! i = Some (RetMemory p) ->
    p ∉ deallocated cs ->
    is_Some (memoryObjects s' !! p) /\ p ∉ released (calls s').
Proof.
  intros Hrun Hd.
  pose proof (run_memories _ _ _ _ Hrun) as Hmem. simpl in Hmem.
  pose proof (run_calls _ _ _ _ Hrun) as (new & Hc & Hnew). simpl in Hc.
  apply destroy_inv in Hd as (Hcalls & _ & Hkeep).
  assert (released (calls s') = deallocated cs) as Hrel.
  { rewrite Hcalls, released_app, released_teardown, Hc, Hnew, Hmem. done. }
  split; [done|].
  intros i n p Hi Hr Hp. rewrite Hrel. split; [|done].
  rewrite Hkeep by (by rewrite Hmem).
  eapply run_allocated; eauto using below_fresh_create.
Qed.

Lemma undeallocated_memory_outlives_invocation_witness :
  let cs := [CallAllocateMemory 16; CallAllocateMemory 32;
             CallDeallocateMemory 1%N] in
  let s := finalState cs create in
  let s' := default s (destroy s) in
  run cs create = Some (returned cs create, s) /\
  destroy s = Some s' /\
  released (calls s') = [1%N] /\
  is_Some (memoryObjects s' !! 3%N).
Proof.
  intros cs s s'.
  assert (run cs create = Some (returned cs create, s)) as H1
    by (vm_compute; reflexivity).
  assert (destroy s = Some s') as Hd by (vm_compute; reflexivity).
  destruct (undeallocated_memory_outlives_invocation cs _ s s' H1 Hd) as [A B].
  split; [exact H1|]. split; [exact Hd|]. split; [exact A|].
  assert (returned cs create !! 1%nat = Some (RetMemory 3%N)) as H2
    by (vm_compute; reflexivity).
  refine (proj1 (B 1%nat 32%N 3%N eq_refl H2 _)).
  simpl. intros H. apply elem_of_cons in H as [H|H]; [discriminate H|].
  by apply elem_of_nil in H.
Defined.

(** ** Kernel dependencies *)

Lemma getEvents_app s l1 l2 h1 h2 :
  getEvents s l1 = Some h1 -> getEvents s l2 = Some h2 ->
  getEvents s (l1 ++ l2) = Some (h1 ++ h2).
Proof.
  unfold getEvents. rewrite !mapM_Some. apply Forall2_app.
Qed.

Lemma getEvents_mono s s' l hs :
  (exists new, events s' = events s ++ new) ->
  getEvents s l = Some hs -> getEvents s' l = Some hs.
Proof.
  intros [new E]. unfold getEvents. rewrite !mapM_Some.
  intros HF. eapply Forall2_impl; [exact HF|]. simpl. intros e h He. rewrite E.
  destruct (events s !! e) as [ev|] eqn:Hev; [|done].
  by rewrite (lookup_app_l_Some _ _ _ _ Hev).
Qed.

Lemma kernel_eta kr :
  MkKernel (module kr) (name kr) (kernel kr) (dependencies kr ++ []) = kr.
Proof. destruct kr; simpl. by rewrite app_nil_r. Qed.

(** A call that is not a launch of [k] leaves the kernel object in place
    and can only extend its dependency list, by the handles of the events
    attached in that call. *)
Lemma step_kernel c s r s' k kr :
  below_fresh s -> step c s = Some (r, s') -> launches k c = false ->
  kernelObjects s !! k = Some kr ->
  exists hs, getEvents s (addedTo k [c]) = Some hs /\
    kernelObjects s' !! k
    = Some (MkKernel (module kr) (name kr) (kernel kr) (dependencies kr ++ hs)).
Proof.
  intros [_ Hk] Hstep Hl Hkr. open_step Hstep; simpl in *.
  all: try (exists []; split; [done|]; by rewrite kernel_eta).
  - (* createKernelFromIL *)
    exists []; split; [done|]. rewrite kernel_eta, lookup_insert_ne; [done|].
    intros <-.
    assert (N.succ (N.succ (fresh s)) < fresh s)%N by (apply Hk; by eexists). lia.
  - (* addDependency *)
    case_decide as Hdec.
    + subst. simplify_eq. eexists [_]. split.
      * unfold getEvents. simpl. rewrite H0. done.
      * by rewrite lookup_insert_eq.
    + exists []; split; [done|]. rewrite kernel_eta. by rewrite lookup_insert_ne.
  - (* enqueueKernel on another kernel *)
    apply bool_decide_eq_false in Hl.
    exists []; split; [done|]. rewrite kernel_eta. by rewrite lookup_insert_ne.
  - (* wait *)
    exists []; split; [done|]. rewrite kernel_eta.
    by destruct (foldl_issue_frame zeEventHostSynchronize x s) as (_&_&_&->&_).
Qed.

Lemma run_events cs s rs s' :
  run cs s = Some (rs, s') -> exists new, events s' = events s ++ new.
Proof.
  revert s rs. induction cs as [|c cs IH]; intros s rs H.
  - injection H as _ <-. exists []. by rewrite app_nil_r.
  - apply run_cons_inv in H as (r & s1 & rs' & Hs & Hr & ->).
    apply step_events in Hs as (n1 & E1). apply IH in Hr as (n2 & E2).
    exists (n1 ++ n2). by rewrite E2, E1, app_assoc.
Qed.

Lemma run_kernel cs s rs s' k kr :
  below_fresh s -> run cs s = Some (rs, s') ->
  forallb (fun c => negb (launches k c)) cs = true ->
  kernelObjects s !! k = Some kr ->
  exists hs, getEvents s' (addedTo k cs) = Some hs /\
    kernelObjects s' !! k
    = Some (MkKernel (module kr) (name kr) (kernel kr) (dependencies kr ++ hs)).
Proof.
  revert s rs kr. induction cs as [|c cs IH]; intros s rs kr Hb H Hl Hkr.
  - injection H as _ <-. exists []. split; [done|]. by rewrite kernel_eta.
  - apply run_cons_inv in H as (r & s1 & rs' & Hs & Hr & ->).
    simpl in Hl. apply andb_true_iff in Hl as [Hc Hl].
    apply negb_true_iff in Hc.
    destruct (step_kernel _ _ _ _ _ _ Hb Hs Hc Hkr) as (h1 & G1 & K1).
    assert (below_fresh s1) as Hb1 by by eapply step_below_fresh.
    destruct (IH _ _ _ Hb1 Hr Hl K1) as (h2 & G2 & K2). simpl in K2.
    exists (h1 ++ h2). split.
    + change (c :: cs) with ([c] ++ cs). unfold addedTo. rewrite omap_app.
      apply getEvents_app; [|done].
      eapply getEvents_mono; [|eapply getEvents_mono; [|exact G1]].
      * by eapply run_events.
      * by eapply step_events.
    + by rewrite K2, app_assoc.
Qed.

Lemma step_resets c s r s' k :
  step c s = Some (r, s') -> resets k c r ->
  exists kr, kernelObjects s' !! k = Some kr /\ dependencies kr = [].
Proof.
  intros Hs [(gws & lws & ->)|(n & nm & -> & ->)].
  - simpl in Hs.
    destruct (enqueueKernel k gws lws s) as [[e s1]|] eqn:E; [|done].
    injection Hs as _ <-. apply enqueueKernel_inv in E as (kr & _ & _ & ->).
    simpl. eexists. split; [apply lookup_insert_eq|done].
  - simpl in Hs. injection Hs as Hk <-. simpl. rewrite <- Hk.
    eexists. split; [apply lookup_insert_eq|done].
Qed.

(** C4. A launch of kernel [k] carries exactly the handles of the events
    attached to [k] by [addDependency] since the kernel was last launched
    (or made), and leaves the kernel with an empty dependency list. *)
Theorem enqueueKernel_consumes_dependencies
  (pre mid : list Call) (c0 : Call) (k : KernelPtr) (gws lws : ze_group_count_t)
  (rs0 rs1 : list Returned) (r0 : Returned) (e : EventPtr)
  (s0 s1 s2 s3 : LevelZeroInvocation) :
  run pre create = Some (rs0, s0) ->
  step c0 s0 = Some (r0, s1) -> resets k c0 r0 ->
  run mid s1 = Some (rs1, s2) ->
  forallb (fun c => negb (launches k c)) mid = true ->
  enqueueKernel k gws lws s2 = Some (e, s3) ->
  exists kr hs,
    getEvents s3 (addedTo k mid) = Some hs /\
    calls s3 = calls s2 ++
      [set_group_size (kernel kr) (groupCountX lws) (groupCountY lws) (groupCountZ lws);
       create_event (fresh s2);
       append_launch_function (kernel kr) gws (fresh s2) hs] /\
    kernelObjects s3 !! k
    = Some (MkKernel (module kr) (name kr) (kernel kr) []).
Proof.
  intros Hpre Hs0 Hreset Hmid Hl Henq.
  assert (below_fresh s1) as Hb1.
  { eapply step_below_fresh; [|exact Hs0].
    eapply run_below_fresh; [apply below_fresh_create|exact Hpre]. }
  destruct (step_resets _ _ _ _ _ Hs0 Hreset) as (kr & Hkr & Hdeps).
  destruct (run_kernel _ _ _ _ _ _ Hb1 Hmid Hl Hkr) as (hs & Hhs & Hkr2).
  rewrite Hdeps in Hkr2. simpl in Hkr2.
  apply enqueueKernel_inv in Henq as (kr2 & Hkr2' & -> & ->).
  rewrite Hkr2 in Hkr2'. injection Hkr2' as <-. simpl.
  exists kr, hs. split; [|split; [done|by rewrite lookup_insert_eq]].
  eapply getEvents_mono; [|exact Hhs]. simpl. by eexists.
Qed.

Lemma enqueueKernel_consumes_dependencies_witness :
  let g := GroupCount 4 1 1 in
  let prog := [CallAllocateMemory 64; CallEnqueueWrite 1%N 9%N [];
               CallEnqueueBarrier []] in
  let c0 := CallCreateKernelFromIL 128 "main" in
  let mid := [CallAddDependency 6%N 0%nat; CallAddDependency 6%N 1%nat] in
  let s0 := finalState prog create in
  let s1 := finalState [c0] s0 in
  let s2 := finalState mid s1 in
  let s3 := finalState [CallEnqueueKernel 6%N g g] s2 in
  enqueueKernel 6%N g g s2 = Some (2%nat, s3) /\
  exists kr hs,
    getEvents s3 (addedTo 6%N mid) = Some hs /\
    calls s3 = calls s2 ++
      [set_group_size (kernel kr) 4 1 1; create_event (fresh s2);
       append_launch_function (kernel kr) g (fresh s2) hs] /\
    kernelObjects s3 !! 6%N
    = Some (MkKernel (module kr) (name kr) (kernel kr) []).
Proof.
  intros g prog c0 mid s0 s1 s2 s3.
  assert (run prog create = Some (returned prog create, s0)) as H0
    by (vm_compute; reflexivity).
  assert (step c0 s0 = Some (RetKernel 6%N, s1)) as H1
    by (vm_compute; reflexivity).
  assert (run mid s1 = Some (returned mid s1, s2)) as H2
    by (vm_compute; reflexivity).
  assert (enqueueKernel 6%N g g s2 = Some (2%nat, s3)) as H3
    by (vm_compute; reflexivity).
  split; [exact H3|].
  exact (enqueueKernel_consumes_dependencies
           prog mid c0 6%N g g _ _ _ _ s0 s1 s2 s3 H0 H1
           (or_intror (ex_intro _ 128%N (ex_intro _ "main" (conj eq_refl eq_refl))))
           H2 eq_refl H3).
Defined.

(** ** Further properties of the runtime *)

(** Teardown deletes every retired pointer.  It is defined exactly when
    every pointer the client handed to [deallocateMemory] is null or a
    live memory object and no live object was handed over twice: a second
    [deallocateMemory] of the same object makes the destructor delete it
    twice, while null pointers are deleted without effect, any number of
    times. *)
Theorem teardown_defined_iff
  (cs : list Call) (rs : list Returned) (s : LevelZeroInvocation) :
  run cs create = Some (rs, s) ->
  (is_Some (destroy s) <->
   NoDup (filter (fun p : MemoryPtr => p <> nullptr) (deallocated cs)) /\
   forall p : MemoryPtr, p ∈ deallocated cs -> p <> nullptr ->
             is_Some (memoryObjects s !! p)).
Proof.
  intros Hrun. apply run_memories in Hrun. simpl in Hrun. rewrite <- Hrun.
  apply destroy_defined_iff.
Qed.

Lemma teardown_defined_iff_witness :
  let once := [CallAllocateMemory 16; CallDeallocateMemory nullptr;
               CallDeallocateMemory 1%N; CallDeallocateMemory nullptr] in
  let twice := [CallAllocateMemory 16; CallDeallocateMemory 1%N;
                CallDeallocateMemory 1%N] in
  let dangling := [CallAllocateMemory 16; CallDeallocateMemory 7%N] in
  (is_Some (destroy (finalState once create)) <->
   NoDup (filter (fun p : MemoryPtr => p <> nullptr) (deallocated once)) /\
   forall p : MemoryPtr, p ∈ deallocated once -> p <> nullptr ->
             is_Some (memoryObjects (finalState once create) !! p)) /\
  (is_Some (destroy (finalState twice create)) <->
   NoDup (filter (fun p : MemoryPtr => p <> nullptr) (deallocated twice)) /\
   forall p : MemoryPtr, p ∈ deallocated twice -> p <> nullptr ->
             is_Some (memoryObjects (finalState twice create) !! p)) /\
  is_Some (destroy (finalState once create)) /\
  released (calls (default create (destroy (finalState once create))))
  = [nullptr; 1%N; nullptr] /\
  destroy (finalState twice create) = None /\
  destroy (finalState dangling create) = None.
Proof.
  intros once twice dangling.
  assert (run once create = Some (returned once create, finalState once create))
    as H1 by (vm_compute; reflexivity).
  assert (run twice create = Some (returned twice create, finalState twice create))
    as H2 by (vm_compute; reflexivity).
  split; [exact (teardown_defined_iff once _ _ H1)|].
  split; [exact (teardown_defined_iff twice _ _ H2)|].
  split; [vm_compute; eexists; reflexivity|].
  split; [vm_compute; reflexivity|].
  split; vm_compute; reflexivity.
Defined.

Lemma step_kernel_kept c s r s' k kr :
  below_fresh s -> step c s = Some (r, s') ->
  kernelObjects s !! k = Some kr ->
  exists kr', kernelObjects s' !! k = Some kr' /\
              module kr' = module kr /\ name kr' = name kr /\
              kernel kr' = kernel kr.
Proof.
  intros [_ Hk] Hstep Hkr. open_step Hstep; simpl in *.
  all: try (by exists kr).
  - (* createKernelFromIL *)
    exists kr. rewrite lookup_insert_ne; [done|]. intros <-.
    assert (N.succ (N.succ (fresh s)) < fresh s)%N by (apply Hk; by eexists). lia.
  - (* addDependency *)
    destruct (decide (k0 = k)) as [->|Hne].
    + pose proof (eq_trans (eq_sym H) Hkr) as E. injection E as ->.
      eexists. split; [apply lookup_insert_eq|]. by simpl.
    + exists kr. by rewrite lookup_insert_ne.
  - (* enqueueKernel *)
    destruct (decide (k0 = k)) as [->|Hne].
    + pose proof (eq_trans (eq_sym H) Hkr) as E. injection E as ->.
      eexists. split; [apply lookup_insert_eq|]. by simpl.
    + exists kr. by rewrite lookup_insert_ne.
  - (* wait *)
    exists kr.
    by destruct (foldl_issue_frame zeEventHostSynchronize x s) as (_&_&_&->&_).
Qed.

Lemma run_kernel_kept cs s rs s' k kr :
  below_fresh s -> run cs s = Some (rs, s') ->
  kernelObjects s !! k = Some kr ->
  exists kr', kernelObjects s' !! k = Some kr' /\
              module kr' = module kr /\ name kr' = name kr /\
              kernel kr' = kernel kr.
Proof.
  revert s rs kr. induction cs as [|c cs IH]; intros s rs kr Hb H Hkr.
  - injection H as _ <-. by exists kr.
  - apply run_cons_inv in H as (r & s1 & rs' & Hs & Hr & ->).
    destruct (step_kernel_kept _ _ _ _ _ _ Hb Hs Hkr) as (kr1 & K1 & M1 & N1 & F1).
    assert (below_fresh s1) as Hb1 by by eapply step_below_fresh.
    destruct (IH _ _ _ Hb1 Hr K1) as (kr2 & K2 & M2 & N2 & F2).
    exists kr2. repeat split; congruence.
Qed.

Lemma delete_all_kernelObjects ps s s' :
  delete_all ps s = Some s' -> kernelObjects s' = kernelObjects s.
Proof.
  revert s. induction ps as [|q ps IH]; intros s H; simpl in H.
  - by injection H as <-.
  - unfold delete_LevelZeroMemory in H. case_decide.
    + simpl in H. by apply IH in H.
    + destruct (memoryObjects s !! q) as [m|]; [simpl in H|done].
      by apply IH in H.
Qed.

Lemma destroy_kernelObjects s s' :
  destroy s = Some s' -> kernelObjects s' = kernelObjects s.
Proof.
  unfold destroy. simpl.
  destruct (delete_all (memories s) (finish s)) as [s2|] eqn:Hd; [simpl|done].
  intros [= <-].
  destruct (foldl_issue_frame (fun e => destroy_event (event e)) (events s2) s2)
    as (_ & _ & _ & -> & _).
  by apply delete_all_kernelObjects in Hd.
Qed.

Lemma step_createKernel n nm s r s' :
  step (CallCreateKernelFromIL n nm) s = Some (r, s') ->
  exists k kr, r = RetKernel k /\ kernelObjects s' !! k = Some kr /\ name kr = nm.
Proof.
  simpl. intros [= <- <-]. eexists _, _. split; [done|]. simpl.
  split; [apply lookup_insert_eq|done].
Qed.

Lemma run_created_kernel cs s rs s' i n nm k :
  below_fresh s -> run cs s = Some (rs, s') ->
  cs !! i = Some (CallCreateKernelFromIL n nm) -> rs !! i = Some (RetKernel k) ->
  exists kr, kernelObjects s' !! k = Some kr /\ name kr = nm.
Proof.
  revert s rs i. induction cs as [|c cs IH]; intros s rs i Hb H Hc Hr; [done|].
  apply run_cons_inv in H as (r & s1 & rs' & Hs & Hrun & ->).
  assert (below_fresh s1) by by eapply step_below_fresh.
  destruct i as [|i]; simpl in *.
  - injection Hc as ->. injection Hr as ->.
    apply step_createKernel in Hs as (k' & kr & [= <-] & Hk & Hn).
    destruct (run_kernel_kept _ _ _ _ _ _ H Hrun Hk) as (kr' & K & _ & N & _).
    exists kr'. split; [done|congruence].
  - by eapply IH.
Qed.

(** No call of the interface and no step of the destructor takes a
    kernel object off the heap: every kernel made by
    [createKernelFromIL] is still there, under its entry name, when the
    invocation has been destroyed. *)
Theorem kernels_outlive_invocation
  (cs : list Call) (rs : list Returned) (s s' : LevelZeroInvocation)
  (i : nat) (n : N) (nm : string) (k : KernelPtr) :
  run cs create = Some (rs, s) ->
  destroy s = Some s' ->
  cs !! i = Some (CallCreateKernelFromIL n nm) ->
  rs !! i = Some (RetKernel k) ->
  exists kr, kernelObjects s' !! k = Some kr /\ name kr = nm.
Proof.
  intros Hrun Hd Hc Hr. rewrite (destroy_kernelObjects _ _ Hd).
  eapply run_created_kernel; eauto using below_fresh_create.
Qed.

Lemma kernels_outlive_invocation_witness :
  let g := GroupCount 2 1 1 in
  let cs := [CallCreateKernelFromIL 64 "add"; CallEnqueueKernel 2%N g g;
             CallFlush] in
  let s := finalState cs create in
  let s' := default s (destroy s) in
  run cs create = Some (returned cs create, s) /\
  destroy s = Some s' /\
  exists kr, kernelObjects s' !! 2%N = Some kr /\ name kr = "add".
Proof.
  intros g cs s s'.
  assert (run cs create = Some (returned cs create, s)) as H1
    by (vm_compute; reflexivity).
  assert (destroy s = Some s') as H2 by (vm_compute; reflexivity).
  assert (returned cs create !! 0%nat = Some (RetKernel 2%N)) as H3
    by (vm_compute; reflexivity).
  split; [exact H1|]. split; [exact H2|].
  exact (kernels_outlive_invocation cs _ s s' 0 64%N "add" 2%N H1 H2 eq_refl H3).
Defined.

(** ** Events *)

Lemma createdEvents_app l1 l2 :
  LevelZeroLog.createdEvents (l1 ++ l2)
  = LevelZeroLog.createdEvents l1 ++ LevelZeroLog.createdEvents l2.
Proof. apply omap_app. Qed.

Lemma destroyedEvents_app l1 l2 :
  LevelZeroLog.destroyedEvents (l1 ++ l2)
  = LevelZeroLog.destroyedEvents l1 ++ LevelZeroLog.destroyedEvents l2.
Proof. apply omap_app. Qed.

(** One call: the events it adds to the invocation are the handles it
    took from the pool, and it gives none back. *)
Lemma step_events_balance c s r s' :
  step c s = Some (r, s') ->
  exists newCalls newEvents,
    calls s' = calls s ++ newCalls /\
    events s' = events s ++ newEvents /\
    LevelZeroLog.createdEvents newCalls = event <$> newEvents /\
    LevelZeroLog.destroyedEvents newCalls = [].
Proof.
  intros Hstep. open_step Hstep; simpl.
  all: try (eexists _, [_]; split; [reflexivity|]; split; [reflexivity|]; done).
  all: try (eexists _, []; split; [rewrite <- ?app_assoc; reflexivity|];
            split; [by rewrite app_nil_r|]; done).
  all: try (exists [], []; by rewrite !app_nil_r).
  - (* wait *)
    destruct (foldl_issue_frame zeEventHostSynchronize x s) as (_ & -> & _).
    rewrite foldl_issue_calls. exists (zeEventHostSynchronize <$> x), [].
    rewrite app_nil_r.
    split; [reflexivity|]. split; [reflexivity|].
    split; unfold LevelZeroLog.createdEvents, LevelZeroLog.destroyedEvents;
      induction x; simpl; auto.
Qed.

Lemma run_events_balance cs s rs s' :
  run cs s = Some (rs, s') ->
  exists newCalls newEvents,
    calls s' = calls s ++ newCalls /\
    events s' = events s ++ newEvents /\
    LevelZeroLog.createdEvents newCalls = event <$> newEvents /\
    LevelZeroLog.destroyedEvents newCalls = [].
Proof.
  revert s rs. induction cs as [|c cs IH]; intros s rs H.
  - injection H as _ <-. exists [], []. by rewrite !app_nil_r.
  - apply run_cons_inv in H as (r & s1 & rs' & Hs & Hr & ->).
    apply step_events_balance in Hs as (c1 & e1 & C1 & E1 & B1 & D1).
    apply IH in Hr as (c2 & e2 & C2 & E2 & B2 & D2).
    exists (c1 ++ c2), (e1 ++ e2).
    rewrite C2, C1, E2, E1, !app_assoc. split; [done|]. split; [done|].
    rewrite createdEvents_app, destroyedEvents_app, fmap_app, B1, B2, D1, D2.
    done.
Qed.

(** Every event taken from the pool during the life of an invocation is
    wrapped into the invocation's event list, and the destructor gives
    back exactly these events, each once, in the order they were taken. *)
Theorem teardown_returns_every_event
  (cs : list Call) (rs : list Returned) (s s' : LevelZeroInvocation) :
  run cs create = Some (rs, s) ->
  destroy s = Some s' ->
  LevelZeroLog.createdEvents (calls s') = event <$> events s /\
  LevelZeroLog.destroyedEvents (calls s') = LevelZeroLog.createdEvents (calls s').
Proof.
  intros Hrun Hd.
  apply run_events_balance in Hrun as (nc & ne & C & E & B & D). simpl in C, E.
  apply destroy_inv in Hd as (Hc & _ & _).
  assert (forall ps es,
            LevelZeroLog.createdEvents
              (synchronize :: (delete_memory <$> ps)
                 ++ ((fun e => destroy_event (event e)) <$> es)) = [] /\
            LevelZeroLog.destroyedEvents
              (synchronize :: (delete_memory <$> ps)
                 ++ ((fun e => destroy_event (event e)) <$> es)) = event <$> es)
    as Htail.
  { intros ps es. simpl.
    rewrite createdEvents_app, destroyedEvents_app.
    replace (LevelZeroLog.createdEvents (delete_memory <$> ps)) with (@nil handle)
      by (induction ps; simpl; auto).
    replace (LevelZeroLog.destroyedEvents (delete_memory <$> ps)) with (@nil handle)
      by (induction ps; simpl; auto).
    split; simpl.
    - induction es; simpl; auto.
    - induction es as [|e es IH]; simpl; [done|]. by f_equal. }
  destruct (Htail (memories s) (events s)) as [T1 T2].
  rewrite Hc, createdEvents_app, destroyedEvents_app, T1, T2, C, E, B, D.
  by rewrite !app_nil_r.
Qed.

Lemma teardown_returns_every_event_witness :
  let cs := [CallAllocateMemory 64; CallEnqueueWrite 1%N 9%N [];
             CallEnqueueBarrier [0%nat]; CallWait [1%nat]] in
  let s := finalState cs create in
  let s' := default s (destroy s) in
  run cs create = Some (returned cs create, s) /\
  destroy s = Some s' /\
  LevelZeroLog.createdEvents (calls s') = event <$> events s /\
  LevelZeroLog.destroyedEvents (calls s') = LevelZeroLog.createdEvents (calls s').
Proof.
  intros cs s s'.
  assert (run cs create = Some (returned cs create, s)) as H1
    by (vm_compute; reflexivity).
  assert (destroy s = Some s') as H2 by (vm_compute; reflexivity).
  split; [exact H1|]. split; [exact H2|].
  exact (teardown_returns_every_event cs _ s s' H1 H2).
Defined.

Lemma step_returned_event c s e s' :
  step c s = Some (RetEvent e, s') ->
  exists ev, events s' !! e = Some ev /\
             LevelZeroLog.eventKind c = Some (kind ev).
Proof.
  intros Hstep.
  destruct c; simpl in Hstep;
    repeat match type of Hstep with
      | context [let '(_, _) := ?x in _] => destruct x
      end;
    try discriminate.
  - destruct (enqueueRead src dst deps s) as [[e0 s0]|] eqn:E; [|done].
    injection Hstep as -> ->.
    apply enqueueRead_inv in E as (ds & m & _ & _ & -> & ->). simpl.
    eexists. split; [apply list_lookup_middle; done|done].
  - destruct (enqueueWrite dst src deps s) as [[e0 s0]|] eqn:E; [|done].
    injection Hstep as -> ->.
    apply enqueueWrite_inv in E as (ds & m & _ & _ & -> & ->). simpl.
    eexists. split; [apply list_lookup_middle; done|done].
  - destruct (addDependency k ev s); done.
  - destruct (setArg k idx memory s); done.
  - destruct (enqueueKernel k gws lws s) as [[e0 s0]|] eqn:E; [|done].
    injection Hstep as -> ->.
    apply enqueueKernel_inv in E as (kr & _ & -> & ->). simpl.
    eexists. split; [apply list_lookup_middle; done|done].
  - destruct (enqueueBarrier deps s) as [[e0 s0]|] eqn:E; [|done].
    injection Hstep as -> ->.
    apply enqueueBarrier_inv in E as (ds & _ & -> & ->). simpl.
    eexists. split; [apply list_lookup_middle; done|done].
  - destruct (wait evs s); done.
Qed.

(** An event pointer returned by an enqueue call designates, for the rest
    of the invocation's life, an event of the kind of that call: read,
    write, kernel or barrier. *)
Theorem returned_events_stay_valid
  (cs : list Call) (rs : list Returned) (s : LevelZeroInvocation)
  (i : nat) (c : Call) (e : EventPtr) :
  run cs create = Some (rs, s) ->
  cs !! i = Some c ->
  rs !! i = Some (RetEvent e) ->
  exists ev, events s !! e = Some ev /\
             LevelZeroLog.eventKind c = Some (kind ev).
Proof.
  generalize create. revert rs i.
  induction cs as [|c0 cs IH]; intros rs i s0 Hrun Hc Hr; [done|].
  apply run_cons_inv in Hrun as (r & s1 & rs' & Hs & Hrun & ->).
  destruct i as [|i]; simpl in *.
  - injection Hc as ->. injection Hr as ->.
    apply step_returned_event in Hs as (ev & Hev & Hk).
    apply run_events in Hrun as (new & E).
    exists ev. split; [|done]. rewrite E. by apply lookup_app_l_Some.
  - by eapply IH.
Qed.

Lemma returned_events_stay_valid_witness :
  let cs := [CallAllocateMemory 64; CallEnqueueWrite 1%N 9%N [];
             CallEnqueueBarrier [0%nat]; CallFlush] in
  let s := finalState cs create in
  run cs create = Some (returned cs create, s) /\
  exists ev, events s !! 0%nat = Some ev /\ Some Write = Some (kind ev).
Proof.
  intros cs s.
  assert (run cs create = Some (returned cs create, s)) as H1
    by (vm_compute; reflexivity).
  assert (returned cs create !! 1%nat = Some (RetEvent 0%nat)) as H2
    by (vm_compute; reflexivity).
  split; [exact H1|].
  exact (returned_events_stay_valid cs _ s 1 (CallEnqueueWrite 1%N 9%N []) 0%nat
           H1 eq_refl H2).
Defined.

(** ** Submission *)

Lemma submissions_app l1 l2 :
  LevelZeroLog.submissions (l1 ++ l2)
  = (LevelZeroLog.submissions l1 + LevelZeroLog.submissions l2)%nat.
Proof. unfold LevelZeroLog.submissions. by rewrite omap_app, length_app. Qed.

Lemma step_submissions c s r s' :
  step c s = Some (r, s') ->
  LevelZeroLog.submissions (calls s')
  = (LevelZeroLog.submissions (calls s) + LevelZeroLog.flushes [c])%nat.
Proof.
  intros Hstep. open_step Hstep; simpl.
  all: rewrite ?foldl_issue_calls.
  all: unfold LevelZeroLog.submissions, LevelZeroLog.flushes.
  all: rewrite <- ?app_assoc, ?omap_app, ?length_app; simpl; try lia.
  replace (omap _ (zeEventHostSynchronize <$> x)) with (@nil unit)
    by (induction x; simpl; auto).
  simpl. lia.
Qed.

Lemma run_submissions cs s rs s' :
  run cs s = Some (rs, s') ->
  LevelZeroLog.submissions (calls s')
  = (LevelZeroLog.submissions (calls s) + LevelZeroLog.flushes cs)%nat.
Proof.
  revert s rs. induction cs as [|c cs IH]; intros s rs H.
  - injection H as _ <-. unfold LevelZeroLog.flushes. simpl. lia.
  - apply run_cons_inv in H as (r & s1 & rs' & Hs & Hr & ->).
    apply step_submissions in Hs. apply IH in Hr. rewrite Hr, Hs.
    change (c :: cs) with ([c] ++ cs).
    unfold LevelZeroLog.flushes. rewrite omap_app, length_app. lia.
Qed.

(** The command list is executed once for every call of [flush] and at no
    other time: no enqueue call, no [finish], no [wait] and no step of the
    destructor executes it, so commands appended after the last [flush]
    are never handed to the device. *)
Theorem only_flush_submits
  (cs : list Call) (rs : list Returned) (s s' : LevelZeroInvocation) :
  run cs create = Some (rs, s) ->
  destroy s = Some s' ->
  LevelZeroLog.submissions (calls s) = LevelZeroLog.flushes cs /\
  LevelZeroLog.submissions (calls s') = LevelZeroLog.flushes cs.
Proof.
  intros Hrun Hd. apply run_submissions in Hrun.
  assert (LevelZeroLog.submissions (calls s) = LevelZeroLog.flushes cs) as Hs
    by (rewrite Hrun; reflexivity).
  split; [exact Hs|].
  apply destroy_inv in Hd as (Hc & _ & _). rewrite Hc, submissions_app, Hs.
  replace (LevelZeroLog.submissions
             (synchronize :: (delete_memory <$> memories s)
                ++ ((fun e => destroy_event (event e)) <$> events s)))
    with 0%nat; [lia|].
  clear. unfold LevelZeroLog.submissions. simpl. rewrite omap_app, length_app.
  replace (omap _ (delete_memory <$> memories s)) with (@nil unit)
    by (induction (memories s); simpl; auto).
  replace (omap _ ((fun e => destroy_event (event e)) <$> events s))
    with (@nil unit) by (induction (events s); simpl; auto).
  done.
Qed.

Lemma only_flush_submits_witness :
  let g := GroupCount 2 1 1 in
  let cs := [CallCreateKernelFromIL 64 "add"; CallEnqueueKernel 2%N g g;
             CallFlush; CallEnqueueKernel 2%N g g; CallFinish] in
  let s := finalState cs create in
  let s' := default s (destroy s) in
  run cs create = Some (returned cs create, s) /\
  destroy s = Some s' /\
  LevelZeroLog.submissions (calls s) = 1%nat /\
  LevelZeroLog.submissions (calls s') = 1%nat.
Proof.
  intros g cs s s'.
  assert (run cs create = Some (returned cs create, s)) as H1
    by (vm_compute; reflexivity).
  assert (destroy s = Some s') as H2 by (vm_compute; reflexivity).
  split; [exact H1|]. split; [exact H2|].
  exact (only_flush_submits cs _ s s' H1 H2).
Defined.

(** ** Uses of a memory object *)

Lemma run_app cs1 cs2 s rs1 s1 rs2 s2 :
  run cs1 s = Some (rs1, s1) -> run cs2 s1 = Some (rs2, s2) ->
  run (cs1 ++ cs2) s = Some (rs1 ++ rs2, s2).
Proof.
  revert s rs1. induction cs1 as [|c cs1 IH]; intros s rs1 H1 H2.
  - by injection H1 as <- <-.
  - apply run_cons_inv in H1 as (r & s0 & rs' & Hs & Hr & ->).
    simpl. rewrite Hs. simpl. rewrite (IH _ _ Hr H2). done.
Qed.

(** A run cut at its [j]-th call. *)
Lemma run_at cs rs s j c :
  run cs create = Some (rs, s) -> cs !! j = Some c ->
  exists rs1 s1 r s2 rs2,
    run (take j cs) create = Some (rs1, s1) /\
    step c s1 = Some (r, s2) /\
    run (drop (S j) cs) s2 = Some (rs2, s) /\
    rs = rs1 ++ r :: rs2 /\ length rs1 = j /\
    LevelZeroLog.issuedBy cs j = drop (length (calls s1)) (calls s2).
Proof.
  intros Hrun Hj. pose proof Hrun as Hrun'.
  rewrite <- (take_drop_middle cs j c Hj) in Hrun'.
  apply run_app_inv in Hrun' as (rs1 & s1 & rs2 & H1 & H2 & ->).
  apply run_cons_inv in H2 as (r & s2 & rs' & Hs & H2 & ->).
  exists rs1, s1, r, s2, rs'. repeat split; try done.
  - rewrite (run_length _ _ _ _ H1), length_take.
    apply lookup_lt_Some in Hj. lia.
  - unfold LevelZeroLog.issuedBy, finalState.
    rewrite (take_S_r _ _ _ Hj), H1.
    assert (run [c] s1 = Some ([r], s2)) as Hc by (simpl; by rewrite Hs).
    by rewrite (run_app _ _ _ _ _ _ _ H1 Hc).
Qed.

(** Every later use of a memory object goes to the device buffer that
    its own allocation obtained.  The allocating call issues one
    [allocate_shared_memory] of the requested size; a later read of the
    object issues a copy of that size from that buffer to the host
    pointer, a later write a copy of that size from the host pointer to
    that buffer, each signalling the event it returns and waiting for the
    given dependencies; a later [setArg] passes that buffer to the kernel
    at the given index, taken modulo 2^32.  This holds whether or not the
    object has been handed to [deallocateMemory] in between. *)
Theorem memory_uses_reach_allocated_buffer
  (cs : list Call) (rs : list Returned) (s : LevelZeroInvocation)
  (i j : nat) (n : N) (p : MemoryPtr) :
  run cs create = Some (rs, s) ->
  cs !! i = Some (CallAllocateMemory n) ->
  rs !! i = Some (RetMemory p) ->
  (i < j)%nat ->
  exists buf,
    LevelZeroLog.issuedBy cs i = [allocate_shared_memory n buf] /\
    (forall host deps, cs !! j = Some (CallEnqueueRead p host deps) ->
       exists ev e ds,
         rs !! j = Some (RetEvent ev) /\
         event <$> events s !! ev = Some e /\
         getEvents s deps = Some ds /\
         LevelZeroLog.issuedBy cs j
         = [create_event e; append_memory_copy host buf n e ds]) /\
    (forall host deps, cs !! j = Some (CallEnqueueWrite p host deps) ->
       exists ev e ds,
         rs !! j = Some (RetEvent ev) /\
         event <$> events s !! ev = Some e /\
         getEvents s deps = Some ds /\
         LevelZeroLog.issuedBy cs j
         = [create_event e; append_memory_copy buf host n e ds]) /\
    (forall k idx, cs !! j = Some (CallSetArg k idx p) ->
       exists kr,
         kernelObjects s !! k = Some kr /\
         LevelZeroLog.issuedBy cs j
         = [set_argument_value (kernel kr) (idx mod 2 ^ 32)%N buf]).
Proof.
  intros Hrun Hc Hr Hij.
  destruct (run_at _ _ _ _ _ Hrun Hc)
    as (rsa & sa & ra & sb & rsb & Ha1 & Hsa & Ha2 & Ers & Hla & Ia).
  pose proof Hr as Hr'.
  rewrite Ers, list_lookup_middle in Hr' by done. injection Hr' as ->.
  pose proof (run_below_fresh _ _ _ _ below_fresh_create Ha1) as Hba.
  pose proof (step_below_fresh _ _ _ _ Hba Hsa) as Hbb.
  simpl in Hsa. injection Hsa as Hp Hsb.
  exists (fresh sa). split.
  { rewrite Ia, <- Hsb. simpl. by rewrite drop_app_length. }
  assert (memoryObjects sb !! p = Some (MkMemory (fresh sa) n)) as Hmb
    by (rewrite <- Hsb, <- Hp; simpl; by rewrite lookup_insert_eq).
  assert (forall c, cs !! j = Some c ->
            exists s1 r s2 rs2,
              step c s1 = Some (r, s2) /\
              run (drop (S j) cs) s2 = Some (rs2, s) /\
              rs !! j = Some r /\
              LevelZeroLog.issuedBy cs j = drop (length (calls s1)) (calls s2) /\
              below_fresh s1 /\
              memoryObjects s1 !! p = Some (MkMemory (fresh sa) n)) as Hat.
  { intros c Hj.
    destruct (run_at _ _ _ _ _ Hrun Hj)
      as (rs1 & s1 & r & s2 & rs2 & H1 & Hs & H2 & E & Hl & Ij).
    exists s1, r, s2, rs2.
    split; [done|]. split; [done|].
    split; [rewrite E; by apply list_lookup_middle|]. split; [done|].
    pose proof (run_below_fresh _ _ _ _ below_fresh_create H1) as Hb1.
    split; [done|].
    assert (take j cs !! i = Some (CallAllocateMemory n)) as Hc'
      by (by rewrite lookup_take_lt).
    destruct (run_at _ _ _ _ _ H1 Hc')
      as (rsa' & sa' & ra' & sb' & rsb' & Ha1' & Hsa' & Ha2' & _).
    rewrite take_take, Nat.min_l in Ha1' by lia.
    rewrite Ha1 in Ha1'. injection Ha1' as <- <-.
    simpl in Hsa'. injection Hsa' as _ Hsb'. rewrite Hsb in Hsb'. subst sb'.
    eapply run_memoryObjects; [exact Hbb|exact Ha2'|exact Hmb]. }
  split; [|split].
  - intros host deps Hj.
    destruct (Hat _ Hj) as (s1 & r & s2 & rs2 & Hs & H2 & Hrj & Ij & Hb1 & Hm).
    simpl in Hs.
    destruct (enqueueRead p host deps s1) as [[e0 s0]|] eqn:E; [|done].
    injection Hs as <- <-.
    apply enqueueRead_inv in E as (ds & m & Hds & Hm' & -> & ->).
    pose proof (eq_trans (eq_sym Hm') Hm) as Em. injection Em as ->.
    pose proof (run_events _ _ _ _ H2) as (new & Ev). simpl in Ev.
    exists (length (events s1)), (fresh s1), ds.
    split; [done|]. split; [|split].
    + rewrite Ev, <- app_assoc. simpl.
      by rewrite list_lookup_middle.
    + eapply getEvents_mono; [|exact Hds]. rewrite Ev, <- app_assoc. by eexists.
    + rewrite Ij. simpl. by rewrite drop_app_length.
  - intros host deps Hj.
    destruct (Hat _ Hj) as (s1 & r & s2 & rs2 & Hs & H2 & Hrj & Ij & Hb1 & Hm).
    simpl in Hs.
    destruct (enqueueWrite p host deps s1) as [[e0 s0]|] eqn:E; [|done].
    injection Hs as <- <-.
    apply enqueueWrite_inv in E as (ds & m & Hds & Hm' & -> & ->).
    pose proof (eq_trans (eq_sym Hm') Hm) as Em. injection Em as ->.
    pose proof (run_events _ _ _ _ H2) as (new & Ev). simpl in Ev.
    exists (length (events s1)), (fresh s1), ds.
    split; [done|]. split; [|split].
    + rewrite Ev, <- app_assoc. simpl.
      by rewrite list_lookup_middle.
    + eapply getEvents_mono; [|exact Hds]. rewrite Ev, <- app_assoc. by eexists.
    + rewrite Ij. simpl. by rewrite drop_app_length.
  - intros k idx Hj.
    destruct (Hat _ Hj) as (s1 & r & s2 & rs2 & Hs & H2 & Hrj & Ij & Hb1 & Hm).
    simpl in Hs. unfold setArg in Hs.
    destruct (kernelObjects s1 !! k) as [kr|] eqn:Hk; [|done]. simpl in Hs.
    pose proof (eq_trans (eq_sym Hm) eq_refl) as Hm'.
    destruct (memoryObjects s1 !! p) as [m|]; [|done]. simpl in Hs.
    injection Hm' as <-. injection Hs as _ <-.
    assert (below_fresh
              (issue (set_argument_value (kernel kr) (idx mod 2 ^ 32)%N (fresh sa))
                     s1)) as Hb2 by exact Hb1.
    destruct (run_kernel_kept _ _ _ _ k kr Hb2 H2 Hk) as (kr' & K & _ & _ & Kh).
    exists kr'. split; [done|].
    rewrite Ij, Kh. simpl. by rewrite drop_app_length.
Qed.

Lemma memory_uses_reach_allocated_buffer_witness :
  let cs := [CallAllocateMemory 32; CallAllocateMemory 64;
             CallDeallocateMemory 3%N; CallEnqueueRead 3%N 9%N [];
             CallFlush] in
  let s := finalState cs create in
  run cs create = Some (returned cs create, s) /\
  LevelZeroLog.issuedBy cs 1 = [allocate_shared_memory 64 2%N] /\
  LevelZeroLog.issuedBy cs 3
  = [create_event 4%N; append_memory_copy 9%N 2%N 64 4%N []].
Proof.
  intros cs s.
  assert (run cs create = Some (returned cs create, s)) as H1
    by (vm_compute; reflexivity).
  assert (returned cs create !! 1%nat = Some (RetMemory 3%N)) as H2
    by (vm_compute; reflexivity).
  split; [exact H1|].
  destruct (memory_uses_reach_allocated_buffer cs _ s 1 3 64%N 3%N H1 eq_refl H2
              ltac:(lia)) as (buf & A & R & _ & _).
  assert (buf = 2%N) as ->.
  { assert (LevelZeroLog.issuedBy cs 1 = [allocate_shared_memory 64 2%N]) as A'
      by (vm_compute; reflexivity).
    rewrite A' in A. by injection A as <-. }
  split; [exact A|].
  destruct (R 9%N [] eq_refl) as (ev & e & ds & _ & _ & _ & I).
  rewrite I.
  assert (LevelZeroLog.issuedBy cs 3
          = [create_event 4%N; append_memory_copy 9%N 2%N 64 4%N []]) as I'
    by (vm_compute; reflexivity).
  rewrite I' in I. exact (eq_sym I).
Defined.

End LevelZeroFacts.

(* ===================================================================== *)
(** * Properties of the front-end registration                            *)
(* ===================================================================== *)

Section ReduceMeanFacts.
Import ReduceMean.

(** C10. The registration rejects every operand count other than two,
    and with two operands it returns the mean of the first operand over
    the axes 1 and 2 with the layer's keep-dims flag, whatever the second
    operand is. *)
Theorem reducemean_fixed_axes (ctx : Context) :
  (length (operands ctx) <> 2%nat -> reducemean ctx = AssertionFailed) /\
  (forall input axesOperand keep_dims,
      operands ctx = [input; axesOperand] ->
      layer ctx = ReduceMeanNode keep_dims ->
      reducemean ctx = Returned [mean input [1%N; 2%N] keep_dims]).
Proof.
  unfold reducemean. split.
  - intros Hlen. by rewrite bool_decide_eq_false_2.
  - intros input axesOperand keep_dims -> ->. reflexivity.
Qed.

Lemma reducemean_fixed_axes_witness :
  reducemean (MkContext [TensorRef 0] (ReduceMeanNode true)) = AssertionFailed /\
  reducemean (MkContext [TensorRef 0; TensorRef 5] (ReduceMeanNode true))
  = Returned [mean (TensorRef 0) [1%N; 2%N] true] /\
  reducemean (MkContext [TensorRef 0; TensorRef 6] (ReduceMeanNode true))
  = Returned [mean (TensorRef 0) [1%N; 2%N] true].
Proof.
  split; [|split].
  - apply (proj1 (reducemean_fixed_axes
                    (MkContext [TensorRef 0] (ReduceMeanNode true)))).
    simpl. lia.
  - exact (proj2 (reducemean_fixed_axes
                    (MkContext [TensorRef 0; TensorRef 5] (ReduceMeanNode true)))
                 (TensorRef 0) (TensorRef 5) true eq_refl eq_refl).
  - exact (proj2 (reducemean_fixed_axes
                    (MkContext [TensorRef 0; TensorRef 6] (ReduceMeanNode true)))
                 (TensorRef 0) (TensorRef 6) true eq_refl eq_refl).
Defined.

End ReduceMeanFacts.

(* ===================================================================== *)
(** * Runtime function declarations                                       *)
(* ===================================================================== *)

Section DeclarationFacts.
Import MLIR Observe.

Lemma find_app {A} (f : A -> bool) (l1 l2 : list A) :
  List.find f (l1 ++ l2)
  = match List.find f l1 with Some a => Some a | None => List.find f l2 end.
Proof. induction l1 as [|a l1 IH]; simpl; [done|]. by destruct (f a). Qed.

Lemma symbolCount_app m1 m2 nm :
  symbolCount (m1 ++ m2) nm = (symbolCount m1 nm + symbolCount m2 nm)%nat.
Proof. unfold symbolCount. by rewrite filter_app, length_app. Qed.

Lemma lookupSymbol_None_count m nm :
  lookupSymbol m nm = None <-> symbolCount m nm = 0%nat.
Proof.
  unfold lookupSymbol, symbolCount. induction m as [|o m IH]; simpl; [done|].
  rewrite filter_cons. case_bool_decide; case_decide; simpl; done.
Qed.

(** ** Driver A: guarded insertion *)

Lemma declareIfMissing_present nm ty m :
  is_Some (lookupSymbol (CompToOcl.declareIfMissing nm ty m) nm).
Proof.
  unfold CompToOcl.declareIfMissing.
  destruct (lookupSymbol m nm) as [o|] eqn:E; [by rewrite E|].
  unfold lookupSymbol, createFuncOp in *. rewrite find_app, E. simpl.
  rewrite bool_decide_eq_true_2 by done. by eexists.
Qed.

Lemma declareIfMissing_keeps nm ty m nm' :
  is_Some (lookupSymbol m nm') ->
  is_Some (lookupSymbol (CompToOcl.declareIfMissing nm ty m) nm').
Proof.
  intros [o Ho]. unfold CompToOcl.declareIfMissing.
  destruct (lookupSymbol m nm); [by eexists|].
  unfold lookupSymbol, createFuncOp in *. rewrite find_app, Ho. by eexists.
Qed.

Lemma declareIfMissing_count nm ty m nm' :
  symbolCount (CompToOcl.declareIfMissing nm ty m) nm'
  = if decide (nm = nm' /\ symbolCount m nm' = 0%nat)
    then 1%nat else symbolCount m nm'.
Proof.
  unfold CompToOcl.declareIfMissing.
  destruct (lookupSymbol m nm) as [o|] eqn:E.
  - case_decide as H; [|done]. destruct H as [-> H0].
    apply lookupSymbol_None_count in H0. congruence.
  - apply lookupSymbol_None_count in E. unfold createFuncOp.
    rewrite symbolCount_app. unfold symbolCount at 2. simpl.
    rewrite filter_cons, filter_nil. simpl.
    repeat case_decide; simpl; subst; try lia; exfalso; naive_solver.
Qed.

Section Fold.
Variable decls : list (string * LLVMFunctionType).

Local Abbreviation declare m :=
  (foldl (fun acc d => CompToOcl.declareIfMissing d.1 d.2 acc) m decls).

Lemma declare_keeps m nm :
  is_Some (lookupSymbol m nm) -> is_Some (lookupSymbol (declare m) nm).
Proof.
  revert m.
  induction decls as [|d ds IH]; intros m H; simpl; [done|].
  apply IH. by apply declareIfMissing_keeps.
Qed.

Lemma declare_present m d :
  d ∈ decls -> is_Some (lookupSymbol (declare m) d.1).
Proof.
  revert m.
  induction decls as [|d' ds IH]; intros m H; simpl.
  - by apply elem_of_nil in H.
  - apply elem_of_cons in H as [->|H]; [|by apply IH].
    pose proof (declareIfMissing_present d'.1 d'.2 m) as Hp.
    revert Hp. generalize (CompToOcl.declareIfMissing d'.1 d'.2 m). clear.
    induction ds as [|e es IH]; intros m H; simpl; [done|].
    apply IH. by apply declareIfMissing_keeps.
Qed.

Lemma declare_noop m :
  (forall d, d ∈ decls -> is_Some (lookupSymbol m d.1)) -> declare m = m.
Proof.
  induction decls as [|d ds IH]; intros H; simpl; [done|].
  assert (CompToOcl.declareIfMissing d.1 d.2 m = m) as ->.
  { unfold CompToOcl.declareIfMissing.
    destruct (H d) as [o ->]; [by left|done]. }
  apply IH. intros e He. apply H. by right.
Qed.

Lemma declare_count_le m nm :
  (symbolCount (declare m) nm <= Nat.max 1 (symbolCount m nm))%nat.
Proof.
  revert m.
  induction decls as [|d ds IH]; intros m; simpl; [lia|].
  etrans; [apply IH|]. rewrite declareIfMissing_count. case_decide; lia.
Qed.

End Fold.

(** Driver A inserts its declarations idempotently: a second run changes
    nothing, and no run takes a symbol count above one unless the module
    already had the duplicate. *)
Lemma addOclFunctionDeclarations_idempotent m :
  CompToOcl.addOclFunctionDeclarations (CompToOcl.addOclFunctionDeclarations m)
  = CompToOcl.addOclFunctionDeclarations m.
Proof.
  unfold CompToOcl.addOclFunctionDeclarations.
  apply declare_noop. intros d Hd. by apply declare_present.
Qed.

Lemma addOclFunctionDeclarations_no_duplicates m nm :
  (symbolCount m nm <= 1)%nat ->
  (symbolCount (CompToOcl.addOclFunctionDeclarations m) nm <= 1)%nat.
Proof.
  intros H. unfold CompToOcl.addOclFunctionDeclarations.
  etrans; [apply declare_count_le|]. lia.
Qed.

Lemma lookupSymbol_app_None m1 m2 nm :
  lookupSymbol (m1 ++ m2) nm = None -> lookupSymbol m1 nm = None.
Proof.
  unfold lookupSymbol. rewrite find_app. by destruct (List.find _ m1).
Qed.

Lemma declare_appends (decls : list (string * LLVMFunctionType)) m :
  exists new,
    foldl (fun acc d => CompToOcl.declareIfMissing d.1 d.2 acc) m decls = m ++ new /\
    forall o, o ∈ new ->
      exists d, d ∈ decls /\ o = LLVMFuncOp d.1 d.2 /\ lookupSymbol m d.1 = None.
Proof.
  revert m. induction decls as [|d ds IH]; intros m; simpl.
  - exists []. rewrite app_nil_r. split; [done|].
    intros o Ho. by apply elem_of_nil in Ho.
  - unfold CompToOcl.declareIfMissing at 2.
    destruct (lookupSymbol m d.1) as [o|] eqn:E.
    + destruct (IH m) as (new & -> & Hnew). exists new. split; [done|].
      intros o' Ho'. destruct (Hnew o' Ho') as (d' & Hd' & -> & Hm).
      exists d'. split; [by right|done].
    + destruct (IH (createFuncOp d.1 d.2 m)) as (new & -> & Hnew).
      unfold createFuncOp. exists (LLVMFuncOp d.1 d.2 :: new).
      rewrite <- app_assoc. split; [done|].
      intros o' Ho'. apply elem_of_cons in Ho' as [->|Ho'].
      * exists d. split; [by left|done].
      * destruct (Hnew o' Ho') as (d' & Hd' & -> & Hm).
        exists d'. split; [by right|]. split; [done|].
        by eapply lookupSymbol_app_None.
Qed.

(** After [addOclFunctionDeclarations] every runtime entry point of
    driver A resolves to a symbol.  The module it was given is kept as it
    is, and what is added after it are declarations from the table, each
    for a name that the module did not have. *)
Theorem addOclFunctionDeclarations_declares_missing (m : ModuleOp) :
  (forall d, d ∈ CompToOcl.oclDeclarations ->
             is_Some (lookupSymbol (CompToOcl.addOclFunctionDeclarations m) d.1)) /\
  exists new,
    CompToOcl.addOclFunctionDeclarations m = m ++ new /\
    forall o, o ∈ new ->
      exists d, d ∈ CompToOcl.oclDeclarations /\ o = LLVMFuncOp d.1 d.2 /\
                lookupSymbol m d.1 = None.
Proof.
  split.
  - intros d Hd. by apply declare_present.
  - apply declare_appends.
Qed.

(** Lowering a module twice with driver A changes nothing the second
    time, and a symbol that occurs at most once before a run occurs at
    most once after it. *)
Theorem addOclFunctionDeclarations_twice (m : ModuleOp) :
  CompToOcl.addOclFunctionDeclarations (CompToOcl.addOclFunctionDeclarations m)
  = CompToOcl.addOclFunctionDeclarations m /\
  forall nm, (symbolCount m nm <= 1)%nat ->
             (symbolCount (CompToOcl.addOclFunctionDeclarations m) nm <= 1)%nat.
Proof.
  split.
  - unfold CompToOcl.addOclFunctionDeclarations.
    apply declare_noop. intros d Hd. by apply declare_present.
  - intros nm H. unfold CompToOcl.addOclFunctionDeclarations.
    etrans; [apply declare_count_le|]. lia.
Qed.

Lemma addOclFunctionDeclarations_declares_missing_witness :
  is_Some (lookupSymbol
             (CompToOcl.addOclFunctionDeclarations
                [LLVMFuncOp "oclWait" (getFunctionTy LLVMVoid [LLVMInt32] true)])
             "oclScheduleFunc").
Proof.
  apply (proj1 (addOclFunctionDeclarations_declares_missing
                  [LLVMFuncOp "oclWait" (getFunctionTy LLVMVoid [LLVMInt32] true)])
               (CompToOcl.kOclScheduleFunc,
                getFunctionTy LLVMInt8Ptr
                  [LLVMInt8Ptr; LLVMInt8Ptr; LLVMIndex; LLVMIndex;
                   LLVMIndex; LLVMIndex; LLVMIndex; LLVMIndex] false)).
  unfold CompToOcl.oclDeclarations. do 9 right. left.
Defined.

Lemma addOclFunctionDeclarations_twice_witness :
  (symbolCount
     (CompToOcl.addOclFunctionDeclarations
        [LLVMFuncOp "oclWait" (getFunctionTy LLVMVoid [LLVMInt32] true)])
     "oclWait" <= 1)%nat.
Proof.
  apply (proj2 (addOclFunctionDeclarations_twice
                  [LLVMFuncOp "oclWait" (getFunctionTy LLVMVoid [LLVMInt32] true)])).
  vm_compute. lia.
Defined.

(** ** Driver B: unguarded insertion *)

Lemma addVk_app m :
  CompToVulkan.addVkFunctionDeclarations m
  = m ++ ((fun d => LLVMFuncOp d.1 d.2) <$> CompToVulkan.vkDeclarations).
Proof.
  unfold CompToVulkan.addVkFunctionDeclarations.
  generalize CompToVulkan.vkDeclarations. intros ds. revert m.
  induction ds as [|d ds IH]; intros m; simpl.
  - by rewrite app_nil_r.
  - rewrite IH. unfold createFuncOp. by rewrite <- app_assoc.
Qed.

(** C1 (driver B). [addVkFunctionDeclarations] never looks a symbol up:
    whatever the module holds, each of the nine names gains one more
    declaration, so a module that already declares them ends up with two
    of each. *)
Theorem addVkFunctionDeclarations_duplicates (m : ModuleOp) :
  Forall (fun d => symbolCount (CompToVulkan.addVkFunctionDeclarations m) d.1
                   = S (symbolCount m d.1))
         CompToVulkan.vkDeclarations /\
  symbolCount (CompToVulkan.addVkFunctionDeclarations
                 (CompToVulkan.addVkFunctionDeclarations []))
              CompToVulkan.kVkInit = 2%nat.
Proof.
  split; [|reflexivity].
  rewrite addVk_app. apply Forall_forall. intros d Hd.
  rewrite symbolCount_app.
  assert (symbolCount ((fun d => LLVMFuncOp d.1 d.2) <$> CompToVulkan.vkDeclarations)
                      d.1 = 1%nat) as ->; [|lia].
  revert d Hd. apply Forall_forall. unfold CompToVulkan.vkDeclarations.
  repeat constructor.
Qed.

End DeclarationFacts.

(* ===================================================================== *)
(** * Properties of the lowering patterns                                 *)
(* ===================================================================== *)

Section RewriterFacts.
Import MLIR.

Lemma wrap_signed_small w n :
  (0 < w)%Z -> (0 <= n < 2 ^ (w - 1))%Z -> wrap_signed w n = n.
Proof.
  intros Hw Hn. unfold wrap_signed.
  assert (2 ^ w = 2 * 2 ^ (w - 1))%Z as Hp.
  { rewrite <- Z.pow_succ_r by lia. f_equal. lia. }
  rewrite Z.mod_small by lia.
  destruct (Z.ltb_spec n (2 ^ (w - 1))); lia.
Qed.

Lemma getI32IntegerAttr_small n :
  (0 <= n < 2 ^ 31)%Z -> getI32IntegerAttr n = IntegerAttr 32 n.
Proof. intros H. unfold getI32IntegerAttr. by rewrite wrap_signed_small. Qed.

Lemma getI64IntegerAttr_small n :
  (0 <= n < 2 ^ 63)%Z -> getI64IntegerAttr n = IntegerAttr 64 n.
Proof. intros H. unfold getI64IntegerAttr. by rewrite wrap_signed_small. Qed.

Lemma bind_unfold {A B} (m : M A) (f : A -> M B) r :
  (m ≫= f) r = match m r with
               | Continue a r' => f a r'
               | Failure r' => Failure r'
               | Undefined => Undefined
               end.
Proof. reflexivity. Qed.

Lemma bind_create {B} (o : NewOp) (f : Value -> M B) r :
  (create o ≫= f) r
  = f (nextValue r)
      (MkRewriter (N.succ (nextValue r)) (created r ++ [(nextValue r, o)])
                  (replacedBy r)).
Proof. reflexivity. Qed.

Lemma bind_replace {B} (o : NewOp) (f : unit -> M B) r :
  (replaceOpWithNewOp o ≫= f) r
  = f tt (MkRewriter (N.succ (nextValue r)) (created r ++ [(nextValue r, o)])
                     (Some [nextValue r])).
Proof. reflexivity. Qed.

Lemma bind_assoc {A B C} (m : M A) (g : A -> M B) (f : B -> M C) r :
  ((m ≫= g) ≫= f) r = (m ≫= fun a => g a ≫= f) r.
Proof. rewrite !bind_unfold. by destruct (m r). Qed.

Lemma bind_mret {A B} (a : A) (f : A -> M B) r : (mret a ≫= f) r = f a r.
Proof. reflexivity. Qed.

Lemma bind_operand {B} (v : Value) (l : list Value) (f : Value -> M B) r :
  (operand (v :: l) 0 ≫= f) r = f v r.
Proof. reflexivity. Qed.

End RewriterFacts.

(** Runs the straight-line part of a pattern that heads the hypothesis. *)
Ltac exec_in H :=
  repeat (first
    [ rewrite bind_create in H
    | rewrite bind_replace in H
    | rewrite bind_mret in H
    | rewrite bind_operand in H
    | rewrite bind_assoc in H ];
    cbv beta iota in H;
    cbn [MLIR.nextValue MLIR.created MLIR.replacedBy] in H).

(** Splits on the outcome of the loop that heads the hypothesis. *)
Ltac loop_in H r E :=
  rewrite bind_unfold in H;
  match type of H with
  | context [MLIR.forM_ ?l ?b ?r0] =>
      destruct (MLIR.forM_ l b r0) as [[] r|r|] eqn:E; [|done|done]
  end.

Section VariadicFacts.
Import MLIR.

(** C8. A variadic lowering passes the fixed leading operands in place,
    then one integer constant holding the number of remaining operands,
    then those operands: in the generic call pattern of driver A (barrier
    with one fixed operand, wait with none), in the read/write pattern of
    driver A (three fixed operands, the first two turned into raw
    pointers), and in the generic call pattern of driver B (wait). *)
Theorem variadic_count_before_tail (fixed tail : list Value) (r : Rewriter) :
  (Z.of_nat (length tail) < 2 ^ 31)%Z ->
  let cnt := nextValue r in
  (forall p op,
      CompToOcl.ConvertToFuncCallPattern.varArg p = true ->
      CompToOcl.ConvertToFuncCallPattern.nonVarArgs p = length fixed ->
      execEnvRuntime op = OpenCL ->
      CompToOcl.ConvertToFuncCallPattern.matchAndRewrite p op (fixed ++ tail) r
      = Continue tt
          (MkRewriter (N.succ (N.succ cnt))
             (created r ++
                [(cnt, LLVM_ConstantOp LLVMInt32
                         (Some (IntegerAttr 32 (Z.of_nat (length tail)))));
                 (N.succ cnt,
                  LLVM_CallOp (CompToOcl.convertType <$> getResultTypes op)
                    (CompToOcl.ConvertToFuncCallPattern.funcName p)
                    (fixed ++ [cnt] ++ tail))])
             (Some [N.succ cnt]))) /\
  (forall p op,
      CompToVulkan.ConvertToFuncCallPattern.varArg p = true ->
      CompToVulkan.ConvertToFuncCallPattern.nonVarArgs p = length fixed ->
      execEnvRuntime op = Vulkan ->
      CompToVulkan.ConvertToFuncCallPattern.matchAndRewrite p op (fixed ++ tail) r
      = Continue tt
          (MkRewriter (N.succ (N.succ cnt))
             (created r ++
                [(cnt, LLVM_ConstantOp LLVMInt32
                         (Some (IntegerAttr 32 (Z.of_nat (length tail)))));
                 (N.succ cnt,
                  LLVM_CallOp (CompToVulkan.convertType <$> getResultTypes op)
                    (CompToVulkan.ConvertToFuncCallPattern.funcName p)
                    (fixed ++ [cnt] ++ tail))])
             (Some [N.succ cnt]))) /\
  (forall o ty host dev env,
      fixed = [host; dev; env] ->
      let hostPtr := nextValue r in
      let devPtr := N.succ hostPtr in
      let cnt := N.succ devPtr in
      CompToOcl.ConvertScheduleReadWrite.matchAndRewrite o ty (fixed ++ tail) r
      = Continue tt
          (MkRewriter (N.succ (N.succ cnt))
             (created r ++
                [(hostPtr, hostMemrefToMem host);
                 (devPtr, deviceMemrefToMem dev);
                 (cnt, LLVM_ConstantOp LLVMIndex
                         (Some (IntegerAttr 64 (Z.of_nat (length tail)))));
                 (N.succ cnt,
                  LLVM_CallOp [CompToOcl.convertType ty]
                    (CompToOcl.ConvertScheduleReadWrite.funcName o)
                    ([hostPtr; devPtr; env] ++ [cnt] ++ tail))])
             (Some [N.succ cnt]))).
Proof.
  intros Hlen cnt.
  assert (forall n : nat, n = length fixed ->
            (Z.of_nat (length (fixed ++ tail)) - Z.of_nat n
             = Z.of_nat (length tail))%Z) as Hcnt.
  { intros n ->. rewrite length_app. lia. }
  split; [|split].
  - intros p op Hvar Hn Hrt.
    unfold CompToOcl.ConvertToFuncCallPattern.matchAndRewrite,
      CompToOcl.ConvertToFuncCallPattern.isMatchingRuntime.
    rewrite Hvar, Hrt, bool_decide_eq_true_2 by done. simpl.
    rewrite decide_True by (rewrite Hn, length_app; lia).
    rewrite (Hcnt _ Hn), Hn, take_app_length, drop_app_length.
    rewrite getI32IntegerAttr_small by lia.
    unfold mbind, M_bind, create, replaceOpWithNewOp. simpl.
    by rewrite <- !app_assoc.
  - intros p op Hvar Hn Hrt.
    unfold CompToVulkan.ConvertToFuncCallPattern.matchAndRewrite,
      CompToVulkan.ConvertToFuncCallPattern.isMatchingRuntime.
    rewrite Hvar, Hrt, bool_decide_eq_true_2 by done. simpl.
    rewrite decide_True by (rewrite Hn, length_app; lia).
    rewrite (Hcnt _ Hn), Hn, take_app_length, drop_app_length.
    rewrite getI32IntegerAttr_small by lia.
    unfold mbind, M_bind, create, replaceOpWithNewOp. simpl.
    by rewrite <- !app_assoc.
  - intros o ty host dev env -> hostPtr devPtr cnt'.
    unfold CompToOcl.ConvertScheduleReadWrite.matchAndRewrite,
      CompToOcl.ConvertScheduleReadWrite.nonVarArgs, createIndexConstant.
    rewrite decide_True by (simpl; lia).
    rewrite (Hcnt 3%nat eq_refl).
    rewrite getI64IntegerAttr_small by lia.
    simpl. unfold mbind, M_bind, create, replaceOpWithNewOp. simpl.
    rewrite drop_0. by rewrite <- !app_assoc.
Qed.

Lemma variadic_count_before_tail_witness :
  CompToOcl.ConvertToFuncCallPattern.matchAndRewrite
    CompToOcl.ConvertToFuncCallPattern.ConvertScheduleBarrier
    (MkCompOp OpenCL [EventType OpenCL]) ([1%N] ++ [5%N; 6%N]) (emptyRewriter 10)
  = Continue tt
      (MkRewriter 12
         [(10%N, LLVM_ConstantOp LLVMInt32 (Some (IntegerAttr 32 2)));
          (11%N, LLVM_CallOp [Some LLVMInt8Ptr] "oclBarrier" [1%N; 10%N; 5%N; 6%N])]
         (Some [11%N])).
Proof.
  assert (Z.of_nat (length [5%N; 6%N]) < 2 ^ 31)%Z as H by (simpl; lia).
  exact (proj1 (variadic_count_before_tail [1%N] [5%N; 6%N] (emptyRewriter 10) H)
               CompToOcl.ConvertToFuncCallPattern.ConvertScheduleBarrier
               (MkCompOp OpenCL [EventType OpenCL]) eq_refl eq_refl eq_refl).
Defined.

End VariadicFacts.

Section OclScheduleFuncFacts.
Import MLIR.

(** C3. When the OpenCL lowering of a ScheduleFunc succeeds, the last
    operations it creates are the three products grid * block, the casts
    of the three products and of the three block sizes, and the call of
    [oclScheduleFunc] on (environment, kernel, the three products, the
    three block sizes); that call replaces the operation. *)
Theorem ocl_global_size_is_grid_times_block
  (modulesMap : gmap string BinaryModule) (ir : IR) (op : ScheduleFunc)
  (operands : list Value) (r r' : Rewriter) :
  CompToOcl.ConvertScheduleFunc.matchAndRewrite modulesMap ir op operands r
  = Continue tt r' ->
  let grid := getGridSizeOperandValues (body op) in
  let block := getBlockSizeOperandValues (body op) in
  exists pre env kernel ty globalX globalY globalZ a2 a3 a4 a5 a6 a7 call,
    operands !! 0%nat = Some env /\
    CompToOcl.convertType (getType op) = Some ty /\
    created r' = pre ++
      [(globalX, MulIOp (x grid) (x block));
       (globalY, MulIOp (y grid) (y block));
       (globalZ, MulIOp (z grid) (z block));
       (a2, indexToInt globalX);
       (a3, indexToInt globalY);
       (a4, indexToInt globalZ);
       (a5, indexToInt (x block));
       (a6, indexToInt (y block));
       (a7, indexToInt (z block));
       (call, LLVM_CallOp [Some ty] CompToOcl.kOclScheduleFunc
                [env; kernel; a2; a3; a4; a5; a6; a7])] /\
    replacedBy r' = Some [call].
Proof.
  unfold CompToOcl.ConvertScheduleFunc.matchAndRewrite.
  destruct (CompToOcl.convertType (getType op)) as [ty|]; [|done].
  destruct (modulesMap !! getKernelModuleName (body op)) as [bm|]; [|done].
  destruct (kernelsNameMap bm !! getKernelName (body op)) as [gn|]; [|done].
  destruct operands as [|env deps]; [done|].
  unfold getPtrToBinaryModule. intros H. rewrite bind_unfold in H.
  exec_in H. simpl in H. exec_in H.
  loop_in H r1 E1. loop_in H r2 E2.
  exec_in H. injection H as <-. simpl.
  eexists (created r2), env, _, ty, _, _, _, _, _, _, _, _, _, _.
  split; [done|]. split; [done|]. split; [|done].
  by rewrite <- !app_assoc.
Qed.

Lemma ocl_global_size_is_grid_times_block_witness :
  let modulesMap : gmap string BinaryModule :=
    {[ "kernels" := MkBinaryModule [3%N; 2%N] {[ "main" := "main_kernel" ]} ]} in
  let launch := MkLaunchFuncOp "kernels" "main" (MkDim3 10 11 12) (MkDim3 20 21 22)
                  [(30%N, MemRefType [4%Z] F32 0)] None in
  let op := MkScheduleFunc (EventType OpenCL) [1%N; 2%N] launch in
  exists r',
    CompToOcl.ConvertScheduleFunc.matchAndRewrite modulesMap (MkIR ∅ ∅) op
      [1%N; 2%N] (emptyRewriter 100) = Continue tt r' /\
    exists pre env kernel ty globalX globalY globalZ a2 a3 a4 a5 a6 a7 call,
      [1%N; 2%N] !! 0%nat = Some env /\
      CompToOcl.convertType (EventType OpenCL) = Some ty /\
      created r' = pre ++
        [(globalX, MulIOp 10%N 20%N); (globalY, MulIOp 11%N 21%N);
         (globalZ, MulIOp 12%N 22%N);
         (a2, indexToInt globalX); (a3, indexToInt globalY);
         (a4, indexToInt globalZ);
         (a5, indexToInt 20%N); (a6, indexToInt 21%N); (a7, indexToInt 22%N);
         (call, LLVM_CallOp [Some ty] CompToOcl.kOclScheduleFunc
                  [env; kernel; a2; a3; a4; a5; a6; a7])] /\
      replacedBy r' = Some [call].
Proof.
  intros modulesMap launch op. eexists. split; [vm_compute; reflexivity|].
  apply (ocl_global_size_is_grid_times_block modulesMap (MkIR ∅ ∅) op
           [1%N; 2%N] (emptyRewriter 100)).
  vm_compute; reflexivity.
Defined.

End OclScheduleFuncFacts.

Section VulkanTransferLoop.
Import MLIR Observe CompToVulkan.ConvertScheduleFunc.

Variables (env : Value) (index : Z).

(** One pass over the map entries for the argument at position [i]. *)
Lemma transferFrom_hit i buffer src r :
  transferFrom env index i buffer (buffer, src) r
  = Continue tt
      (MkRewriter (N.succ (N.succ (N.succ (N.succ (N.succ (nextValue r))))))
         (created r ++ transferGroup env (src, (index, Z.of_nat i)) (nextValue r))
         (replacedBy r)).
Proof.
  unfold transferFrom. simpl. rewrite decide_True by done.
  rewrite !bind_create. cbn [nextValue created replacedBy].
  rewrite ?bind_mret. unfold mret, M_ret, transferGroup. simpl.
  by rewrite <- !app_assoc.
Qed.

Lemma transferFrom_miss i buffer pair r :
  pair.1 <> buffer -> transferFrom env index i buffer pair r = Continue tt r.
Proof. intros H. unfold transferFrom. by rewrite decide_False. Qed.

Lemma forM_transferFrom_absent i buffer (l : list (N * (Z * Z))) r :
  buffer ∉ l.*1 ->
  forM_ l (transferFrom env index i buffer) r = Continue tt r.
Proof.
  induction l as [|p l IH]; intros H; simpl; [done|].
  rewrite fmap_cons in H. apply not_elem_of_cons in H as [Hne H].
  rewrite bind_unfold, transferFrom_miss by done. by apply IH.
Qed.

Lemma forM_transferFrom_present i buffer src (l : list (N * (Z * Z))) r :
  NoDup l.*1 -> (buffer, src) ∈ l ->
  forM_ l (transferFrom env index i buffer) r
  = transferFrom env index i buffer (buffer, src) r.
Proof.
  induction l as [|p l IH]; intros Hnd Hin; simpl.
  - by apply elem_of_nil in Hin.
  - rewrite fmap_cons in Hnd. apply NoDup_cons in Hnd as [Hp Hnd].
    apply elem_of_cons in Hin as [<-|Hin].
    + rewrite bind_unfold, transferFrom_hit.
      by rewrite forM_transferFrom_absent.
    + assert (p.1 <> buffer) as Hne.
      { intros E. apply Hp. rewrite E.
        change buffer with (buffer, src).1. by apply list_elem_of_fmap_2. }
      rewrite bind_unfold, transferFrom_miss by done. by apply IH.
Qed.

(** The inner loop meets at most one entry: the one a lookup finds. *)
Lemma inner_loop_is_lookup i buffer (bufferMap : gmap N (Z * Z)) r :
  forM_ (map_to_list bufferMap) (transferFrom env index i buffer) r
  = match bufferMap !! buffer with
    | Some src =>
        Continue tt
          (MkRewriter (N.succ (N.succ (N.succ (N.succ (N.succ (nextValue r))))))
             (created r ++ transferGroup env (src, (index, Z.of_nat i)) (nextValue r))
             (replacedBy r))
    | None => Continue tt r
    end.
Proof.
  destruct (bufferMap !! buffer) as [src|] eqn:E.
  - rewrite (forM_transferFrom_present i buffer src).
    + apply transferFrom_hit.
    + apply NoDup_fst_map_to_list.
    + by apply elem_of_map_to_list.
  - apply forM_transferFrom_absent. intros Hin.
    apply list_elem_of_fmap in Hin as ([k v] & -> & Hin).
    apply elem_of_map_to_list in Hin. simpl in E. congruence.
Qed.

Lemma producers_from_cons (bufferMap : gmap N (Z * Z)) i b rest :
  producers_from bufferMap index i (b :: rest)
  = producers_from (<[b := (index, Z.of_nat i)]> bufferMap) index (S i) rest.
Proof.
  unfold producers_from. simpl. rewrite Nat.add_0_r. f_equal.
  apply imap_ext. intros j x _. simpl. f_equal. lia.
Qed.

(** The whole loop "Create Vulkan MemoryTransferAction". *)
Lemma memoryTransfers_spec i buffers (bufferMap : gmap N (Z * Z)) r :
  exists next',
    memoryTransfers env index i buffers bufferMap r
    = Continue (producers_from bufferMap index i buffers)
        (MkRewriter next'
           (created r ++ emitTransfers env
                           (transfers_interleaved bufferMap index i buffers)
                           (nextValue r))
           (replacedBy r)) /\
    (nextValue r <= next')%N.
Proof.
  revert i bufferMap r. induction buffers as [|b rest IH]; intros i bufferMap r.
  - exists (nextValue r). simpl. rewrite app_nil_r. split; [|lia].
    by destruct r.
  - simpl. rewrite bind_unfold, inner_loop_is_lookup, producers_from_cons.
    destruct (bufferMap !! b) as [src|].
    + edestruct IH as (next' & -> & Hle). exists next'.
      cbn [nextValue created replacedBy] in *. rewrite <- app_assoc.
      split; [done|lia].
    + edestruct IH as (next' & -> & Hle). by exists next'.
Qed.

End VulkanTransferLoop.

Section VulkanObservations.
Import MLIR Observe CompToVulkan CompToVulkan.ConvertScheduleFunc.

Lemma callees_app l1 l2 : callees (l1 ++ l2) = callees l1 ++ callees l2.
Proof. apply omap_app. Qed.

Lemma callees_emitTransfers env ws v :
  callees (emitTransfers env ws v)
  = replicate (length ws) kVkCreateMemoryTransferAction.
Proof.
  revert v. induction ws as [|w ws IH]; intros v; simpl; [done|].
  change (callees (?a :: ?b :: ?c :: ?d :: ?e :: ?l)) with
    (kVkCreateMemoryTransferAction :: callees l).
  by rewrite IH.
Qed.

Lemma ids_below_app v l1 l2 :
  ids_below v (l1 ++ l2) <-> ids_below v l1 /\ ids_below v l2.
Proof. apply Forall_app. Qed.

Lemma ids_below_mono v v' l : (v <= v')%N -> ids_below v l -> ids_below v' l.
Proof.
  intros Hle H. unfold ids_below in *. eapply Forall_impl; [exact H|].
  simpl. intros p Hp. lia.
Qed.

Lemma ids_below_transferGroup env w v :
  ids_below (N.succ (N.succ (N.succ (N.succ (N.succ v))))) (transferGroup env w v).
Proof. unfold ids_below, transferGroup. repeat constructor; simpl; lia. Qed.

(** A value numbered at or above [v] is not defined among operations
    numbered below [v]. *)
Lemma definition_skip v pre l x :
  ids_below v pre -> (v <= x)%N -> definition (pre ++ l) x = definition l x.
Proof.
  induction pre as [|[v' o] pre IH]; intros Hb Hx; simpl; [done|].
  apply Forall_cons in Hb as [Hv Hb]. simpl in Hv.
  rewrite decide_False by lia. by apply IH.
Qed.

Lemma constantOf_group env w v l :
  let L := transferGroup env w v ++ l in
  constantOf L v = Some (wrap_signed 64 w.2.1) /\
  constantOf L (N.succ v) = Some (wrap_signed 64 w.2.2) /\
  constantOf L (N.succ (N.succ v)) = Some (wrap_signed 64 w.1.1) /\
  constantOf L (N.succ (N.succ (N.succ v))) = Some (wrap_signed 64 w.1.2).
Proof.
  unfold constantOf, transferGroup. cbn [definition app].
  repeat split; repeat (case_decide; try lia); done.
Qed.

(** Reading the wirings back from the transfer groups. *)
Lemma wirings_of_groups env ws v pre post :
  ids_below v pre ->
  omap (wiringOf kVkCreateMemoryTransferAction
          (pre ++ emitTransfers env ws v ++ post))
       (emitTransfers env ws v)
  = asI64 <$> ws.
Proof.
  revert v pre. induction ws as [|w ws IH]; intros v pre Hb; [done|].
  cbn [emitTransfers]. rewrite omap_app, fmap_cons. 
  set (v5 := N.succ (N.succ (N.succ (N.succ (N.succ v))))).
  rewrite <- (app_assoc (transferGroup env w v)), (app_assoc pre).
  rewrite IH.
  2:{ apply ids_below_app. split.
      - eapply ids_below_mono; [|exact Hb]. unfold v5. lia.
      - apply ids_below_transferGroup. }
  rewrite <- (app_assoc pre).
  set (L := pre ++ transferGroup env w v ++ emitTransfers env ws v5 ++ post).
  assert (forall x, (v <= x)%N ->
            constantOf L x
            = constantOf (transferGroup env w v ++ emitTransfers env ws v5 ++ post) x)
    as Hskip.
  { intros x Hx. unfold constantOf, L. by rewrite (definition_skip v). }
  destruct (constantOf_group env w v (emitTransfers env ws v5 ++ post))
    as (C0 & C1 & C2 & C3).
  unfold transferGroup at 1. cbn [omap list_omap wiringOf snd].
  rewrite decide_True by done.
  rewrite !Hskip by lia. rewrite C0, C1, C2, C3. simpl.
  by destruct w as [[? ?] [? ?]].
Qed.

Lemma wiringOf_other c L p : calleeOf p <> Some c -> wiringOf c L p = None.
Proof.
  destruct p as [v o]. unfold calleeOf, wiringOf. simpl.
  destruct o as [tys callee ops| | | | | | | | | | |]; try done.
  intros H. assert (callee <> c) by congruence.
  do 6 (destruct ops as [|? ops]; try done).
  by rewrite decide_False.
Qed.

Lemma wirings_none l L :
  kVkCreateMemoryTransferAction ∉ callees l ->
  omap (wiringOf kVkCreateMemoryTransferAction L) l = [].
Proof.
  induction l as [|p l IH]; intros H; [done|].
  unfold callees in H. simpl in *.
  destruct (calleeOf p) as [c|] eqn:E.
  - apply not_elem_of_cons in H as [Hne H].
    rewrite wiringOf_other by congruence. by apply IH.
  - rewrite wiringOf_other by congruence. by apply IH.
Qed.

(** The wirings of a run of operations made of a transfer-free prefix,
    transfer groups, and a transfer-free rest. *)
Lemma transferWirings_groups env ws v pre post :
  ids_below v pre ->
  kVkCreateMemoryTransferAction ∉ callees pre ->
  kVkCreateMemoryTransferAction ∉ callees post ->
  transferWirings (pre ++ emitTransfers env ws v ++ post) = asI64 <$> ws.
Proof.
  intros Hb Hpre Hpost. unfold transferWirings.
  rewrite !omap_app, wirings_of_groups by done.
  change "vkCreateMemoryTransferAction" with kVkCreateMemoryTransferAction.
  rewrite !wirings_none by done. by rewrite app_nil_r.
Qed.

End VulkanObservations.

Section VulkanScheduleFunc.
Import MLIR Observe CompToVulkan CompToVulkan.ConvertScheduleFunc.

Lemma continues_refl r : continues r r [].
Proof.
  unfold continues. rewrite app_nil_r. repeat split; try done.
  constructor.
Qed.

Lemma continues_create o r :
  continues r (MkRewriter (N.succ (nextValue r)) (created r ++ [(nextValue r, o)])
                          (replacedBy r))
            [(nextValue r, o)].
Proof.
  unfold continues. simpl. repeat split; try done; [lia|].
  repeat constructor. simpl. lia.
Qed.

Lemma continues_trans r1 r2 r3 l1 l2 :
  continues r1 r2 l1 -> continues r2 r3 l2 -> continues r1 r3 (l1 ++ l2).
Proof.
  intros (C1 & R1 & N1 & B1) (C2 & R2 & N2 & B2). unfold continues.
  rewrite C2, C1, R2, R1, app_assoc. repeat split; try done; [lia|].
  apply ids_below_app. split; [|done]. by eapply ids_below_mono.
Qed.

Lemma continues_ids_below r r' new :
  continues r r' new -> ids_below (nextValue r) (created r) ->
  ids_below (nextValue r') (created r').
Proof.
  intros (C & _ & Hle & B) H. rewrite C. apply ids_below_app. split; [|done].
  by eapply ids_below_mono.
Qed.

(** The loop that binds the buffers: one call of [vkBindBuffer] per
    argument when it goes through. *)
Lemma bindBuffer_continues env ds arg r r1 :
  bindBuffer env ds arg r = Continue tt r1 ->
  exists new, continues r r1 new /\ callees new = [kVkBindBuffer].
Proof.
  destruct arg as [bindIndex [buffer bufferType]]. unfold bindBuffer.
  intros H. exec_in H. destruct bufferType; try done.
  exec_in H. injection H as <-.
  eexists. split.
  - unfold continues. cbn [created replacedBy nextValue].
    rewrite <- !app_assoc.
    split; [reflexivity|]. split; [done|]. split; [lia|].
    repeat constructor; simpl; lia.
  - reflexivity.
Qed.

Lemma bind_loop_continues env ds (l : list (nat * (Value * Ty))) r r1 :
  forM_ l (bindBuffer env ds) r = Continue tt r1 ->
  exists new, continues r r1 new /\
              callees new = replicate (length l) kVkBindBuffer.
Proof.
  revert r. induction l as [|arg l IH]; intros r H; simpl in *.
  - injection H as <-. exists []. split; [apply continues_refl|done].
  - rewrite bind_unfold in H.
    destruct (bindBuffer env ds arg r) as [[] r0|r0|] eqn:E; [|done|done].
    apply bindBuffer_continues in E as (n1 & C1 & K1).
    apply IH in H as (n2 & C2 & K2).
    exists (n1 ++ n2). split; [by eapply continues_trans|].
    by rewrite callees_app, K1, K2.
Qed.

Lemma bind_gridConstant {B} ir v (f : option Attribute -> M B) r b r' :
  (gridConstant ir v ≫= f) r = Continue b r' ->
  exists o, getDefiningOp ir v = Some o /\
            f (getAttrOfType_IntegerAttr o "value") r = Continue b r'.
Proof.
  rewrite bind_unfold. unfold gridConstant.
  destruct (getDefiningOp ir v) as [o|]; [|done].
  intros H. exists o. split; [done|exact H].
Qed.

(** What a successful lowering of one launch creates, in order. *)
Lemma matchAndRewrite_success modulesMap scheduleFuncNum ir st op operands r st' r' :
  matchAndRewrite modulesMap scheduleFuncNum ir st op operands r = Continue st' r' ->
  exists env pre post v,
    operands !! 0%nat = Some env /\
    created r' = created r ++ pre
                 ++ emitTransfers env
                      (transfers_interleaved (bufferMap st)
                         (scheduleFuncIndex st) 0 (bufferOperands ir op)) v
                 ++ post /\
    (nextValue r <= v)%N /\
    ids_below v pre /\
    callees pre = replicate (length (bufferOperands ir op)) kVkBindBuffer
                  ++ [kVkCreateLaunchKernelAction; kVkSetLaunchKernelAction] /\
    callees post = kVkScheduleFunc ::
                   (if decide (scheduleFuncIndex st = wrap32 (scheduleFuncNum - 1))
                    then [kVkRun] else []) /\
    st' = MkPatternState (wrap32 (scheduleFuncIndex st + 1))
            (producers_from (bufferMap st) (scheduleFuncIndex st) 0
               (bufferOperands ir op)).
Proof.
  unfold matchAndRewrite.
  destruct (modulesMap !! getKernelModuleName (body op)) as [bm|]; [|done].
  destruct (kernelsNameMap bm !! getKernelName (body op)) as [gn|]; [|done].
  destruct operands as [|env deps]; [done|].
  unfold getPtrToBinaryModule. intros H.
  exec_in H.
  apply bind_gridConstant in H as (ox & _ & H).
  apply bind_gridConstant in H as (oy & _ & H).
  apply bind_gridConstant in H as (oz & _ & H).
  exec_in H.
  loop_in H r1 E1.
  apply bind_loop_continues in E1 as (nb & (C1 & R1 & N1 & B1) & K1).
  cbn [nextValue created replacedBy] in C1, R1, N1.
  exec_in H. rewrite bind_unfold in H.
  match type of H with
  | context [memoryTransfers ?e ?i ?n ?b ?m ?R] =>
      destruct (memoryTransfers_spec e i n b m R) as (next' & Hmt & Hle);
      rewrite Hmt in H; clear Hmt
  end.
  cbn [nextValue created replacedBy] in H, Hle.
  exec_in H.
  set (v0 := nextValue r) in *.
  set (ws := transfers_interleaved (bufferMap st) (scheduleFuncIndex st) 0
               ((fun a : Value * Ty => (getRemappedValue ir a.1, a.2))
                  <$> kernelOperands (body op)).*1) in *.
  assert (ids_below (N.succ (N.succ (N.succ (nextValue r1)))) nb) as B1'
    by (eapply ids_below_mono; [|exact B1]; lia).
  assert (forall post,
            callees post = kVkScheduleFunc ::
              (if decide (scheduleFuncIndex st = wrap32 (scheduleFuncNum - 1))
               then [kVkRun] else []) ->
            forall rest,
            rest = ((((created r1 ++ [(nextValue r1,
                 LLVM_CallOp [Some LLVMVoid] kVkCreateLaunchKernelAction
                   [env; v0; N.succ v0; N.succ (N.succ v0);
                    N.succ (N.succ (N.succ v0));
                    N.succ (N.succ (N.succ (N.succ v0)));
                    N.succ (N.succ (N.succ (N.succ (N.succ v0))))])]) ++
               [(N.succ (nextValue r1),
                 LLVM_ConstantOp LLVMInt32
                   (Some (getI32IntegerAttr
                            (default 1%Z (subgroupSizeTag (body op))))))]) ++
               [(N.succ (N.succ (nextValue r1)),
                 LLVM_CallOp [Some LLVMVoid] kVkSetLaunchKernelAction
                   [env; N.succ (nextValue r1)])]) ++
               emitTransfers env ws (N.succ (N.succ (N.succ (nextValue r1)))))
              ++ post ->
            exists pre post v,
              rest = created r ++ pre ++ emitTransfers env ws v ++ post /\
              (v0 <= v)%N /\ ids_below v pre /\
              callees pre = replicate (length (bufferOperands ir op)) kVkBindBuffer
                  ++ [kVkCreateLaunchKernelAction; kVkSetLaunchKernelAction] /\
              callees post = kVkScheduleFunc ::
                (if decide (scheduleFuncIndex st = wrap32 (scheduleFuncNum - 1))
                 then [kVkRun] else [])) as Hshape.
  { intros post Hpost rest ->.
    rewrite <- !app_assoc in C1. cbn [app] in C1.
    match type of C1 with
    | _ = _ ++ ?L =>
        exists (L ++ [(nextValue r1,
                 LLVM_CallOp [Some LLVMVoid] kVkCreateLaunchKernelAction
                   [env; v0; N.succ v0; N.succ (N.succ v0);
                    N.succ (N.succ (N.succ v0));
                    N.succ (N.succ (N.succ (N.succ v0)));
                    N.succ (N.succ (N.succ (N.succ (N.succ v0))))]);
                (N.succ (nextValue r1),
                 LLVM_ConstantOp LLVMInt32
                   (Some (getI32IntegerAttr
                            (default 1%Z (subgroupSizeTag (body op))))));
                (N.succ (N.succ (nextValue r1)),
                 LLVM_CallOp [Some LLVMVoid] kVkSetLaunchKernelAction
                   [env; N.succ (nextValue r1)])]),
          post, (N.succ (N.succ (N.succ (nextValue r1))))
    end.
    split; [rewrite C1; rewrite <- !app_assoc; cbn [app]; reflexivity|].
    split; [lia|]. split; [|split; [|done]].
    - apply ids_below_app. split.
      + unfold ids_below.
        repeat (apply Forall_cons; split; [simpl; lia|]). exact B1'.
      + repeat constructor; simpl; lia.
    - unfold callees. rewrite omap_app. cbn [omap list_omap calleeOf snd].
      fold (callees nb). rewrite K1.
      unfold bufferOperands. rewrite length_imap, !length_fmap. reflexivity. }
  exists env.
  destruct (decide (scheduleFuncIndex st = wrap32 (scheduleFuncNum - 1)))
    as [Hlast|Hlast].
  - exec_in H. injection H as <- <-. cbn [created].
    destruct (Hshape
                [(next', LLVM_CallOp [convertType (getType op)] kVkScheduleFunc [env]);
                 (N.succ next', LLVM_CallOp [Some LLVMVoid] kVkRun [env])]
                eq_refl _ eq_refl) as (pre & post & v & E & ? & ? & ? & ?).
    exists pre, post, v.
    split; [done|]. split; [rewrite <- (app_assoc _ [_] [_]); exact E|].
    by repeat split.
  - exec_in H. injection H as <- <-. cbn [created].
    destruct (Hshape
                [(next', LLVM_CallOp [convertType (getType op)] kVkScheduleFunc [env])]
                eq_refl _ eq_refl) as (pre & post & v & E & ? & ? & ? & ?).
    exists pre, post, v.
    split; [done|]. split; [exact E|].
    by repeat split.
Qed.



Lemma apply_success modulesMap scheduleFuncNum ir st op next r st' :
  apply modulesMap scheduleFuncNum ir st op next = Some (success, r, st') ->
  matchAndRewrite modulesMap scheduleFuncNum ir st op
    (getRemappedValue ir <$> getOperands op) (emptyRewriter next)
  = Continue st' r.
Proof.
  unfold apply.
  destruct (matchAndRewrite _ _ _ _ _ _ _) as [a r0|r0|]; [|done|done].
  by intros [= <- <-].
Qed.

Lemma transfer_not_in_prefix n :
  kVkCreateMemoryTransferAction
    ∉ replicate n kVkBindBuffer
      ++ [kVkCreateLaunchKernelAction; kVkSetLaunchKernelAction].
Proof.
  intros H. apply elem_of_app in H as [H|H].
  - by apply elem_of_replicate in H as [? _].
  - repeat (apply elem_of_cons in H as [H|H]; [done|]). by apply elem_of_nil in H.
Qed.

(** The calls a successful lowering of one launch creates, the wirings
    of its transfers, and the pattern state it leaves. *)
Lemma apply_success_shape modulesMap scheduleFuncNum ir st op next r st' :
  apply modulesMap scheduleFuncNum ir st op next = Some (success, r, st') ->
  let buffers := bufferOperands ir op in
  let ws := transfers_interleaved (bufferMap st) (scheduleFuncIndex st) 0 buffers in
  callees (created r)
  = replicate (length buffers) kVkBindBuffer
    ++ [kVkCreateLaunchKernelAction; kVkSetLaunchKernelAction]
    ++ replicate (length ws) kVkCreateMemoryTransferAction
    ++ kVkScheduleFunc ::
       (if decide (scheduleFuncIndex st = wrap32 (scheduleFuncNum - 1))
        then [kVkRun] else []) /\
  transferWirings (created r) = asI64 <$> ws /\
  st' = MkPatternState (wrap32 (scheduleFuncIndex st + 1))
          (producers_from (bufferMap st) (scheduleFuncIndex st) 0 buffers).
Proof.
  intros H buffers ws. apply apply_success in H.
  apply matchAndRewrite_success in H
    as (env & pre & post & v & _ & E & _ & Hb & Kpre & Kpost & ->).
  cbn [created emptyRewriter] in E. rewrite app_nil_l in E.
  fold buffers in E, Kpre. fold ws in E. rewrite E. split; [|split; [|done]].
  - rewrite !callees_app, callees_emitTransfers, Kpre, Kpost.
    by rewrite <- !app_assoc.
  - apply transferWirings_groups; [done| |].
    + rewrite Kpre. apply transfer_not_in_prefix.
    + rewrite Kpost. intros H.
      apply elem_of_cons in H as [H|H]; [done|].
      case_decide; [apply elem_of_cons in H as [H|H]; [done|]|];
        by apply elem_of_nil in H.
Qed.

End VulkanScheduleFunc.

Section VulkanPassFacts.
Import MLIR Observe CompToVulkan CompToVulkan.ConvertScheduleFunc.

Lemma wrap32_small n : (0 <= n < 2 ^ 32)%Z -> wrap32 n = n.
Proof. intros H. unfold wrap32. by apply Z.mod_small. Qed.

Lemma run_in_callees n k (b : bool) :
  kVkRun ∈ replicate n kVkBindBuffer
           ++ [kVkCreateLaunchKernelAction; kVkSetLaunchKernelAction]
           ++ replicate k kVkCreateMemoryTransferAction
           ++ kVkScheduleFunc :: (if b then [kVkRun] else [])
  <-> b = true.
Proof.
  rewrite !elem_of_app, !elem_of_cons, !elem_of_replicate. destruct b.
  - split; [done|]. intros _. do 3 right. right. by left.
  - split; [|done]. intros [[? _]|[[?|[?|H]]|[[? _]|[?|H]]]]; try done;
      by apply elem_of_nil in H.
Qed.

(** The run call is created during the lowering of a launch exactly when
    the pattern's step counter equals the launch count minus one, in
    32-bit unsigned arithmetic. *)
Lemma run_iff_step_is_count_minus_one
  modulesMap scheduleFuncNum ir st op next r st' :
  apply modulesMap scheduleFuncNum ir st op next = Some (success, r, st') ->
  (kVkRun ∈ callees (created r)
   <-> scheduleFuncIndex st = wrap32 (scheduleFuncNum - 1)) /\
  scheduleFuncIndex st' = wrap32 (scheduleFuncIndex st + 1).
Proof.
  intros H. apply apply_success_shape in H as (K & _ & ->). split; [|done].
  rewrite K. case_decide as Hd.
  - rewrite (run_in_callees _ _ true). done.
  - rewrite (run_in_callees _ _ false). split; [done|]. intros E. by destruct Hd.
Qed.

Lemma count_foldl {A} (l : list A) (a : Z) :
  (0 <= a)%Z -> (a + Z.of_nat (length l) < 2 ^ 32)%Z ->
  foldl (fun scheduleFuncNum _ => wrap32 (scheduleFuncNum + 1)) a l
  = (a + Z.of_nat (length l))%Z.
Proof.
  revert a. induction l as [|x l IH]; intros a Ha Hlt; simpl in *; [lia|].
  rewrite wrap32_small by lia. rewrite IH by lia. lia.
Qed.

Lemma countScheduleFuncs_length m :
  (Z.of_nat (length (walkScheduleFuncs m)) < 2 ^ 32)%Z ->
  countScheduleFuncs m = Z.of_nat (length (walkScheduleFuncs m)).
Proof. intros H. unfold countScheduleFuncs. by rewrite count_foldl by lia. Qed.

Lemma convertScheduleFuncs_success modulesMap n ir ops st next outs :
  (0 <= scheduleFuncIndex st)%Z ->
  (scheduleFuncIndex st + Z.of_nat (length ops) < 2 ^ 32)%Z ->
  convertScheduleFuncs modulesMap n ir st next ops = Some (success, outs) ->
  length outs = length ops /\
  forall i out, outs !! i = Some out ->
    (kVkRun ∈ callees out
     <-> (scheduleFuncIndex st + Z.of_nat i)%Z = wrap32 (n - 1)).
Proof.
  revert st next outs. induction ops as [|op ops IH]; intros st next outs H0 Hlt H.
  - injection H as <-. split; [done|]. intros i out Hi. done.
  - simpl in H, Hlt.
    destruct (apply modulesMap n ir st op next) as [[[[] r] st']|] eqn:E;
      [|done|done].
    destruct (convertScheduleFuncs modulesMap n ir st' (nextValue r) ops)
      as [[res outs']|] eqn:E'; [|done].
    injection H as -> <-.
    apply run_iff_step_is_count_minus_one in E as [Hrun Hidx].
    rewrite wrap32_small in Hidx by lia.
    apply IH in E' as [Hlen Hrest]; [|lia|lia].
    split; [simpl; by rewrite Hlen|].
    intros [|i] out Hi; simpl in Hi.
    + injection Hi as <-. by rewrite Z.add_0_r.
    + rewrite (Hrest i out Hi), Hidx. 
      replace (scheduleFuncIndex st + 1 + Z.of_nat i)%Z
        with (scheduleFuncIndex st + Z.of_nat (S i))%Z by lia. done.
Qed.

(** Each output of a conversion that went through is what the pattern
    created for the launch at the same position, applied with the step
    counter at that position. *)
Lemma convertScheduleFuncs_steps modulesMap n ir ops st next outs :
  (0 <= scheduleFuncIndex st)%Z ->
  (scheduleFuncIndex st + Z.of_nat (length ops) < 2 ^ 32)%Z ->
  convertScheduleFuncs modulesMap n ir st next ops = Some (success, outs) ->
  forall i out, outs !! i = Some out ->
    exists op sti nexti r st',
      ops !! i = Some op /\
      scheduleFuncIndex sti = (scheduleFuncIndex st + Z.of_nat i)%Z /\
      apply modulesMap n ir sti op nexti = Some (success, r, st') /\
      created r = out.
Proof.
  revert st next outs. induction ops as [|op ops IH]; intros st next outs H0 Hlt H.
  - injection H as <-. intros i out Hi. done.
  - simpl in H, Hlt.
    destruct (apply modulesMap n ir st op next) as [[[[] r] st']|] eqn:E;
      [|done|done].
    destruct (convertScheduleFuncs modulesMap n ir st' (nextValue r) ops)
      as [[res outs']|] eqn:E'; [|done].
    injection H as -> <-.
    pose proof (run_iff_step_is_count_minus_one _ _ _ _ _ _ _ _ E) as [_ Hidx].
    rewrite wrap32_small in Hidx by lia.
    intros [|i] out Hi; simpl in Hi.
    + injection Hi as <-. exists op, st, next, r, st'.
      rewrite Z.add_0_r. done.
    + destruct (IH st' (nextValue r) outs') with (i := i) (out := out)
        as (op' & sti & nexti & r' & st'' & O & S & A & C); [lia|lia|done|done|].
      exists op', sti, nexti, r', st''. repeat split; try done.
      rewrite S, Hidx. lia.
Qed.

Lemma walk_launchOps m : walkScheduleFuncs m = launchOps m.
Proof.
  induction m as [|o m IH]; [done|].
  change (walkScheduleFuncs (o :: m))
    with (match o with
          | FuncOp _ ops => omap id ops
          | LLVMFuncOp _ _ => []
          end ++ walkScheduleFuncs m).
  rewrite IH. destruct o as [sym ty|sym ops]; [done|].
  cbn [launchOps]. f_equal.
Qed.

(** C6. The pass counts the kernel launches of the module before it
    converts anything: the walk visits the launches of the function
    bodies in module order and the count is their number.  When the
    conversion goes through, there is one output per launch, each is what
    the pattern created for the launch at its position with the step
    counter at that position, and the call of [vkRun] is among the
    operations created for the launch at position [i] exactly when [i] is
    the count minus one: it is created for the last launch, and for no
    other. *)
Theorem vk_run_emitted_only_for_last_launch
  (modulesMap : gmap string BinaryModule) (ir : IR) (m : ModuleOp)
  (outs : list (list (Value * NewOp))) :
  (Z.of_nat (length (launchOps m)) < 2 ^ 32)%Z ->
  runOnOperation modulesMap ir m = Some (success, outs) ->
  walkScheduleFuncs m = launchOps m /\
  countScheduleFuncs m = Z.of_nat (length (launchOps m)) /\
  length outs = length (launchOps m) /\
  (forall i out, outs !! i = Some out ->
     (kVkRun ∈ callees out <-> Z.of_nat i = (countScheduleFuncs m - 1)%Z)) /\
  (forall i out, outs !! i = Some out ->
     exists op st next r st',
       launchOps m !! i = Some op /\
       scheduleFuncIndex st = Z.of_nat i /\
       apply modulesMap (countScheduleFuncs m) ir st op next
       = Some (success, r, st') /\
       created r = out) /\
  (forall n, length (launchOps m) = S n ->
     callsRun <$> outs = replicate n false ++ [true]).
Proof.
  intros Hlen H. unfold runOnOperation in H.
  pose proof (walk_launchOps m) as Hwalk.
  assert (countScheduleFuncs m = Z.of_nat (length (launchOps m))) as Hcount
    by (rewrite <- Hwalk; apply countScheduleFuncs_length; by rewrite Hwalk).
  rewrite Hwalk in H.
  assert (0 <= scheduleFuncIndex initialState)%Z as H0 by (simpl; lia).
  assert (scheduleFuncIndex initialState + Z.of_nat (length (launchOps m))
          < 2 ^ 32)%Z as Hlt by (simpl; lia).
  pose proof (convertScheduleFuncs_steps _ _ _ _ _ _ _ H0 Hlt H) as Hsteps.
  apply convertScheduleFuncs_success in H as [Hl Hrun]; [|simpl; lia|simpl; lia].
  assert (forall i out, outs !! i = Some out ->
            (kVkRun ∈ callees out <-> Z.of_nat i = (countScheduleFuncs m - 1)%Z))
    as Hiff.
  { intros i out Hi. rewrite (Hrun i out Hi). simpl.
    assert (i < length outs)%nat by (by eapply lookup_lt_Some).
    rewrite Hcount. rewrite wrap32_small by lia. lia. }
  split; [done|]. split; [done|]. split; [done|]. split; [done|].
  split.
  - intros i out Hi.
    destruct (Hsteps i out Hi) as (op & st & next & r & st' & O & S & A & C).
    exists op, st, next, r, st'. simpl in S. by rewrite S in *.
  - intros n Hn. apply list_eq. intros i.
    rewrite list_lookup_fmap.
    destruct (outs !! i) as [out|] eqn:Hi; simpl.
    + assert (i < length outs)%nat by (by eapply lookup_lt_Some).
      unfold callsRun.
      destruct (decide (i = n)) as [->|Hne].
      * rewrite list_lookup_middle by (by rewrite length_replicate).
        f_equal. apply bool_decide_eq_true. apply (Hiff n out Hi). lia.
      * rewrite lookup_app_l by (rewrite length_replicate; lia).
        rewrite lookup_replicate_2 by lia.
        f_equal. apply bool_decide_eq_false. rewrite (Hiff i out Hi). lia.
    + apply lookup_ge_None in Hi. symmetry. apply lookup_ge_None.
      rewrite length_app, length_replicate. simpl. lia.
Qed.

Lemma vk_run_emitted_only_for_last_launch_witness :
  let modulesMap : gmap string BinaryModule :=
    {[ "kernels" := MkBinaryModule [7%N] {[ "main" := "main_kernel" ]} ]} in
  let ir := MkIR {[ 50%N := MkOperation "std.constant"
                              [("value", IntegerAttr 64 8)] ]} ∅ in
  let grid := MkDim3 50 50 50 in
  let memref := MemRefType [16%Z] F32 0 in
  let launch args := MkScheduleFunc (EventType Vulkan) [1%N]
                       (MkLaunchFuncOp "kernels" "main" grid grid args None) in
  let m := [FuncOp "main"
              [Some (launch [(20%N, memref); (21%N, memref)]); None;
               Some (launch [(21%N, memref); (22%N, memref)])];
            LLVMFuncOp "vkRun" (getFunctionTy LLVMVoid [LLVMInt8Ptr] false);
            FuncOp "other" [Some (launch [(23%N, memref)])]] in
  let outs := outputsOf (runOnOperation modulesMap ir m) in
  runOnOperation modulesMap ir m = Some (success, outs) /\
  countScheduleFuncs m = 3%Z /\
  length outs = 3%nat /\
  callsRun <$> outs = [false; false; true].
Proof.
  intros modulesMap ir grid memref launch m outs.
  assert (runOnOperation modulesMap ir m = Some (success, outs)) as H
    by (vm_compute; reflexivity).
  assert (Z.of_nat (length (launchOps m)) < 2 ^ 32)%Z as Hlen
    by (vm_compute; reflexivity).
  destruct (vk_run_emitted_only_for_last_launch modulesMap ir m outs Hlen H)
    as (_ & Hcount & Hl & _ & _ & Hlast).
  split; [exact H|]. split; [exact Hcount|]. split; [exact Hl|].
  exact (Hlast 2%nat eq_refl).
Defined.

End VulkanPassFacts.

Section VulkanBookkeeping.
Import MLIR Observe CompToVulkan CompToVulkan.ConvertScheduleFunc.

Lemma producers_from_0 (bufferMap : gmap N (Z * Z)) step buffers :
  producers_from bufferMap step 0 buffers
  = producers_as_stated bufferMap step buffers.
Proof. reflexivity. Qed.

Lemma lookups_skip_insert (bufferMap : gmap N (Z * Z)) (step : Z) b v
      (f : nat -> nat) (rest : list Value) :
  b ∉ rest ->
  omap (fun '((j, b0) : nat * Value) => (fun src : Z * Z => (src, (step, Z.of_nat j)))
                          <$> <[b:=v]> bufferMap !! b0)
       (imap (fun j b0 => (f j, b0)) rest)
  = omap (fun '((j, b0) : nat * Value) => (fun src : Z * Z => (src, (step, Z.of_nat j)))
                            <$> bufferMap !! b0)
         (imap (fun j b0 => (f j, b0)) rest).
Proof.
  revert f. induction rest as [|c rest IH]; intros f Hb; [done|].
  apply not_elem_of_cons in Hb as [Hne Hb].
  cbn [imap omap list_omap]. rewrite lookup_insert_ne by done.
  change ((fun j b0 => (f j, b0)) ∘ S) with (fun j (b0 : Value) => ((f ∘ S) j, b0)).
  by rewrite (IH (f ∘ S) Hb).
Qed.

(** With pairwise distinct argument buffers no argument sees an entry
    written for an earlier argument of the same launch: the alternating
    loop asks for the transfers of the entries the map had on entry. *)
Lemma transfers_interleaved_NoDup (bufferMap : gmap N (Z * Z)) (step : Z) i buffers :
  NoDup buffers ->
  transfers_interleaved bufferMap step i buffers
  = omap (fun '((j, b) : nat * Value) => (fun src => (src, (step, Z.of_nat j))) <$> bufferMap !! b)
         (imap (fun j b => ((i + j)%nat, b)) buffers).
Proof.
  revert bufferMap i. induction buffers as [|b rest IH]; intros bufferMap i Hnd;
    [done|].
  apply NoDup_cons in Hnd as [Hb Hnd].
  cbn [transfers_interleaved imap omap list_omap].
  rewrite Nat.add_0_r, IH by done.
  rewrite (lookups_skip_insert bufferMap step b _ (fun j => (S i + j)%nat)) by done.
  rewrite (imap_ext ((fun j b0 => ((i + j)%nat, b0)) ∘ S)
                    (fun j (b0 : Value) => ((S i + j)%nat, b0)) rest)
    by (intros; simpl; f_equal; lia).
  destruct (bufferMap !! b); done.
Qed.

Lemma transfers_interleaved_as_stated (bufferMap : gmap N (Z * Z)) step buffers :
  NoDup buffers ->
  transfers_interleaved bufferMap step 0 buffers
  = transfers_as_stated bufferMap step buffers.
Proof. intros H. by rewrite transfers_interleaved_NoDup. Qed.

(** C5, as the code has it.  A successful lowering of a launch at step
    [s] first binds the buffers and creates and configures the
    launch-kernel action, then creates the memory transfers, then the
    call that replaces the launch.  The transfers are found argument by
    argument: an argument whose buffer is in the map at that moment gets
    one transfer from the recorded (step, binding) to (s, position), and
    the entry is then overwritten with (s, position).  With pairwise
    distinct argument buffers these are the transfers of the buffers the
    map held before the step.  The map afterwards records (s, position)
    for every argument buffer. *)
Theorem vk_transfers_after_launch_action
  (modulesMap : gmap string BinaryModule) (scheduleFuncNum : Z) (ir : IR)
  (st st' : PatternState) (op : ScheduleFunc) (next : N) (r : Rewriter) :
  apply modulesMap scheduleFuncNum ir st op next = Some (success, r, st') ->
  let buffers := bufferOperands ir op in
  let step := scheduleFuncIndex st in
  let ws := transfers_interleaved (bufferMap st) step 0 buffers in
  callees (created r)
  = replicate (length buffers) kVkBindBuffer
    ++ [kVkCreateLaunchKernelAction; kVkSetLaunchKernelAction]
    ++ replicate (length ws) kVkCreateMemoryTransferAction
    ++ kVkScheduleFunc ::
       (if decide (step = wrap32 (scheduleFuncNum - 1)) then [kVkRun] else []) /\
  transferWirings (created r) = asI64 <$> ws /\
  (NoDup buffers -> ws = transfers_as_stated (bufferMap st) step buffers) /\
  bufferMap st' = producers_as_stated (bufferMap st) step buffers.
Proof.
  intros H buffers step ws.
  apply apply_success_shape in H as (K & W & ->).
  split; [exact K|]. split; [exact W|]. split; [|done].
  apply transfers_interleaved_as_stated.
Qed.

Lemma vk_transfers_after_launch_action_witness :
  let out1 := apply Scenario.modulesMap 3 Scenario.ir initialState
                Scenario.launch1 100 in
  let st1 := stateAfter out1 in
  let out2 := apply Scenario.modulesMap 3 Scenario.ir st1 Scenario.launch2 200 in
  let r := rewriterOf out2 in
  out2 = Some (success, r, stateAfter out2) /\
  callees (created r)
  = ["vkBindBuffer"; "vkBindBuffer"; "vkCreateLaunchKernelAction";
     "vkSetLaunchKernelAction"; "vkCreateMemoryTransferAction"; "vkScheduleFunc"] /\
  transferWirings (created r) = [((0, 1), (1, 0))%Z] /\
  bufferMap (stateAfter out2)
  = producers_as_stated (bufferMap st1) 1 [21%N; 22%N].
Proof.
  intros out1 st1 out2 r.
  assert (out2 = Some (success, r, stateAfter out2)) as H
    by (vm_compute; reflexivity).
  destruct (vk_transfers_after_launch_action
              Scenario.modulesMap 3 Scenario.ir st1 (stateAfter out2)
              Scenario.launch2 200 r H) as (K & W & _ & P).
  split; [exact H|]. split; [|split].
  - etrans; [exact K|]. vm_compute; reflexivity.
  - etrans; [exact W|]. vm_compute; reflexivity.
  - etrans; [exact P|]. vm_compute; reflexivity.
Defined.

(** C5, as worded.  For a launch that binds one buffer at two argument
    positions, with nothing in the map, the wording asks for no transfer;
    the lowering creates one, from the first position to the second of
    the same step, and it creates it after the launch-kernel action. *)
Lemma vk_bookkeeping_as_stated_counterexample :
  ~ bookkeeping_as_stated initialState
      (bufferOperands Scenario.ir Scenario.launchTwice)
      (apply Scenario.modulesMap 1 Scenario.ir initialState
         Scenario.launchTwice 100) /\
  transfers_as_stated (bufferMap initialState) (scheduleFuncIndex initialState)
    (bufferOperands Scenario.ir Scenario.launchTwice) = [] /\
  transferWirings
    (createdBy (apply Scenario.modulesMap 1 Scenario.ir initialState
                  Scenario.launchTwice 100))
  = [((0, 0), (0, 1))%Z] /\
  ~ transfers_precede_launch
      (callees (createdBy (apply Scenario.modulesMap 1 Scenario.ir initialState
                             Scenario.launchTwice 100))).
Proof.
  assert (apply Scenario.modulesMap 1 Scenario.ir initialState
            Scenario.launchTwice 100
          = Some (success,
                  rewriterOf (apply Scenario.modulesMap 1 Scenario.ir initialState
                                Scenario.launchTwice 100),
                  stateAfter (apply Scenario.modulesMap 1 Scenario.ir initialState
                                Scenario.launchTwice 100))) as Hout
    by (vm_compute; reflexivity).
  assert (transferWirings
            (createdBy (apply Scenario.modulesMap 1 Scenario.ir initialState
                          Scenario.launchTwice 100))
          = [((0, 0), (0, 1))%Z]) as HW by (vm_compute; reflexivity).
  split; [|split; [|split]].
  - intros H. destruct (H _ _ Hout) as (W & _ & _).
    rewrite Hout in HW. cbn [createdBy] in HW. rewrite HW in W.
    vm_compute in W. discriminate W.
  - vm_compute; reflexivity.
  - exact HW.
  - intros H. specialize (H 4%nat 2%nat).
    assert (4 < 2)%nat; [|lia].
    apply H; vm_compute; reflexivity.
Qed.

(** C2.  The first grid size of [Scenario.launchComputedGrid] is the
    result of an addition.  Its lowering reports success, and the
    launch-kernel action it creates takes as first grid size a constant
    with a null value.  When the grid size is a block argument the
    lowering dereferences a null pointer. *)
Theorem vk_nonconstant_grid_not_rejected :
  resultOf (apply Scenario.modulesMap 1 Scenario.ir initialState
              Scenario.launchComputedGrid 100) = Some success /\
  createdBy (apply Scenario.modulesMap 1 Scenario.ir initialState
               Scenario.launchComputedGrid 100) !! 3%nat
  = Some (103%N, LLVM_ConstantOp LLVMInt32 None) /\
  createdBy (apply Scenario.modulesMap 1 Scenario.ir initialState
               Scenario.launchComputedGrid 100) !! 12%nat
  = Some (112%N, LLVM_CallOp [Some LLVMVoid] kVkCreateLaunchKernelAction
                   [1%N; 100%N; 101%N; 102%N; 103%N; 104%N; 105%N]) /\
  apply Scenario.modulesMap 1 Scenario.ir initialState
        Scenario.launchArgumentGrid 100 = None.
Proof. repeat split; vm_compute; reflexivity. Qed.

End VulkanBookkeeping.

(* ===================================================================== *)
(** * Further properties of the driver-A launch lowering                  *)
(* ===================================================================== *)

(** Runs the straight-line part of a pattern that heads the goal. *)
Ltac exec :=
  repeat (first
    [ rewrite bind_create
    | rewrite bind_replace
    | rewrite bind_mret
    | rewrite bind_operand
    | rewrite bind_assoc ];
    cbv beta iota;
    cbn [MLIR.nextValue MLIR.created MLIR.replacedBy]).

Section OclLaunchFacts.
Import MLIR Observe.

Lemma callees_split l1 l2 : callees (l1 ++ l2) = callees l1 ++ callees l2.
Proof. apply omap_app. Qed.

(** The loop "Set kernel arguments": three operations per argument, the
    last a call of [oclSetKernelArg]; it always goes through. *)
Lemma setKernelArg_loop ir kernel (l : list (nat * Value)) r :
  exists r1 new,
    forM_ l (fun '(argI, kernelOperand) =>
               argIndex ← createIndexConstant (Z.of_nat argI);
               let remappedArg := getRemappedValue ir kernelOperand in
               buffer ← create (deviceMemrefToMem remappedArg);
               _ ← create (LLVM_CallOp [] CompToOcl.kOclSetKernelArg
                             [kernel; argIndex; buffer]);
               mret tt) r = Continue tt r1 /\
    created r1 = created r ++ new /\
    replacedBy r1 = replacedBy r /\
    callees new = replicate (length l) CompToOcl.kOclSetKernelArg.
Proof.
  revert r. induction l as [|[argI kernelOperand] l IH]; intros r.
  - exists r, []. rewrite app_nil_r. by repeat split.
  - cbn [forM_]. unfold createIndexConstant. exec.
    edestruct IH as (r1 & new & -> & C & R & K). cbn [created replacedBy] in C, R.
    rewrite <- !app_assoc in C. cbn [app] in C.
    match type of C with _ = _ ++ ?L => exists r1, L end.
    split; [reflexivity|]. split; [exact C|]. split; [exact R|].
    unfold callees. cbn [omap list_omap calleeOf snd]. fold (callees new).
    by rewrite K.
Qed.

(** The loop "Set event dependencies": one call of [oclAddKernelDep] per
    event; it always goes through. *)
Lemma addKernelDep_loop kernel (l : list Value) r :
  exists r1 new,
    forM_ l (fun event =>
               _ ← create (LLVM_CallOp [] CompToOcl.kOclAddKernelDep
                             [kernel; event]);
               mret tt) r = Continue tt r1 /\
    created r1 = created r ++ new /\
    replacedBy r1 = replacedBy r /\
    callees new = replicate (length l) CompToOcl.kOclAddKernelDep.
Proof.
  revert r. induction l as [|event l IH]; intros r.
  - exists r, []. rewrite app_nil_r. by repeat split.
  - cbn [forM_]. exec.
    edestruct IH as (r1 & new & -> & C & R & K). cbn [created replacedBy] in C, R.
    rewrite <- !app_assoc in C. cbn [app] in C.
    match type of C with _ = _ ++ ?L => exists r1, L end.
    split; [reflexivity|]. split; [exact C|]. split; [exact R|].
    unfold callees. cbn [omap list_omap calleeOf snd]. fold (callees new).
    by rewrite K.
Qed.

(** How the OpenCL lowering of a launch ends, case by case.  It reports a
    failed match, having created nothing, when the event type does not
    convert (the launch belongs to another runtime), when the kernel
    binary is not in the modules map, or when the binary has no entry of
    the kernel's name.  Otherwise it reads the execution environment from
    an empty operand list, or it succeeds, and the native calls it
    creates are one [oclCreateKernel], one [oclSetKernelArg] per kernel
    operand, one [oclAddKernelDep] per dependency event, and
    [oclScheduleFunc]. *)
Theorem ocl_scheduleFunc_outcome
  (modulesMap : gmap string BinaryModule) (ir : IR) (op : ScheduleFunc)
  (operands : list Value) (r : Rewriter) :
  let run := CompToOcl.ConvertScheduleFunc.matchAndRewrite modulesMap ir op
               operands r in
  let entry := binaryModule ← modulesMap !! getKernelModuleName (body op);
               kernelsNameMap binaryModule !! getKernelName (body op) in
  match CompToOcl.convertType (getType op), entry with
  | None, _ | _, None => run = Failure r
  | Some _, Some _ =>
      match operands with
      | [] => run = Undefined
      | env :: events =>
          exists r' new,
            run = Continue tt r' /\
            created r' = created r ++ new /\
            callees new
            = [CompToOcl.kOclCreateKernel]
              ++ replicate (length (kernelOperands (body op)))
                           CompToOcl.kOclSetKernelArg
              ++ replicate (length events) CompToOcl.kOclAddKernelDep
              ++ [CompToOcl.kOclScheduleFunc]
      end
  end.
Proof.
  intros run entry. subst run entry.
  unfold CompToOcl.ConvertScheduleFunc.matchAndRewrite.
  destruct (CompToOcl.convertType (getType op)) as [ty|]; [|done].
  destruct (modulesMap !! getKernelModuleName (body op)) as [bm|]; [|done].
  cbn [mbind option_bind].
  destruct (kernelsNameMap bm !! getKernelName (body op)) as [gn|]; [|done].
  destruct operands as [|env events]; [done|].
  unfold getPtrToBinaryModule. exec.
  rewrite bind_unfold.
  match goal with
  | |- context [forM_ ?l ?b ?r0] =>
      destruct (setKernelArg_loop ir (N.succ (N.succ (N.succ (nextValue r)))) l r0)
        as (r1 & n1 & E1 & C1 & R1 & K1);
      replace (forM_ l b r0) with (@Continue unit tt r1) by (symmetry; exact E1)
  end.
  rewrite bind_unfold. cbn [drop]. rewrite drop_0.
  match goal with
  | |- context [forM_ ?l ?b ?r0] =>
      destruct (addKernelDep_loop (N.succ (N.succ (N.succ (nextValue r)))) l r0)
        as (r2 & n2 & E2 & C2 & R2 & K2);
      replace (forM_ l b r0) with (@Continue unit tt r2) by (symmetry; exact E2)
  end.
  exec.
  eexists _, _. split; [reflexivity|]. cbn [created].
  rewrite C2, C1. cbn [created]. rewrite <- !app_assoc. split; [reflexivity|].
  cbn [app]. unfold callees. cbn [omap list_omap calleeOf snd].
  rewrite !omap_app. fold (callees n1). fold (callees n2). rewrite K1, K2.
  rewrite length_imap. reflexivity.
Qed.

End OclLaunchFacts.

(* ===================================================================== *)
(** * Further properties of the driver-B launch lowering                  *)
(* ===================================================================== *)

Section VulkanLaunchFacts.
Import MLIR Observe LaunchChecks CompToVulkan CompToVulkan.ConvertScheduleFunc.

(** The run call is created during the lowering of a launch exactly when
    the pattern's step counter equals the launch count minus one, both
    taken as 32-bit unsigned numbers, and a successful lowering advances
    the counter by one, wrapping at 2^32. *)
Theorem vk_run_created_iff_counter_matches
  (modulesMap : gmap string BinaryModule) (scheduleFuncNum : Z) (ir : IR)
  (st st' : PatternState) (op : ScheduleFunc) (next : N) (r : Rewriter) :
  apply modulesMap scheduleFuncNum ir st op next = Some (success, r, st') ->
  (kVkRun ∈ callees (created r)
   <-> scheduleFuncIndex st = wrap32 (scheduleFuncNum - 1)) /\
  scheduleFuncIndex st' = wrap32 (scheduleFuncIndex st + 1).
Proof. apply run_iff_step_is_count_minus_one. Qed.

Lemma vk_run_created_iff_counter_matches_witness :
  let out := apply Scenario.modulesMap 0 Scenario.ir
               (MkPatternState 4294967295 ∅) Scenario.launch3 100 in
  out = Some (success, rewriterOf out, stateAfter out) /\
  (kVkRun ∈ callees (created (rewriterOf out))
   <-> 4294967295%Z = wrap32 (0 - 1)) /\
  scheduleFuncIndex (stateAfter out) = wrap32 (4294967295 + 1).
Proof.
  intros out.
  assert (out = Some (success, rewriterOf out, stateAfter out)) as H
    by (vm_compute; reflexivity).
  split; [exact H|].
  exact (vk_run_created_iff_counter_matches Scenario.modulesMap 0 Scenario.ir
           (MkPatternState 4294967295 ∅) (stateAfter out) Scenario.launch3 100
           (rewriterOf out) H).
Defined.

(** ** The map after a launch *)

Lemma producers_from_other (bufferMap : gmap N (Z * Z)) step i buffers b :
  b ∉ buffers -> producers_from bufferMap step i buffers !! b = bufferMap !! b.
Proof.
  revert bufferMap i. induction buffers as [|c rest IH]; intros bufferMap i Hb;
    [done|].
  apply not_elem_of_cons in Hb as [Hne Hb].
  rewrite producers_from_cons, IH by done. by rewrite lookup_insert_ne.
Qed.

Lemma producers_from_last (bufferMap : gmap N (Z * Z)) step i buffers b :
  producers_from bufferMap step i buffers !! b
  = match lastPosition b i buffers with
    | Some j => Some (step, Z.of_nat j)
    | None => bufferMap !! b
    end.
Proof.
  revert bufferMap i. induction buffers as [|c rest IH]; intros bufferMap i;
    [done|].
  rewrite producers_from_cons, IH. cbn [lastPosition].
  destruct (lastPosition b (S i) rest) as [j|]; [done|].
  case_decide as Hc.
  - subst. by rewrite lookup_insert_eq.
  - by rewrite lookup_insert_ne.
Qed.

(** After a successful lowering of a launch at step [s] the
    buffer-producer map answers, for a buffer the launch binds, with [s]
    and the last argument position that binds it, and for every other
    buffer as before. *)
Theorem vk_bufferMap_after_launch
  (modulesMap : gmap string BinaryModule) (scheduleFuncNum : Z) (ir : IR)
  (st st' : PatternState) (op : ScheduleFunc) (next : N) (r : Rewriter) :
  apply modulesMap scheduleFuncNum ir st op next = Some (success, r, st') ->
  forall b,
    bufferMap st' !! b
    = match lastPosition b 0 (bufferOperands ir op) with
      | Some j => Some (scheduleFuncIndex st, Z.of_nat j)
      | None => bufferMap st !! b
      end.
Proof.
  intros H b. apply apply_success_shape in H as (_ & _ & ->).
  apply producers_from_last.
Qed.

Lemma vk_bufferMap_after_launch_witness :
  let out := apply Scenario.modulesMap 3 Scenario.ir
               (MkPatternState 1 {[ 20%N := (0, 0)%Z; 21%N := (0, 1)%Z ]})
               Scenario.launch2 200 in
  out = Some (success, rewriterOf out, stateAfter out) /\
  bufferMap (stateAfter out) !! 20%N = Some (0, 0)%Z /\
  bufferMap (stateAfter out) !! 21%N = Some (1, 0)%Z /\
  bufferMap (stateAfter out) !! 22%N = Some (1, 1)%Z.
Proof.
  intros out.
  assert (out = Some (success, rewriterOf out, stateAfter out)) as H
    by (vm_compute; reflexivity).
  pose proof (vk_bufferMap_after_launch Scenario.modulesMap 3 Scenario.ir
                (MkPatternState 1 {[ 20%N := (0, 0)%Z; 21%N := (0, 1)%Z ]})
                (stateAfter out) Scenario.launch2 200 (rewriterOf out) H) as L.
  split; [exact H|]. split; [|split].
  - etrans; [exact (L 20%N)|]. vm_compute; reflexivity.
  - etrans; [exact (L 21%N)|]. vm_compute; reflexivity.
  - etrans; [exact (L 22%N)|]. vm_compute; reflexivity.
Defined.

(** ** How a lowering ends *)

Lemma bindBuffer_outcome env ds (arg : nat * (Value * Ty)) r :
  exists r1,
    bindBuffer env ds arg r
    = if isMemRefType arg.2.2 then Continue tt r1 else Failure r1.
Proof.
  destruct arg as [bindIndex [buffer bufferType]]. unfold bindBuffer.
  exec. destruct bufferType; cbn [isMemRefType snd]; by eexists.
Qed.

Lemma bind_loop_outcome env ds (l : list (nat * (Value * Ty))) r :
  exists r1,
    forM_ l (bindBuffer env ds) r
    = if forallb (fun arg : nat * (Value * Ty) => isMemRefType arg.2.2) l
      then Continue tt r1 else Failure r1.
Proof.
  revert r. induction l as [|arg l IH]; intros r; cbn [forM_ forallb].
  - by exists r.
  - rewrite bind_unfold.
    destruct (bindBuffer_outcome env ds arg r) as (r0 & ->).
    destruct (isMemRefType arg.2.2); cbn [andb]; [apply IH|by exists r0].
Qed.

Lemma forallb_fmap_snd_remap ir (l : list (Value * Ty)) :
  forallb (fun a : Value * Ty => isMemRefType a.2)
          ((fun a : Value * Ty => (getRemappedValue ir a.1, a.2)) <$> l)
  = forallb (fun a : Value * Ty => isMemRefType a.2) l.
Proof. induction l as [|a l IH]; [done|]. cbn. by rewrite IH. Qed.

Lemma forallb_imap_snd (l : list (Value * Ty)) :
  forallb (fun arg : nat * (Value * Ty) => isMemRefType arg.2.2)
          (imap (fun i a => (i, a)) l)
  = forallb (fun a : Value * Ty => isMemRefType a.2) l.
Proof.
  assert (forall (g : nat -> nat),
            forallb (fun arg : nat * (Value * Ty) => isMemRefType arg.2.2)
                    (imap (fun i a => (g i, a)) l)
            = forallb (fun a : Value * Ty => isMemRefType a.2) l) as H.
  { induction l as [|a l IH]; intros g; [done|].
    cbn [imap forallb snd]. f_equal. apply (IH (g ∘ S)). }
  apply (H id).
Qed.

(** How the Vulkan lowering of a launch ends, case by case.  A failed
    match comes from the kernel lookup (nothing has been created then) or
    from a kernel operand that is not a memref, and it leaves the
    pattern's step counter and buffer map as they were.  An empty operand
    list or a grid size without defining operation is read through a
    null or dangling pointer.  In every other case the lowering succeeds:
    whether the grid sizes are constants plays no part. *)
Theorem vk_scheduleFunc_outcome
  (modulesMap : gmap string BinaryModule) (scheduleFuncNum : Z) (ir : IR)
  (st : PatternState) (op : ScheduleFunc) (next : N) :
  let out := apply modulesMap scheduleFuncNum ir st op next in
  match kernelEntry modulesMap op with
  | None => out = Some (failure, emptyRewriter next, st)
  | Some _ =>
      match getOperands op with
      | [] => out = None
      | _ :: _ =>
          if gridDefined ir op then
            if allMemRefs op
            then resultOf out = Some success
            else resultOf out = Some failure /\ stateAfter out = st
          else out = None
      end
  end.
Proof.
  intros out. subst out. unfold kernelEntry, apply, matchAndRewrite.
  destruct (modulesMap !! getKernelModuleName (body op)) as [bm|]; [|done].
  cbn [mbind option_bind].
  destruct (kernelsNameMap bm !! getKernelName (body op)) as [gn|]; [|done].
  destruct (getOperands op) as [|env0 deps]; [done|].
  cbn [fmap list_fmap]. unfold getPtrToBinaryModule. exec.
  unfold gridDefined, gridConstant.
  destruct (getDefiningOp ir (x (getGridSizeOperandValues (body op))))
    as [ox|]; [|done].
  rewrite bool_decide_eq_true_2 by (by eexists). exec.
  destruct (getDefiningOp ir (y (getGridSizeOperandValues (body op))))
    as [oy|]; [|done].
  rewrite bool_decide_eq_true_2 by (by eexists). exec.
  destruct (getDefiningOp ir (z (getGridSizeOperandValues (body op))))
    as [oz|]; [|done].
  rewrite bool_decide_eq_true_2 by (by eexists). exec. cbn [andb].
  rewrite bind_unfold.
  match goal with
  | |- context [forM_ ?l (bindBuffer ?e ?d) ?r0] =>
      destruct (bind_loop_outcome e d l r0) as (r1 & ->)
  end.
  rewrite forallb_imap_snd.
  unfold allMemRefs.
  rewrite <- (forallb_fmap_snd_remap ir (kernelOperands (body op))).
  destruct (forallb _ _); [|done].
  exec. rewrite bind_unfold.
  match goal with
  | |- context [memoryTransfers ?e ?i ?n ?b ?m ?R] =>
      destruct (memoryTransfers_spec e i n b m R) as (next' & -> & _)
  end.
  exec.
  destruct (decide (scheduleFuncIndex st = wrap32 (scheduleFuncNum - 1)));
    exec; reflexivity.
Qed.

(** ** Descriptor bindings *)

Lemma bindBuffer_exact env ds arg r r1 :
  bindBuffer env ds arg r = Continue tt r1 ->
  r1 = MkRewriter (N.succ (N.succ (N.succ (N.succ (N.succ (nextValue r))))))
         (created r ++ bindGroup env ds arg (nextValue r)) (replacedBy r) /\
  isMemRefType arg.2.2 = true.
Proof.
  destruct arg as [bindIndex [buffer bufferType]]. unfold bindBuffer, bindGroup.
  intros H. exec_in H. destruct bufferType; try done.
  exec_in H. injection H as <-. cbn [snd fst]. split; [|done].
  by rewrite <- !app_assoc.
Qed.

Lemma bind_loop_exact env ds (l : list (nat * (Value * Ty))) r r1 :
  forM_ l (bindBuffer env ds) r = Continue tt r1 ->
  created r1 = created r ++ bindGroups env ds l (nextValue r) /\
  Forall (fun arg : nat * (Value * Ty) => isMemRefType arg.2.2 = true) l.
Proof.
  revert r. induction l as [|arg l IH]; intros r H; cbn [forM_] in H.
  - injection H as <-. simpl. by rewrite app_nil_r.
  - rewrite bind_unfold in H.
    destruct (bindBuffer env ds arg r) as [[] r0|r0|] eqn:E; [|done|done].
    apply bindBuffer_exact in E as [-> Hm].
    apply IH in H as [-> HF]. cbn [created nextValue bindGroups].
    rewrite <- app_assoc. split; [done|]. by constructor.
Qed.

Lemma ids_below_bindGroup env ds arg v :
  ids_below (N.succ (N.succ (N.succ (N.succ (N.succ v))))) (bindGroup env ds arg v).
Proof.
  unfold ids_below, bindGroup. destruct arg.2.2; repeat constructor; simpl; lia.
Qed.

Lemma definition_found pre l x o :
  definition pre x = Some o -> definition (pre ++ l) x = Some o.
Proof.
  induction pre as [|[v' o'] pre IH]; [done|]. simpl.
  case_decide; [done|]. apply IH.
Qed.

Lemma bindingOf_other L p : calleeOf p <> Some kVkBindBuffer -> bindingOf L p = None.
Proof.
  destruct p as [v o]. unfold calleeOf, bindingOf. simpl.
  destruct o as [tys callee ops| | | | | | | | | | |]; try done.
  intros H. assert (callee <> kVkBindBuffer) by congruence.
  do 6 (destruct ops as [|? ops]; try done).
  by rewrite decide_False.
Qed.

Lemma bindings_none l L :
  kVkBindBuffer ∉ callees l -> omap (bindingOf L) l = [].
Proof.
  induction l as [|p l IH]; intros H; [done|].
  unfold callees in H. simpl in *.
  destruct (calleeOf p) as [c|] eqn:E.
  - apply not_elem_of_cons in H as [Hne H].
    rewrite bindingOf_other by congruence. by apply IH.
  - rewrite bindingOf_other by congruence. by apply IH.
Qed.

(** Reading the bindings back from the groups of the bind loop. *)
Lemma bindings_of_groups env ds c (l : list (nat * (Value * Ty))) v pre post :
  ids_below v pre ->
  constantOf pre ds = Some c ->
  Forall (fun arg : nat * (Value * Ty) => isMemRefType arg.2.2 = true) l ->
  omap (bindingOf (pre ++ bindGroups env ds l v ++ post)) (bindGroups env ds l v)
  = (fun arg : nat * (Value * Ty) => (c, wrap_signed 32 (Z.of_nat arg.1))) <$> l.
Proof.
  revert v pre. induction l as [|arg l IH]; intros v pre Hb Hds HF; [done|].
  apply Forall_cons in HF as [Hm HF].
  cbn [bindGroups]. rewrite omap_app, fmap_cons.
  set (v5 := N.succ (N.succ (N.succ (N.succ (N.succ v))))).
  rewrite <- (app_assoc (bindGroup env ds arg v)), (app_assoc pre).
  rewrite IH; [|apply ids_below_app; split;
                 [eapply ids_below_mono; [|exact Hb]; unfold v5; lia
                 |apply ids_below_bindGroup]
               | |done].
  2:{ unfold constantOf in *.
      destruct (definition pre ds) as [o|] eqn:E; [|done].
      by rewrite (definition_found _ _ _ _ E). }
  rewrite <- (app_assoc pre).
  set (L := pre ++ bindGroup env ds arg v ++ bindGroups env ds l v5 ++ post).
  assert (constantOf L ds = Some c) as Hc.
  { unfold constantOf, L in *.
    destruct (definition pre ds) as [o|] eqn:E; [|done].
    by rewrite (definition_found _ _ _ _ E). }
  assert (constantOf L v = Some (wrap_signed 32 (Z.of_nat arg.1))) as Hv.
  { unfold constantOf, L. rewrite (definition_skip v) by (done || lia).
    unfold bindGroup. destruct arg.2.2; try done.
    cbn [app definition]. by rewrite decide_True. }
  unfold bindGroup at 1. destruct arg.2.2 eqn:Et; try done.
  cbn [omap list_omap bindingOf snd].
  rewrite decide_True by done. rewrite Hc, Hv. done.
Qed.

(** Every kernel operand is bound once, in argument order, to descriptor
    set 0 at the binding index that is its argument position (as a 32-bit
    constant). *)
Theorem vk_binding_index_is_argument_position
  (modulesMap : gmap string BinaryModule) (scheduleFuncNum : Z) (ir : IR)
  (st st' : PatternState) (op : ScheduleFunc) (next : N) (r : Rewriter) :
  apply modulesMap scheduleFuncNum ir st op next = Some (success, r, st') ->
  bindings (created r)
  = imap (fun i _ => (0%Z, wrap_signed 32 (Z.of_nat i))) (kernelOperands (body op)).
Proof.
  intros H. apply apply_success in H. revert H.
  unfold matchAndRewrite.
  destruct (modulesMap !! getKernelModuleName (body op)) as [bm|]; [|done].
  destruct (kernelsNameMap bm !! getKernelName (body op)) as [gn|]; [|done].
  destruct (getRemappedValue ir <$> getOperands op) as [|env deps]; [done|].
  unfold getPtrToBinaryModule. intros H.
  exec_in H.
  apply bind_gridConstant in H as (ox & _ & H).
  apply bind_gridConstant in H as (oy & _ & H).
  apply bind_gridConstant in H as (oz & _ & H).
  exec_in H.
  loop_in H r1 E1.
  pose proof (bind_loop_continues _ _ _ _ _ E1) as (nb & (C1 & _ & N1 & B1) & _).
  apply bind_loop_exact in E1 as (C1' & HF).
  cbn [nextValue created replacedBy emptyRewriter] in C1, C1', N1.
  rewrite C1' in C1. apply app_inv_head in C1. subst nb.
  exec_in H. rewrite bind_unfold in H.
  match type of H with
  | context [memoryTransfers ?e ?i ?n ?b ?m ?R] =>
      destruct (memoryTransfers_spec e i n b m R) as (next' & Hmt & _);
      rewrite Hmt in H; clear Hmt
  end.
  cbn [nextValue created replacedBy] in H.
  exec_in H.
  match type of C1' with
  | _ = ?P ++ bindGroups ?e ?d ?l ?v =>
      set (pre := P) in *; set (groups := bindGroups e d l v) in *;
      assert (forall post, kVkBindBuffer ∉ callees post ->
                bindings (pre ++ groups ++ post)
                = imap (fun i _ => (0%Z, wrap_signed 32 (Z.of_nat i)))
                       (kernelOperands (body op))) as Hshape
  end.
  { intros post Hpost. unfold bindings. rewrite !omap_app.
    rewrite (bindings_none pre) by (subst pre; vm_compute; intros Hin;
      by apply elem_of_nil in Hin).
    rewrite (bindings_none post) by done.
    subst groups. rewrite (bindings_of_groups _ _ 0%Z).
    - rewrite app_nil_r, app_nil_l. rewrite fmap_imap.
      rewrite imap_fmap. apply imap_ext. by intros.
    - subst pre. unfold ids_below. repeat constructor; simpl; lia.
    - subst pre. unfold constantOf. cbn [app definition].
      repeat (rewrite decide_False by lia). by rewrite decide_True.
    - exact HF. }
  assert (forall k tail,
            kVkBindBuffer ∉ tail ->
            kVkBindBuffer ∉ [kVkCreateLaunchKernelAction; kVkSetLaunchKernelAction]
                            ++ replicate k kVkCreateMemoryTransferAction ++ tail)
    as Hnot.
  { intros k tail Ht Hin. apply elem_of_app in Hin as [Hin|Hin].
    - repeat (apply elem_of_cons in Hin as [Hin|Hin]; [done|]).
      by apply elem_of_nil in Hin.
    - apply elem_of_app in Hin as [Hin|Hin]; [|done].
      by apply elem_of_replicate in Hin as [? _]. }
  destruct (decide (scheduleFuncIndex st = wrap32 (scheduleFuncNum - 1))).
  - exec_in H. injection H as <- <-. cbn [created]. rewrite C1'.
    rewrite <- !app_assoc. cbn [app].
    rewrite (app_assoc pre groups). rewrite <- (app_assoc pre groups).
    apply Hshape.
    unfold callees. cbn [omap list_omap calleeOf snd]. rewrite omap_app.
    fold (callees (emitTransfers env (transfers_interleaved (bufferMap st)
             (scheduleFuncIndex st) 0
             ((fun a : Value * Ty => (getRemappedValue ir a.1, a.2))
                <$> kernelOperands (body op)).*1)
             (N.succ (N.succ (N.succ (nextValue r1)))))).
    rewrite callees_emitTransfers.
    apply (Hnot _ [kVkScheduleFunc; kVkRun]).
    intros Hin. repeat (apply elem_of_cons in Hin as [Hin|Hin]; [done|]).
    by apply elem_of_nil in Hin.
  - exec_in H. injection H as <- <-. cbn [created]. rewrite C1'.
    rewrite <- !app_assoc. cbn [app].
    apply Hshape.
    unfold callees. cbn [omap list_omap calleeOf snd]. rewrite omap_app.
    fold (callees (emitTransfers env (transfers_interleaved (bufferMap st)
             (scheduleFuncIndex st) 0
             ((fun a : Value * Ty => (getRemappedValue ir a.1, a.2))
                <$> kernelOperands (body op)).*1)
             (N.succ (N.succ (N.succ (nextValue r1)))))).
    rewrite callees_emitTransfers.
    apply (Hnot _ [kVkScheduleFunc]).
    intros Hin. repeat (apply elem_of_cons in Hin as [Hin|Hin]; [done|]).
    by apply elem_of_nil in Hin.
Qed.

Lemma vk_binding_index_is_argument_position_witness :
  let out := apply Scenario.modulesMap 3 Scenario.ir
               (MkPatternState 1 {[ 21%N := (0, 1)%Z ]}) Scenario.launch2 200 in
  out = Some (success, rewriterOf out, stateAfter out) /\
  bindings (created (rewriterOf out)) = [(0, 0)%Z; (0, 1)%Z].
Proof.
  intros out.
  assert (out = Some (success, rewriterOf out, stateAfter out)) as H
    by (vm_compute; reflexivity).
  split; [exact H|].
  etrans; [exact (vk_binding_index_is_argument_position Scenario.modulesMap 3
                    Scenario.ir (MkPatternState 1 {[ 21%N := (0, 1)%Z ]})
                    (stateAfter out) Scenario.launch2 200 (rewriterOf out) H)|].
  vm_compute; reflexivity.
Defined.

End VulkanLaunchFacts.
